(** * FIAS parser: hierarchy index, parent resolver, staging and reconciliation

    A shallow embedding of [import-fias/fias_parser.py] (class [FIASParser])
    and proofs of the properties its specification states.

    Conventions of the embedding.
    - A Python [str] is a Rocq [string]: the sequence of its characters, a
      character outside ASCII being written as its UTF-8 bytes. Where the
      program counts characters (the cut of a cadastral number at 100) the
      model counts bytes.
    - Library functions whose full behaviour is not in the repository
      ([int], [float], [str.strip], [str.upper], [os.path.join], the
      server's reading of a BIGINT) are parameters of the functions that
      call them; the statements say which of their properties they use.
    - A Python [dict] is a stdpp [gmap], a Python [set] a [gset].
    - [None] is [None] of an option type; the truth value of [x] in
      [if x] is [truthy x].
    - An XML file is the finite sequence of the elements that
      [et.iterparse(file, events=('end',))] yields, each with its tag and
      its attribute dictionary.
    - [print] calls and the counters that only feed them are left out. *)

From Stdlib Require Import ZArith Ascii String DecimalString DecimalZ.
From stdpp Require Import base option list gmap strings.

Local Open Scope string_scope.
Local Open Scope list_scope.
Local Open Scope stdpp_scope.
Local Open Scope nat_scope.

(** ** Python values *)

Module Py.

(** [if s:] for a value that is a [str] or [None]. *)
Definition truthy (o : option string) : bool :=
  match o with
  | Some s => bool_decide (s ≠ "")
  | None => false
  end.

(** [x in levels] where [x] is the result of [dict.get] and [levels] a list
    of strings: [None] is a member of no such list. *)
Definition level_in (o : option string) (levels : list string) : bool :=
  match o with
  | Some l => bool_decide (l ∈ levels)
  | None => false
  end.

(** [str(n)] for an [int]: the decimal numeral, ["-"] in front of a negative
    one. *)
Definition str (n : Z) : string := NilZero.string_of_int (Z.to_int n).

(** A reader of plain decimal numerals (an optional ["-"], then digits). The
    functions below take Python's [int] as a parameter; this reader is the
    instance at which they are run on concrete inputs. *)
Definition dec_int (s : string) : option Z :=
  Z.of_int <$> NilZero.int_of_string s.

Lemma str_nonempty n : str n ≠ "".
Proof.
  unfold str. destruct (Z.to_int n) as [d|d]; simpl; [|discriminate].
  destruct d; simpl; discriminate.
Qed.

Lemma dec_int_str n : dec_int (str n) = Some n.
Proof.
  unfold dec_int, str. rewrite NilZero.isi.
  - simpl. by rewrite DecimalZ.of_to.
  - destruct n; simpl; try discriminate.
    intros [= H]. by apply DecimalPos.Unsigned.to_uint_nonnil in H.
  - destruct n; simpl; try discriminate.
    intros [= H]. by apply DecimalPos.Unsigned.to_uint_nonnil in H.
Qed.

(** [if n:] for a value that is an [int] or [None]. *)
Definition truthy_int (o : option Z) : bool :=
  match o with
  | Some n => bool_decide (n ≠ 0%Z)
  | None => false
  end.

(** [pattern in s] for two strings. *)
Fixpoint contains (pattern s : string) : bool :=
  String.prefix pattern s ||
  match s with
  | EmptyString => false
  | String _ s' => contains pattern s'
  end.

(** [s.endswith(suffix)] *)
Fixpoint endswith (s suffix : string) : bool :=
  bool_decide (s = suffix) ||
  match s with
  | EmptyString => false
  | String _ s' => endswith s' suffix
  end.

(** A [str] is held as its UTF-8 bytes, so that a character is one byte
    that is not of the form 10xxxxxx, followed by the bytes of that form
    that continue it. *)
Definition continues (c : ascii) : bool :=
  match c with
  | Ascii _ _ _ _ _ _ false true => true
  | _ => false
  end.

(** [len(s)]: the number of characters. *)
Fixpoint len (s : string) : nat :=
  match s with
  | EmptyString => 0
  | String c s' => if continues c then len s' else S (len s')
  end.

(** [s[:n]]: the first [n] characters, each with all its bytes. *)
Fixpoint slice_to (n : nat) (s : string) : string :=
  match s with
  | EmptyString => EmptyString
  | String c s' =>
      if continues c then String c (slice_to n s')
      else match n with
           | O => EmptyString
           | S n' => String c (slice_to n' s')
           end
  end.

(** Readers of ASCII text, at which [upper] and [strip], parameters of the
    functions below, are instantiated on concrete inputs. *)
Definition upper_char (c : ascii) : ascii :=
  let n := nat_of_ascii c in
  if (97 <=? n) && (n <=? 122) then ascii_of_nat (n - 32) else c.

Fixpoint upper_ascii (s : string) : string :=
  match s with
  | EmptyString => EmptyString
  | String c s' => String (upper_char c) (upper_ascii s')
  end.

Definition is_space (c : ascii) : bool :=
  let n := nat_of_ascii c in
  (n =? 32) || ((9 <=? n) && (n <=? 13)).

Fixpoint lstrip_ascii (s : string) : string :=
  match s with
  | EmptyString => EmptyString
  | String c s' => if is_space c then lstrip_ascii s' else s
  end.

Fixpoint rstrip_ascii (s : string) : string :=
  match s with
  | EmptyString => EmptyString
  | String c s' =>
      match rstrip_ascii s' with
      | EmptyString => if is_space c then EmptyString else String c EmptyString
      | t => String c t
      end
  end.

Definition strip_ascii (s : string) : string := rstrip_ascii (lstrip_ascii s).

Lemma prefix_spec pattern s :
  String.prefix pattern s = true ↔ ∃ b, s = pattern +:+ b.
Proof.
  revert s. induction pattern as [|c pattern IH]; intros s.
  - destruct s; simpl; (split; [intros _; by eexists|done]).
  - destruct s as [|c' s]; simpl.
    + split; [done|]. by intros [b ?].
    + destruct (ascii_dec c c') as [->|Hne].
      * rewrite IH. split; intros [b Hb]; exists b; [by rewrite Hb|].
        by injection Hb.
      * split; [done|]. intros [b Hb]. by injection Hb.
Qed.

(** [contains pattern s] holds when [pattern] occurs in [s]. *)
Lemma contains_spec pattern s :
  contains pattern s = true ↔ ∃ a b, s = a +:+ pattern +:+ b.
Proof.
  induction s as [|c s IH].
  - unfold contains. rewrite orb_false_r, prefix_spec. split.
    + intros [b Hb]. by exists "", b.
    + intros (a & b & Hab). destruct a; [by exists b|done].
  - cbn [contains]. rewrite orb_true_iff, IH, prefix_spec. split.
    + intros [[b Hb]|(a & b & Hab)]; [by exists "", b|].
      exists (String c a), b. simpl. by rewrite Hab.
    + intros (a & b & Hab). destruct a as [|c' a]; [left; by exists b|].
      right. exists a, b. by injection Hab.
Qed.

(** [endswith s suffix] holds when [s] ends with [suffix]. *)
Lemma endswith_spec s suffix :
  endswith s suffix = true ↔ ∃ a, s = a +:+ suffix.
Proof.
  induction s as [|c s IH].
  - unfold endswith. rewrite orb_false_r, bool_decide_eq_true. split.
    + intros <-. by exists "".
    + intros [a Ha]. destruct a; [done|discriminate].
  - cbn [endswith]. rewrite orb_true_iff, bool_decide_eq_true, IH. split.
    + intros [<-|[a ->]]; [by exists ""|]. by exists (String c a).
    + intros [a Ha]. destruct a as [|c' a]; [by left|].
      right. exists a. by injection Ha.
Qed.

Lemma truthy_Some s : truthy (Some s) = true ↔ s ≠ "".
Proof. unfold truthy. apply bool_decide_eq_true. Qed.

Lemma truthy_true o : truthy o = true → ∃ s, o = Some s ∧ s ≠ "".
Proof.
  destruct o as [s|]; simpl; [|discriminate].
  intros H. exists s. split; [reflexivity|]. by apply bool_decide_eq_true in H.
Qed.

Lemma level_in_true o levels :
  level_in o levels = true ↔ ∃ l, o = Some l ∧ l ∈ levels.
Proof.
  destruct o as [l|]; simpl.
  - rewrite bool_decide_eq_true. split; [eauto|]. by intros (? & [= <-] & ?).
  - split; [discriminate|]. by intros (? & [=] & _).
Qed.

#[global] Arguments truthy : simpl never.
#[global] Arguments level_in : simpl never.

End Py.

(** ** XML elements and files *)

Record element := Element {
  tag : string;
  attrib : gmap string string
}.

Record xmlfile := XmlFile {
  file_path : string;
  file_events : list element
}.

(** All elements of a group of files, in the order the scans meet them. *)
Definition events_of (files : list xmlfile) : list element :=
  concat (file_events <$> files).

Lemma elem_of_events_of elem files :
  elem ∈ events_of files ↔ ∃ f, f ∈ files ∧ elem ∈ file_events f.
Proof.
  unfold events_of. induction files as [|f files IH]; simpl.
  - split; [by intros ?%elem_of_nil|]. by intros (? & ?%elem_of_nil & _).
  - rewrite elem_of_app, IH. split.
    + intros [Hf|(g & Hg & Hin)].
      * exists f. split; [apply list_elem_of_here|done].
      * exists g. split; [by apply list_elem_of_further|done].
    + intros (g & [->|Hg]%elem_of_cons & Hin); [by left|].
      right. by exists g.
Qed.

(** ** The inputs of the end-to-end scenarios *)

Module Scenario.

Definition elem (t : string) (attrs : list (string * string)) : element :=
  Element t (list_to_map attrs).

Definition object (id objectid name typename level : string) : element :=
  elem "OBJECT"
    [("ID", id); ("OBJECTID", objectid); ("OBJECTGUID", "guid-" +:+ objectid);
     ("NAME", name); ("TYPENAME", typename); ("LEVEL", level);
     ("ISACTUAL", "1"); ("ISACTIVE", "1"); ("UPDATEDATE", "2024-01-01")].

Definition item (objectid parentobjid : string) : element :=
  elem "ITEM"
    [("OBJECTID", objectid); ("PARENTOBJID", parentobjid); ("ISACTIVE", "1")].

Definition house (id objectid housenum : string) : element :=
  elem "HOUSE"
    [("ID", id); ("OBJECTID", objectid); ("OBJECTGUID", "guid-" +:+ objectid);
     ("HOUSENUM", housenum);
     ("ISACTUAL", "1"); ("ISACTIVE", "1"); ("UPDATEDATE", "2024-01-01")].

Definition param (objectid typeid value : string) : element :=
  elem "PARAM" [("OBJECTID", objectid); ("TYPEID", typeid); ("VALUE", value)].

(** Scenario 1: municipality 100 (level 4), settlement 200 (level 6),
    street 300 (level 8), house 400 (number 5); municipal edges
    200 -> 100, 300 -> 200, 400 -> 300. Each file ends with its root
    element. *)
Definition addr_obj : list xmlfile :=
  [XmlFile "AS_ADDR_OBJ_1.XML"
     [object "1" "100" "Beryozovsky" "g.o." "4";
      object "2" "200" "Monetny" "p" "6";
      object "3" "300" "Lesnaya" "ul" "8";
      elem "ADDRESSOBJECTS" []]].

Definition mun_hierarchy : list xmlfile :=
  [XmlFile "AS_MUN_HIERARCHY_1.XML"
     [item "200" "100"; item "300" "200"; item "400" "300"; elem "ITEMS" []]].

Definition houses : list xmlfile :=
  [XmlFile "AS_HOUSES_1.XML" [house "4" "400" "5"; elem "HOUSES" []]].

(** Scenario 2: the administrative hierarchy says 200 -> 999. *)
Definition adm_conflict : list xmlfile :=
  [XmlFile "AS_ADM_HIERARCHY_1.XML" [item "200" "999"; elem "ITEMS" []]].

(** Scenario 3: house 400 has no hierarchy edge. *)
Definition mun_hierarchy_no_house_edge : list xmlfile :=
  [XmlFile "AS_MUN_HIERARCHY_1.XML"
     [item "200" "100"; item "300" "200"; elem "ITEMS" []]].

End Scenario.

(** ** The hierarchy index: [load_hierarchy_and_levels] *)

Module Index.

Record index := MkIndex {
  hierarchy_map : gmap string string;   (* objectid -> parent objectid *)
  level_map : gmap string string        (* objectid -> level *)
}.

(** Body of the loop of step 1 (levels from AS_ADDR_OBJ), for one element. *)
Definition level_elem (level_map : gmap string string) (elem : element)
  : gmap string string :=
  if decide (tag elem = "OBJECT") then
    let attr := attrib elem in
    if decide (attr !! "ISACTUAL" = Some "1" ∧ attr !! "ISACTIVE" = Some "1") then
      match attr !! "OBJECTID", attr !! "LEVEL" with
      | Some objectid, Some level =>
          if Py.truthy (Some objectid) && Py.truthy (Some level)
          then <[objectid := level]> level_map
          else level_map
      | _, _ => level_map
      end
    else level_map
  else level_map.

(** Body of the loop of step 2 (AS_MUN_HIERARCHY): the edge is written
    unconditionally. *)
Definition mun_elem (hierarchy_map : gmap string string) (elem : element)
  : gmap string string :=
  if decide (tag elem = "ITEM") then
    let attr := attrib elem in
    if decide (attr !! "ISACTIVE" = Some "1") then
      match attr !! "OBJECTID", attr !! "PARENTOBJID" with
      | Some objectid, Some parent_objectid =>
          if Py.truthy (Some objectid) && Py.truthy (Some parent_objectid)
          then <[objectid := parent_objectid]> hierarchy_map
          else hierarchy_map
      | _, _ => hierarchy_map
      end
    else hierarchy_map
  else hierarchy_map.

(** Body of the loop of step 3 (AS_ADM_HIERARCHY): the edge is written only
    when [obj_str not in self.hierarchy_map]. *)
Definition adm_elem (hierarchy_map : gmap string string) (elem : element)
  : gmap string string :=
  if decide (tag elem = "ITEM") then
    let attr := attrib elem in
    if decide (attr !! "ISACTIVE" = Some "1") then
      match attr !! "OBJECTID", attr !! "PARENTOBJID" with
      | Some objectid, Some parent_objectid =>
          if Py.truthy (Some objectid) && Py.truthy (Some parent_objectid)
          then match hierarchy_map !! objectid with
               | None => <[objectid := parent_objectid]> hierarchy_map
               | Some _ => hierarchy_map
               end
          else hierarchy_map
      | _, _ => hierarchy_map
      end
    else hierarchy_map
  else hierarchy_map.

(** One scan: every file of the group, every element of the file. *)
Definition scan {S : Type} (body : S → element → S) (init : S)
    (files : list xmlfile) : S :=
  foldl (λ st f, foldl body st (file_events f)) init files.

Definition load_hierarchy_and_levels (addr_files mun_files adm_files : list xmlfile)
  : index :=
  let level_map := scan level_elem ∅ addr_files in
  let hierarchy_map := scan mun_elem ∅ mun_files in
  let hierarchy_map := scan adm_elem hierarchy_map adm_files in
  MkIndex hierarchy_map level_map.

(** The reading of "an active record" used by the statements below. *)

(** An active hierarchy edge: an ITEM with ISACTIVE = 1 and non-empty child
    and parent ids. *)
Definition active_edge (elem : element) : option (string * string) :=
  if decide (tag elem = "ITEM") then
    if decide (attrib elem !! "ISACTIVE" = Some "1") then
      match attrib elem !! "OBJECTID", attrib elem !! "PARENTOBJID" with
      | Some c, Some p => if decide (c ≠ "" ∧ p ≠ "") then Some (c, p) else None
      | _, _ => None
      end
    else None
  else None.

(** An active address object: an OBJECT with ISACTUAL = 1 and ISACTIVE = 1. *)
Definition active_object (elem : element) : Prop :=
  tag elem = "OBJECT" ∧
  attrib elem !! "ISACTUAL" = Some "1" ∧ attrib elem !! "ISACTIVE" = Some "1".

#[export] Instance active_object_dec elem : Decision (active_object elem).
Proof. unfold active_object. apply _. Defined.

Lemma scan_events {S : Type} (body : S → element → S) init files :
  scan body init files = foldl body init (events_of files).
Proof.
  unfold scan, events_of. revert init.
  induction files as [|f files IH]; intros init; simpl; [reflexivity|].
  by rewrite foldl_app, IH.
Qed.

Lemma mun_elem_edge hm elem :
  mun_elem hm elem =
    match active_edge elem with
    | Some (c, p) => <[c := p]> hm
    | None => hm
    end.
Proof.
  unfold mun_elem, active_edge.
  repeat case_decide; try reflexivity.
  destruct (attrib elem !! "OBJECTID") as [c|]; [|reflexivity].
  destruct (attrib elem !! "PARENTOBJID") as [p|]; [|reflexivity].
  unfold Py.truthy.
  destruct (decide (c ≠ "" ∧ p ≠ "")) as [[Hc Hp]|Hn].
  - by rewrite !bool_decide_eq_true_2.
  - destruct (decide (c = "")) as [->|Hc]; [reflexivity|].
    rewrite (bool_decide_eq_true_2 _ Hc). simpl.
    rewrite bool_decide_eq_false_2; [reflexivity|]. intros Hp. by apply Hn.
Qed.

Lemma adm_elem_edge hm elem :
  adm_elem hm elem =
    match active_edge elem with
    | Some (c, p) => match hm !! c with None => <[c := p]> hm | Some _ => hm end
    | None => hm
    end.
Proof.
  unfold adm_elem, active_edge.
  repeat case_decide; try reflexivity.
  destruct (attrib elem !! "OBJECTID") as [c|]; [|reflexivity].
  destruct (attrib elem !! "PARENTOBJID") as [p|]; [|reflexivity].
  unfold Py.truthy.
  destruct (decide (c ≠ "" ∧ p ≠ "")) as [[Hc Hp]|Hn].
  - by rewrite !bool_decide_eq_true_2.
  - destruct (decide (c = "")) as [->|Hc]; [reflexivity|].
    rewrite (bool_decide_eq_true_2 _ Hc). simpl.
    rewrite bool_decide_eq_false_2; [reflexivity|]. intros Hp. by apply Hn.
Qed.

(** The administrative scan never changes the parent of a child that already
    has one. *)
Lemma adm_elem_keeps hm elem c p :
  hm !! c = Some p → adm_elem hm elem !! c = Some p.
Proof.
  intros Hc. rewrite adm_elem_edge.
  destruct (active_edge elem) as [[c' p']|]; [|done].
  destruct (hm !! c') eqn:Hc'; [done|].
  rewrite lookup_insert_ne; [done|]. intros ->. congruence.
Qed.

Lemma adm_scan_keeps evs hm c p :
  hm !! c = Some p → foldl adm_elem hm evs !! c = Some p.
Proof.
  revert hm. induction evs as [|e evs IH]; intros hm Hc; simpl; [done|].
  apply IH. by apply adm_elem_keeps.
Qed.

(** After the municipal scan, the parent of [child] is the parent of the
    last active municipal edge of [child]. *)
Lemma mun_scan_last pre e post hm child p :
  active_edge e = Some (child, p) →
  (∀ e' p', e' ∈ post → active_edge e' ≠ Some (child, p')) →
  foldl mun_elem hm (pre ++ e :: post) !! child = Some p.
Proof.
  intros He Hpost. rewrite foldl_app. simpl.
  generalize (foldl mun_elem hm pre). intros hm'.
  assert (mun_elem hm' e !! child = Some p) as Hst.
  { rewrite mun_elem_edge, He. apply lookup_insert_eq. }
  revert Hst. generalize (mun_elem hm' e). clear hm hm' He.
  induction post as [|e' post IH]; intros hm Hst; simpl; [done|].
  apply IH.
  - intros e'' p' Hin. apply Hpost. by apply list_elem_of_further.
  - rewrite mun_elem_edge.
    destruct (active_edge e') as [[c' p']|] eqn:He'; [|done].
    rewrite lookup_insert_ne; [done|]. intros ->.
    by apply (Hpost e' p'); [apply list_elem_of_here|].
Qed.

(** C1. Municipal priority. When [child] has an active edge in the
    AS_MUN_HIERARCHY files, [parent_map[child]] after
    [load_hierarchy_and_levels] is the parent of that municipal edge (of the
    last one, should the files carry several for the same child), whatever
    the AS_ADM_HIERARCHY files say about [child]; in particular when they
    carry an active edge of [child] with a different parent. *)
Theorem municipal_priority addr_files mun_files adm_files pre e post child p :
  events_of mun_files = pre ++ e :: post →
  active_edge e = Some (child, p) →
  (∀ e' p', e' ∈ post → active_edge e' ≠ Some (child, p')) →
  hierarchy_map (load_hierarchy_and_levels addr_files mun_files adm_files) !! child
    = Some p.
Proof.
  intros Hmun He Hpost. unfold load_hierarchy_and_levels. simpl.
  rewrite (scan_events adm_elem). apply adm_scan_keeps.
  rewrite (scan_events mun_elem), Hmun.
  by apply mun_scan_last.
Qed.

(** *** Where the entries of the index come from *)

Lemma level_elem_lookup lm elem k l :
  level_elem lm elem !! k = Some l →
  lm !! k = Some l ∨
  (active_object elem ∧
   attrib elem !! "OBJECTID" = Some k ∧ attrib elem !! "LEVEL" = Some l).
Proof.
  unfold level_elem, active_object.
  case_decide as Htag; [|by left]. case_decide as Hflags; [|by left].
  destruct (attrib elem !! "OBJECTID") as [objectid|]; [|by left].
  destruct (attrib elem !! "LEVEL") as [level|]; [|by left].
  destruct (Py.truthy (Some objectid) && Py.truthy (Some level)); [|by left].
  destruct (decide (objectid = k)) as [->|Hne].
  - rewrite lookup_insert_eq. intros [= ->]. right. by destruct Hflags.
  - rewrite lookup_insert_ne by done. by left.
Qed.

Lemma level_scan_lookup evs lm k l :
  foldl level_elem lm evs !! k = Some l →
  lm !! k = Some l ∨
  ∃ elem, elem ∈ evs ∧ active_object elem ∧
          attrib elem !! "OBJECTID" = Some k ∧ attrib elem !! "LEVEL" = Some l.
Proof.
  revert lm. induction evs as [|e evs IH]; intros lm; simpl; [by left|].
  intros [Hhere|(elem & Hin & Hact)]%IH.
  - apply level_elem_lookup in Hhere as [?|Hact]; [by left|].
    right. exists e. split; [apply list_elem_of_here|done].
  - right. exists elem. split; [by apply list_elem_of_further|done].
Qed.

Lemma mun_scan_lookup evs hm c p :
  foldl mun_elem hm evs !! c = Some p →
  hm !! c = Some p ∨ ∃ elem, elem ∈ evs ∧ active_edge elem = Some (c, p).
Proof.
  revert hm. induction evs as [|e evs IH]; intros hm; simpl; [by left|].
  intros [Hhere|(elem & Hin & Hact)]%IH.
  - rewrite mun_elem_edge in Hhere.
    destruct (active_edge e) as [[c' p']|] eqn:He; [|by left].
    destruct (decide (c' = c)) as [->|Hne].
    + rewrite lookup_insert_eq in Hhere. injection Hhere as ->.
      right. exists e. split; [apply list_elem_of_here|done].
    + rewrite lookup_insert_ne in Hhere by done. by left.
  - right. exists elem. split; [by apply list_elem_of_further|done].
Qed.

Lemma adm_scan_lookup evs hm c p :
  foldl adm_elem hm evs !! c = Some p →
  hm !! c = Some p ∨ ∃ elem, elem ∈ evs ∧ active_edge elem = Some (c, p).
Proof.
  revert hm. induction evs as [|e evs IH]; intros hm; simpl; [by left|].
  intros [Hhere|(elem & Hin & Hact)]%IH.
  - rewrite adm_elem_edge in Hhere.
    destruct (active_edge e) as [[c' p']|] eqn:He; [|by left].
    destruct (hm !! c') eqn:Hc'; [by left|].
    destruct (decide (c' = c)) as [->|Hne].
    + rewrite lookup_insert_eq in Hhere. injection Hhere as ->.
      right. exists e. split; [apply list_elem_of_here|done].
    + rewrite lookup_insert_ne in Hhere by done. by left.
  - right. exists elem. split; [by apply list_elem_of_further|done].
Qed.

Lemma level_map_from_active addr_files mun_files adm_files k l :
  level_map (load_hierarchy_and_levels addr_files mun_files adm_files) !! k
    = Some l →
  ∃ elem, elem ∈ events_of addr_files ∧ active_object elem ∧
          attrib elem !! "OBJECTID" = Some k ∧ attrib elem !! "LEVEL" = Some l.
Proof.
  unfold load_hierarchy_and_levels. simpl. rewrite scan_events.
  intros [Hempty|?]%level_scan_lookup; [|done]. by rewrite lookup_empty in Hempty.
Qed.

Lemma hierarchy_map_from_active addr_files mun_files adm_files c p :
  hierarchy_map (load_hierarchy_and_levels addr_files mun_files adm_files) !! c
    = Some p →
  ∃ elem, elem ∈ events_of mun_files ++ events_of adm_files ∧
          active_edge elem = Some (c, p).
Proof.
  unfold load_hierarchy_and_levels. simpl. rewrite !scan_events.
  intros [Hmun|(elem & Hin & He)]%adm_scan_lookup.
  - apply mun_scan_lookup in Hmun as [Hempty|(elem & Hin & He)].
    + by rewrite lookup_empty in Hempty.
    + exists elem. split; [|done]. apply elem_of_app. by left.
  - exists elem. split; [|done]. apply elem_of_app. by right.
Qed.

Lemma level_elem_inactive lm elem :
  ¬ active_object elem → level_elem lm elem = lm.
Proof.
  unfold level_elem, active_object. intros Hn.
  case_decide as Htag; [|done]. case_decide as Hflags; [|done].
  destruct Hn. by destruct Hflags.
Qed.

Lemma active_edge_nonempty elem c p :
  active_edge elem = Some (c, p) → c ≠ "" ∧ p ≠ "".
Proof.
  unfold active_edge. repeat case_decide; try done.
  destruct (attrib elem !! "OBJECTID"); [|done].
  destruct (attrib elem !! "PARENTOBJID"); [|done].
  case_decide; [|done]. by intros [= <- <-].
Qed.

Lemma municipal_priority_witness :
  hierarchy_map
    (load_hierarchy_and_levels
       Scenario.addr_obj Scenario.mun_hierarchy Scenario.adm_conflict) !! "200"
  = Some "100".
Proof.
  apply (municipal_priority _ _ _ [] (Scenario.item "200" "100")
           [Scenario.item "300" "200"; Scenario.item "400" "300";
            Scenario.elem "ITEMS" []]);
    [reflexivity|reflexivity|].
  intros e' p' Hin.
  repeat (apply elem_of_cons in Hin as [->|Hin]; [vm_compute; discriminate|]).
  by apply elem_of_nil in Hin.
Defined.

End Index.

(** ** Results of calls *)

Inductive exn := ValueError | DatabaseError | ZeroDivisionError.

(** What a call of the program does: it returns a value, or an exception
    propagates out of it. [Unfinished] is the answer of the model when the
    iteration bound given to a [while] loop runs out; the loops below are
    proved never to reach it. *)
Inductive result (A : Type) : Type :=
  | Returns (a : A)
  | Raises (e : exn)
  | Unfinished.
Arguments Returns {A} a.
Arguments Raises {A} e.
Arguments Unfinished {A}.

#[export] Instance result_ret : MRet result := λ A a, Returns a.
#[export] Instance result_bind : MBind result := λ A B k r,
  match r with
  | Returns a => k a
  | Raises e => Raises e
  | Unfinished => Unfinished
  end.

(** ** The parent resolver: [find_parent_by_level] and [find_mo_parent] *)

Module Resolver.

Import Index.

Section resolver.
(** Python's [int(s)] on a [str]: the integer, or [None] when it raises
    [ValueError]. Whatever numerals it accepts, it reads back what [str]
    prints; the statements that need this assume it. *)
Variable int : string → option Z.
Variable idx : index.

Definition to_int (s : string) : result (option Z) :=
  match int s with
  | Some n => Returns (Some n)
  | None => Raises ValueError
  end.

(** The [while current_id and current_id not in visited] loop of
    [find_parent_by_level]; [bound] limits the number of iterations. *)
Fixpoint climb (bound : nat) (target_levels : list string)
    (current_id : string) (visited : gset string) : result (option Z) :=
  match bound with
  | O => Unfinished
  | S bound =>
      if Py.truthy (Some current_id) && bool_decide (current_id ∉ visited) then
        let visited := {[current_id]} ∪ visited in
        match hierarchy_map idx !! current_id with
        | Some parent_id =>
            let parent_level := level_map idx !! parent_id in
            if Py.level_in parent_level target_levels then to_int parent_id
            else climb bound target_levels parent_id visited
        | None => Returns None
        end
      else Returns None
  end.

Definition find_parent_by_level (objectid : Z) (target_levels : list string)
  : result (option Z) :=
  if decide (objectid = 0%Z) then Returns None else
  let objectid_str := Py.str objectid in
  let current_level := level_map idx !! objectid_str in
  if Py.level_in current_level target_levels then to_int objectid_str
  else climb (S (size (hierarchy_map idx))) target_levels objectid_str ∅.

(** The loop of [find_mo_parent], with the levels 3 and 4 written in. *)
Fixpoint climb_mo (bound : nat) (current_id : string) (visited : gset string)
  : result (option Z) :=
  match bound with
  | O => Unfinished
  | S bound =>
      if Py.truthy (Some current_id) && bool_decide (current_id ∉ visited) then
        let visited := {[current_id]} ∪ visited in
        match hierarchy_map idx !! current_id with
        | Some parent_id =>
            let parent_level := level_map idx !! parent_id in
            if Py.level_in parent_level ["3"; "4"] then to_int parent_id
            else climb_mo bound parent_id visited
        | None => Returns None
        end
      else Returns None
  end.

Definition find_mo_parent (objectid : Z) : result (option Z) :=
  if decide (objectid = 0%Z) then Returns None else
  let objectid_str := Py.str objectid in
  let current_level := level_map idx !! objectid_str in
  if Py.level_in current_level ["3"; "4"] then to_int objectid_str
  else climb_mo (S (size (hierarchy_map idx))) objectid_str ∅.

(** *** The upward walk, as the specification words it *)

(** [ancestor n id]: the object reached from [id] after [n] steps along
    the parent map, when the map has all these edges. *)
Fixpoint ancestor (n : nat) (id : string) : option string :=
  match n with
  | O => Some id
  | S n =>
      match hierarchy_map idx !! id with
      | Some parent_id => ancestor n parent_id
      | None => None
      end
  end.

Definition has_level (id : string) (levels : list string) : Prop :=
  Py.level_in (level_map idx !! id) levels = true.

(** [a] is the first object on the walk from [id] (the object itself
    included, at [n = 0]) whose level is in [levels]. *)
Definition first_at_level (levels : list string) (id : string)
    (n : nat) (a : string) : Prop :=
  ancestor n id = Some a ∧ has_level a levels ∧
  ∀ j b, j < n → ancestor j id = Some b → ¬ has_level b levels.

(** No edge of the parent map leads to an empty id. *)
Definition parents_nonempty : Prop :=
  map_Forall (λ _ p, p ≠ "") (hierarchy_map idx).

(** *** Termination of the loop *)

Lemma to_int_finished s : to_int s ≠ Unfinished.
Proof. unfold to_int. by destruct (int s). Qed.

(** Each iteration that goes on adds to [visited] a key of the parent map
    that was not in it: the keys not yet visited are a variant. *)
Lemma climb_finishes (bound : nat) levels current_id visited :
  size (dom (hierarchy_map idx) ∖ visited) < bound →
  climb bound levels current_id visited ≠ Unfinished.
Proof.
  revert current_id visited.
  induction bound as [|bound IH]; intros cur visited Hsz; [lia|].
  simpl.
  destruct (Py.truthy (Some cur) && bool_decide (cur ∉ visited)) eqn:Hc; [|done].
  apply andb_true_iff in Hc as [_ Hnv]. apply bool_decide_eq_true in Hnv.
  destruct (hierarchy_map idx !! cur) as [parent|] eqn:Hp; [|done].
  destruct (Py.level_in _ _); [apply to_int_finished|].
  apply IH. apply elem_of_dom_2 in Hp.
  assert (dom (hierarchy_map idx) ∖ ({[cur]} ∪ visited)
            ⊂ dom (hierarchy_map idx) ∖ visited) as Hsub.
  { split.
    - intros x [Hx Hnx]%elem_of_difference. apply elem_of_difference.
      split; [done|]. intros Hv. apply Hnx, elem_of_union. by right.
    - intros Hback.
      assert (cur ∈ dom (hierarchy_map idx) ∖ ({[cur]} ∪ visited))
        as [_ Hn]%elem_of_difference.
      { apply Hback. by apply elem_of_difference. }
      apply Hn, elem_of_union. left. by apply elem_of_singleton. }
  apply subset_size in Hsub. lia.
Qed.

(** A larger bound does not change the result of a loop that finished. *)
Lemma climb_more (bound bound' : nat) levels current_id visited :
  bound ≤ bound' →
  climb bound levels current_id visited ≠ Unfinished →
  climb bound' levels current_id visited = climb bound levels current_id visited.
Proof.
  revert bound' current_id visited.
  induction bound as [|bound IH]; intros bound' cur visited Hle Hfin; [done|].
  destruct bound' as [|bound']; [lia|]. simpl in *.
  destruct (Py.truthy (Some cur) && bool_decide (cur ∉ visited)); [|done].
  destruct (hierarchy_map idx !! cur) as [parent|]; [|done].
  destruct (Py.level_in _ _); [done|].
  apply IH; [lia|done].
Qed.

Lemma find_parent_by_level_finishes objectid levels :
  find_parent_by_level objectid levels ≠ Unfinished.
Proof.
  unfold find_parent_by_level. case_decide; [done|].
  destruct (Py.level_in _ _); [apply to_int_finished|].
  apply climb_finishes.
  rewrite difference_empty_L.
  rewrite size_dom. lia.
Qed.

(** The bound that [find_parent_by_level] gives the loop is one that lets
    it finish: any larger one gives the same result. *)
Lemma climb_bound_irrelevant (bound : nat) levels current_id :
  S (size (hierarchy_map idx)) ≤ bound →
  climb bound levels current_id ∅
  = climb (S (size (hierarchy_map idx))) levels current_id ∅.
Proof.
  intros Hle. apply climb_more; [done|].
  apply climb_finishes. rewrite difference_empty_L, size_dom. lia.
Qed.

(** *** The walk and the loop *)

Lemma ancestor_add n m id :
  ancestor (n + m) id = ancestor n id ≫= ancestor m.
Proof.
  revert id. induction n as [|n IH]; intros id; simpl; [done|].
  destruct (hierarchy_map idx !! id); [apply IH|done].
Qed.

Lemma ancestor_nonempty n id b :
  parents_nonempty → id ≠ "" → ancestor n id = Some b → b ≠ "".
Proof.
  intros Hne. revert id. induction n as [|n IH]; intros id Hid; simpl.
  - by intros [= <-].
  - destruct (hierarchy_map idx !! id) as [p|] eqn:Hp; [|done].
    apply IH. by apply (Hne id).
Qed.

Lemma has_level_false id levels :
  ¬ has_level id levels → Py.level_in (level_map idx !! id) levels = false.
Proof. unfold has_level. by destruct (Py.level_in _ _). Qed.

(** What the loop returns is a target-level ancestor, and no ancestor
    between the start and it has a target level. *)
Lemma climb_sound bound levels current_id visited r :
  climb bound levels current_id visited = Returns (Some r) →
  ∃ k a, ancestor (S k) current_id = Some a ∧ has_level a levels ∧
         int a = Some r ∧
         ∀ j b, 1 ≤ j ≤ k → ancestor j current_id = Some b → ¬ has_level b levels.
Proof.
  revert current_id visited.
  induction bound as [|bound IH]; intros cur visited; cbn [climb]; [done|].
  destruct (Py.truthy (Some cur) && bool_decide (cur ∉ visited)); [|done].
  destruct (hierarchy_map idx !! cur) as [parent|] eqn:Hp; [|done].
  destruct (Py.level_in (level_map idx !! parent) levels) eqn:Hl.
  - unfold to_int. destruct (int parent) as [n|] eqn:Hn; [|done].
    intros [= <-]. exists 0, parent. simpl. rewrite Hp.
    repeat split; [done..|]. intros j b Hj. lia.
  - intros Hrec. apply IH in Hrec as (k & a & Ha & Hla & Hia & Hmin).
    exists (S k), a. split; [|split; [done|split; [done|]]].
    + change (ancestor (S (S k)) cur) with
        (match hierarchy_map idx !! cur with
         | Some q => ancestor (S k) q | None => None end).
      by rewrite Hp.
    + intros j b Hj Hb. destruct j as [|j]; [lia|].
      simpl in Hb. rewrite Hp in Hb.
      destruct j as [|j].
      * simpl in Hb. injection Hb as <-. unfold has_level. by rewrite Hl.
      * apply (Hmin (S j) b); [lia|done].
Qed.

(** When the first target-level ancestor is [k + 1] steps up, the ids
    before it are non-empty, pairwise distinct and not yet visited, the
    loop reaches it. *)
Lemma climb_complete k : ∀ bound levels current_id visited a,
  k < bound →
  ancestor (S k) current_id = Some a → has_level a levels →
  (∀ j b, 1 ≤ j ≤ k → ancestor j current_id = Some b → ¬ has_level b levels) →
  (∀ j b, j ≤ k → ancestor j current_id = Some b → b ≠ "" ∧ b ∉ visited) →
  (∀ i j b, i < j ≤ k → ancestor i current_id = Some b →
            ancestor j current_id ≠ Some b) →
  climb bound levels current_id visited = to_int a.
Proof.
  induction k as [|k IH]; intros bound levels cur visited a Hb Ha Hla Hmin Hfresh Hdist.
  - destruct bound as [|bound]; [lia|]. simpl in *.
    destruct (Hfresh 0 cur) as [Hne Hnv]; [lia|done|].
    rewrite (proj2 (Py.truthy_Some cur) Hne), (bool_decide_eq_true_2 _ Hnv). simpl.
    destruct (hierarchy_map idx !! cur) as [parent|]; [|done].
    injection Ha as ->. unfold has_level in Hla. by rewrite Hla.
  - destruct bound as [|bound]; [lia|].
    change (ancestor (S (S k)) cur) with
      (match hierarchy_map idx !! cur with
       | Some q => ancestor (S k) q | None => None end) in Ha.
    simpl.
    destruct (Hfresh 0 cur) as [Hne Hnv]; [lia|done|].
    rewrite (proj2 (Py.truthy_Some cur) Hne), (bool_decide_eq_true_2 _ Hnv). simpl.
    destruct (hierarchy_map idx !! cur) as [parent|] eqn:Hp; [|done].
    rewrite has_level_false.
    2:{ apply (Hmin 1); [lia|]. simpl. by rewrite Hp. }
    apply IH; [lia|done|done|..].
    + intros j b Hj Hjb. apply (Hmin (S j)); [lia|]. simpl. by rewrite Hp.
    + intros j b Hj Hjb.
      assert (ancestor (S j) cur = Some b) as Hjb' by (simpl; by rewrite Hp).
      destruct (Hfresh (S j) b) as [Hbne Hbnv]; [lia|done|].
      split; [done|]. intros [Hbc|Hbv]%elem_of_union; [|done].
      apply elem_of_singleton in Hbc as ->.
      by apply (Hdist 0 (S j) cur); [lia|done|].
    + intros i j b Hij Hib Hjb.
      apply (Hdist (S i) (S j) b); [lia|simpl; by rewrite Hp|simpl; by rewrite Hp].
Qed.

(** The objects met before the first target-level one are pairwise
    distinct: a repetition would show a target level earlier. *)
Lemma first_at_level_distinct levels id n a :
  first_at_level levels id n a →
  ∀ i j b, i < j < n → ancestor i id = Some b → ancestor j id ≠ Some b.
Proof.
  intros (Ha & Hla & Hmin) i j b Hij Hi Hj.
  apply (Hmin (i + (n - j)) a); [lia| |done].
  rewrite ancestor_add, Hi. simpl.
  replace n with (j + (n - j)) in Ha by lia.
  by rewrite ancestor_add, Hj in Ha.
Qed.

(** When no ancestor has a target level, the loop returns [None]. *)
Lemma climb_none bound levels current_id visited :
  (∀ j b, 1 ≤ j → ancestor j current_id = Some b → ¬ has_level b levels) →
  climb bound levels current_id visited ≠ Unfinished →
  climb bound levels current_id visited = Returns None.
Proof.
  revert current_id visited.
  induction bound as [|bound IH]; intros cur visited Hno; simpl; [done|].
  destruct (Py.truthy (Some cur) && bool_decide (cur ∉ visited)); [|done].
  destruct (hierarchy_map idx !! cur) as [parent|] eqn:Hp; [|done].
  rewrite has_level_false.
  2:{ apply (Hno 1); [lia|]. simpl. by rewrite Hp. }
  apply IH. intros j b Hj Hjb. apply (Hno (S j)); [lia|]. simpl. by rewrite Hp.
Qed.

Lemma find_parent_by_level_none objectid levels :
  (∀ j b, ancestor j (Py.str objectid) = Some b → ¬ has_level b levels) →
  find_parent_by_level objectid levels = Returns None.
Proof.
  intros Hno. pose proof (find_parent_by_level_finishes objectid levels) as Hfin.
  unfold find_parent_by_level in *. case_decide; [done|].
  rewrite has_level_false in *; [|by apply (Hno 0)..].
  apply climb_none; [|done]. intros j b _. apply Hno.
Qed.

(** The two loops are the same function at the levels 3 and 4. *)
Lemma climb_mo_climb bound current_id visited :
  climb_mo bound current_id visited = climb bound ["3"; "4"] current_id visited.
Proof.
  revert current_id visited.
  induction bound as [|bound IH]; intros cur visited; simpl; [done|].
  destruct (Py.truthy (Some cur) && bool_decide (cur ∉ visited)); [|done].
  destruct (hierarchy_map idx !! cur) as [parent|]; [|done].
  destruct (Py.level_in _ _); [done|]. apply IH.
Qed.


(** *** Leaving the map, and cycles *)

Lemma find_parent_by_level_leaves_map objectid levels n b :
  ancestor n (Py.str objectid) = Some b →
  hierarchy_map idx !! b = None →
  (∀ j c, j ≤ n → ancestor j (Py.str objectid) = Some c → ¬ has_level c levels) →
  find_parent_by_level objectid levels = Returns None.
Proof.
  intros Hn Hb Hno. apply find_parent_by_level_none. intros j c Hj.
  destruct (decide (j ≤ n)) as [Hle|Hgt]; [by apply (Hno j)|].
  replace j with (n + S (j - n - 1)) in Hj by lia.
  rewrite ancestor_add, Hn in Hj. simpl in Hj. by rewrite Hb in Hj.
Qed.

Lemma find_parent_by_level_revisit objectid levels i j b :
  i < j →
  ancestor i (Py.str objectid) = Some b →
  ancestor j (Py.str objectid) = Some b →
  (∀ l c, l < j → ancestor l (Py.str objectid) = Some c → ¬ has_level c levels) →
  find_parent_by_level objectid levels = Returns None.
Proof.
  intros Hij Hi Hj Hno. apply find_parent_by_level_none.
  intros l. induction l as [l IH] using lt_wf_ind. intros c Hl.
  destruct (decide (l < j)) as [Hlt|Hge]; [by apply (Hno l)|].
  apply (IH (i + (l - j))); [lia|].
  replace l with (j + (l - j)) in Hl by lia.
  rewrite ancestor_add, Hj in Hl. by rewrite ancestor_add, Hi.
Qed.

End resolver.

(** C3. [find_mo_parent] is [find_parent_by_level] at the target levels
    3 and 4: for every object id and every state of the two maps the two
    calls have the same result. *)
Theorem find_mo_parent_as_find_parent_by_level int idx objectid :
  find_mo_parent int idx objectid
  = find_parent_by_level int idx objectid ["3"; "4"].
Proof.
  unfold find_mo_parent, find_parent_by_level. case_decide; [done|].
  destruct (Py.level_in _ _); [done|]. apply climb_mo_climb.
Qed.

(** The parent map of Scenario 6: 700 -> 800, 800 -> 700. *)
Definition cycle_index (level_map : gmap string string) : index :=
  MkIndex (<["700" := "800"]> (<["800" := "700"]> ∅)) level_map.

(** C5. On every parent map, cyclic ones included, [find_parent_by_level]
    finishes (the loop runs at most once per key of the parent map, and
    once more), and it returns [None] when the walk leaves the map, or
    comes back to an id, before it has met a target level. With the parent
    map 700 -> 800, 800 -> 700 and neither object at level 3 or 4,
    [find_parent_by_level(700, ['3','4'])] is [None]. *)
Theorem find_parent_by_level_terminates int idx objectid levels :
  find_parent_by_level int idx objectid levels ≠ Unfinished ∧
  (∀ n b,
     ancestor idx n (Py.str objectid) = Some b →
     hierarchy_map idx !! b = None →
     (∀ j c, j ≤ n → ancestor idx j (Py.str objectid) = Some c →
             ¬ has_level idx c levels) →
     find_parent_by_level int idx objectid levels = Returns None) ∧
  (∀ i j b,
     i < j →
     ancestor idx i (Py.str objectid) = Some b →
     ancestor idx j (Py.str objectid) = Some b →
     (∀ l c, l < j → ancestor idx l (Py.str objectid) = Some c →
             ¬ has_level idx c levels) →
     find_parent_by_level int idx objectid levels = Returns None) ∧
  (∀ level_map,
     ¬ has_level (cycle_index level_map) "700" ["3"; "4"] →
     ¬ has_level (cycle_index level_map) "800" ["3"; "4"] →
     find_parent_by_level int (cycle_index level_map) 700 ["3"; "4"]
     = Returns None).
Proof.
  split; [apply find_parent_by_level_finishes|].
  split; [apply find_parent_by_level_leaves_map|].
  split; [apply find_parent_by_level_revisit|].
  intros lm H700 H800.
  apply (find_parent_by_level_revisit int (cycle_index lm) 700 _ 0 2 "700");
    [lia|reflexivity|reflexivity|].
  intros l c Hl. destruct l as [|[|l]]; [| |lia]; intros [= <-]; done.
Qed.

(** An index on which the object id 0 has a target level. *)
Definition zero_index : index := MkIndex ∅ (<["0" := "3"]> ∅).

(** C4, as stated, fails for the id 0: the guard [if not objectid] answers
    [None] before the level of the object is looked at. *)
Lemma find_parent_by_level_zero_id :
  has_level zero_index (Py.str 0) ["3"; "4"] ∧
  find_parent_by_level Py.dec_int zero_index 0 ["3"; "4"] = Returns None ∧
  find_parent_by_level Py.dec_int zero_index 0 ["3"; "4"] ≠ Returns (Some 0%Z).
Proof. split; [reflexivity|]. split; [reflexivity|discriminate]. Qed.

(** C4 (amended). For an id other than 0 and a parent map without empty
    parent ids (as [load_hierarchy_and_levels] builds it):
    [find_parent_by_level] returns the id itself when its level is in the
    targets; it returns (converted by [int]) the first object on the upward
    walk whose level is in the targets, whenever there is one; and whatever
    it returns is that first object, so that no earlier target-level
    ancestor is skipped. *)
Theorem first_ancestor_property int idx objectid levels :
  (∀ z, int (Py.str z) = Some z) →
  parents_nonempty idx →
  objectid ≠ 0%Z →
  (has_level idx (Py.str objectid) levels →
     find_parent_by_level int idx objectid levels = Returns (Some objectid)) ∧
  (∀ n a, first_at_level idx levels (Py.str objectid) n a →
     find_parent_by_level int idx objectid levels = to_int int a) ∧
  (∀ r, find_parent_by_level int idx objectid levels = Returns (Some r) →
     ∃ n a, first_at_level idx levels (Py.str objectid) n a ∧ int a = Some r).
Proof.
  intros Hint Hne Hid.
  assert (∀ n a, first_at_level idx levels (Py.str objectid) n a →
     find_parent_by_level int idx objectid levels = to_int int a) as Hfirst.
  { intros n a Hfst. pose proof Hfst as (Ha & Hla & Hmin).
    unfold find_parent_by_level. rewrite decide_False by done.
    destruct n as [|k].
    - injection Ha as <-. unfold has_level in Hla. by rewrite Hla.
    - rewrite has_level_false by (by apply (Hmin 0); [lia|]).
      rewrite <- (climb_more int idx _ (S (size (hierarchy_map idx)) + S k)).
      + apply (climb_complete int idx k); [lia|done|done|..].
        * intros j b Hj. apply Hmin. lia.
        * intros j b Hj Hjb. split; [|set_solver].
          by apply (ancestor_nonempty idx j (Py.str objectid));
            [|apply Py.str_nonempty|].
        * intros i j b Hij. apply (first_at_level_distinct idx levels _ _ a Hfst).
          lia.
      + lia.
      + apply climb_finishes. rewrite difference_empty_L, size_dom. lia. }
  split; [|split; [done|]].
  - intros Hl. rewrite (Hfirst 0 (Py.str objectid)).
    + unfold to_int. by rewrite Hint.
    + split; [done|]. split; [done|]. intros j b Hj. lia.
  - intros r. unfold find_parent_by_level. rewrite decide_False by done.
    destruct (Py.level_in (level_map idx !! Py.str objectid) levels) eqn:Hl.
    + unfold to_int. destruct (int (Py.str objectid)) as [m|] eqn:Hm; [|done].
      intros [= <-]. exists 0, (Py.str objectid).
      split; [|done]. split; [done|]. split; [done|]. intros j b Hj. lia.
    + intros (k & a & Ha & Hla & Hia & Hmin)%climb_sound.
      exists (S k), a. split; [|done]. split; [done|]. split; [done|].
      intros j b Hj Hjb. destruct j as [|j].
      * injection Hjb as <-. unfold has_level. by rewrite Hl.
      * apply (Hmin (S j) b); [lia|done].
Qed.

(** The parent map that [load_hierarchy_and_levels] builds has no empty
    parent id: both scans skip an ITEM whose PARENTOBJID is empty. *)
Lemma load_parents_nonempty addr_files mun_files adm_files :
  parents_nonempty (load_hierarchy_and_levels addr_files mun_files adm_files).
Proof.
  intros c p Hcp.
  apply hierarchy_map_from_active in Hcp as (elem & _ & Hedge).
  by apply active_edge_nonempty in Hedge as [_ Hp].
Qed.

(** The index of Scenario 1. *)
Definition scenario_index : index :=
  load_hierarchy_and_levels Scenario.addr_obj Scenario.mun_hierarchy [].

Lemma first_ancestor_property_witness :
  find_parent_by_level Py.dec_int scenario_index 400 ["5"; "6"]
  = Returns (Some 200%Z).
Proof.
  pose proof (load_parents_nonempty Scenario.addr_obj Scenario.mun_hierarchy [])
    as Hne.
  destruct (first_ancestor_property Py.dec_int scenario_index 400 ["5"; "6"]
              Py.dec_int_str Hne ltac:(lia)) as (_ & Hfirst & _).
  rewrite (Hfirst 2 "200"); [reflexivity|].
  split; [reflexivity|]. split; [reflexivity|].
  intros j b Hj. destruct j as [|[|j]]; [| |lia]; intros [= <-]; vm_compute; discriminate.
Defined.

End Resolver.

(** ** The store *)

(** A loop over a list whose body may raise. *)
Fixpoint for_each {A S : Type} (body : S → A → result S) (st : S) (l : list A)
  : result S :=
  match l with
  | [] => Returns st
  | x :: l => st' ← body st x; for_each body st' l
  end.

Lemma for_each_invariant {A S : Type} (Inv : S → Prop)
    (body : S → A → result S) (l : list A) st st' :
  Inv st →
  (∀ s x s', x ∈ l → Inv s → body s x = Returns s' → Inv s') →
  for_each body st l = Returns st' → Inv st'.
Proof.
  revert st. induction l as [|x l IH]; intros st Hst Hbody; simpl.
  - by intros [= <-].
  - destruct (body st x) as [s1| |] eqn:Hx; simpl; [|done..].
    apply IH.
    + apply (Hbody st x); [apply list_elem_of_here|done..].
    + intros s y s' Hy. apply Hbody. by apply list_elem_of_further.
Qed.

Lemma for_each_app {A S : Type} (body : S → A → result S) (l1 l2 : list A) st :
  for_each body st (l1 ++ l2) = (st' ← for_each body st l1; for_each body st' l2).
Proof.
  revert st. induction l1 as [|x l1 IH]; intros st; simpl; [done|].
  destruct (body st x); simpl; [apply IH|done..].
Qed.

Lemma for_each_idle {A S : Type} (body : S → A → result S) (l : list A) st :
  (∀ x, x ∈ l → body st x = Returns st) → for_each body st l = Returns st.
Proof.
  induction l as [|x l IH]; intros Hidle; simpl; [done|].
  rewrite Hidle by apply list_elem_of_here. simpl.
  apply IH. intros y Hy. apply Hidle. by apply list_elem_of_further.
Qed.

(** The five tables of [create_schema]. A table is a finite map from
    [objectid] (declared UNIQUE NOT NULL) to the other columns of the row;
    a nullable column has an option type. Statements are functions on
    tables. Of the failures of a statement, the model has the one of
    reading an id as a BIGINT. Where the program lets the exception of a
    statement reach [main], the run has no final store and transactions
    need no model; the parameters pass swallows the exception, and
    [Params] models its transaction. *)

Module Store.

(** The columns common to municipalities, settlements and streets. *)
Record base := Base {
  row_id : Z;
  objectguid : option string;
  name : string;
  typename : string;
  level : string;
  isactual : Z;
  isactive : Z;
  updatedate : option string
}.

Record municipality := Municipality {
  m_base : base;
  m_parent_id : option Z
}.

Record settlement := Settlement {
  s_base : base;
  s_municipality_id : option Z
}.

Record street := Street {
  st_base : base;
  st_settlement_id : option Z;
  st_municipality_id : option Z
}.

Record house := House {
  h_id : Z;
  h_objectguid : option string;
  h_house_number : option string;
  h_building_number : option string;
  h_structure_number : option string;
  h_street_id : option Z;
  h_settlement_id : option Z;
  h_municipality_id : option Z;
  h_cadastral_number : option string;
  h_floors_count : option Z;
  h_residents_count : option Z;
  h_full_address : option string;
  h_isactual : Z;
  h_isactive : Z;
  h_updatedate : option string
}.

Record land_plot := LandPlot {
  lp_id : Z;
  lp_objectguid : option string;
  lp_number_plot : option string;
  lp_settlement_id : option Z;
  lp_municipality_id : option Z;
  lp_isactual : Z;
  lp_isactive : Z;
  lp_updatedate : option string
}.

Record db := Db {
  municipalities : gmap Z municipality;
  settlements : gmap Z settlement;
  streets : gmap Z street;
  houses : gmap Z house;
  land_plots : gmap Z land_plot
}.

(** The state after [create_schema]: the tables are dropped and created. *)
Definition create_schema : db := Db ∅ ∅ ∅ ∅ ∅.

Definition with_municipalities (d : db) t : db :=
  Db t (settlements d) (streets d) (houses d) (land_plots d).
Definition with_settlements (d : db) t : db :=
  Db (municipalities d) t (streets d) (houses d) (land_plots d).
Definition with_streets (d : db) t : db :=
  Db (municipalities d) (settlements d) t (houses d) (land_plots d).
Definition with_houses (d : db) t : db :=
  Db (municipalities d) (settlements d) (streets d) t (land_plots d).
Definition with_land_plots (d : db) t : db :=
  Db (municipalities d) (settlements d) (streets d) (houses d) t.

(** [SELECT objectid FROM t]: the ids of the rows, in the order of the
    map. *)
Definition objectids {R : Type} (t : gmap Z R) : list Z := (map_to_list t).*1.

Lemma elem_of_objectids {R : Type} (t : gmap Z R) k :
  k ∈ objectids t ↔ ∃ r, t !! k = Some r.
Proof.
  unfold objectids. rewrite list_elem_of_fmap. split.
  - intros ([k' r] & -> & Hin). exists r. by apply elem_of_map_to_list.
  - intros [r Hr]. exists (k, r). split; [done|]. by apply elem_of_map_to_list.
Qed.

Section statements.
(** The server's reading of a string as a BIGINT: the integer, or [None]
    when the statement fails. *)
Variable int8 : string → option Z.

(** A value bound to a NOT NULL BIGINT column. *)
Definition bigint (o : option string) : result Z :=
  match o with
  | Some s => match int8 s with
              | Some z => Returns z
              | None => Raises DatabaseError
              end
  | None => Raises DatabaseError
  end.

(** [INSERT INTO t (...) VALUES (...) ON CONFLICT (objectid) DO NOTHING],
    through [executemany]: one statement per tuple of the batch, in
    order. [row] builds the row from a tuple. *)
Definition insert_batch {T R : Type} (objectid_of : T → option string)
    (row : T → result R) (t : gmap Z R) (batch_data : list T)
  : result (gmap Z R) :=
  for_each (λ t tuple,
      objectid ← bigint (objectid_of tuple);
      r ← row tuple;
      match t !! objectid with
      | Some _ => Returns t
      | None => Returns (<[objectid := r]> t)
      end) t batch_data.

End statements.

End Store.

(** ** The typed object stager: [process_addr_objects] *)

Module Stager.

Import Index Store.

(** The tuple [base_data] built for an active OBJECT. The guard of the
    program has found ISACTUAL and ISACTIVE equal to ['1'], so that
    [int(attr.get('ISACTUAL', 1))] and [int(attr.get('ISACTIVE', 1))]
    are 1. *)
Record base_data := BaseData {
  bd_id : option string;
  bd_objectid : option string;
  bd_objectguid : option string;
  bd_name : string;
  bd_typename : string;
  bd_level : string;
  bd_isactual : Z;
  bd_isactive : Z;
  bd_updatedate : option string
}.

Definition base_data_of (attr : gmap string string) : base_data :=
  BaseData (attr !! "ID") (attr !! "OBJECTID") (attr !! "OBJECTGUID")
           (default "" (attr !! "NAME")) (default "" (attr !! "TYPENAME"))
           (default "" (attr !! "LEVEL")) 1 1 (attr !! "UPDATEDATE").

(** The state of the loop over one file: the store and the three batches. *)
Record staging := Staging {
  store : db;
  municipalities_batch : list base_data;
  settlements_batch : list base_data;
  streets_batch : list base_data
}.

Definition batch_size : Z := 5000.

(** [len(batch) >= batch_size] *)
Definition full (batch : list base_data) : bool :=
  bool_decide (batch_size ≤ Z.of_nat (length batch))%Z.

Section stager.
Variable int8 : string → option Z.

(** The columns of the INSERT statements, from a tuple. *)
Definition base_of (t : base_data) : result base :=
  id ← bigint int8 (bd_id t);
  Returns (Base id (bd_objectguid t) (bd_name t) (bd_typename t) (bd_level t)
                (bd_isactual t) (bd_isactive t) (bd_updatedate t)).

Definition insert_municipalities_batch (d : db) (batch_data : list base_data)
  : result db :=
  t ← insert_batch int8 bd_objectid
        (λ tuple, b ← base_of tuple; Returns (Municipality b None))
        (municipalities d) batch_data;
  Returns (with_municipalities d t).

Definition insert_settlements_batch (d : db) (batch_data : list base_data)
  : result db :=
  t ← insert_batch int8 bd_objectid
        (λ tuple, b ← base_of tuple; Returns (Settlement b None))
        (settlements d) batch_data;
  Returns (with_settlements d t).

Definition insert_streets_batch (d : db) (batch_data : list base_data)
  : result db :=
  t ← insert_batch int8 bd_objectid
        (λ tuple, b ← base_of tuple; Returns (Street b None None))
        (streets d) batch_data;
  Returns (with_streets d t).

(** The routing of an active OBJECT by its level. *)
Definition route (st : staging) (attr : gmap string string) : staging :=
  let level := default "" (attr !! "LEVEL") in
  let base_data := base_data_of attr in
  if decide (level ∈ ["3"; "4"]) then
    Staging (store st) (municipalities_batch st ++ [base_data])
            (settlements_batch st) (streets_batch st)
  else if decide (level ∈ ["5"; "6"]) then
    Staging (store st) (municipalities_batch st)
            (settlements_batch st ++ [base_data]) (streets_batch st)
  else if decide (level ∈ ["7"; "8"]) then
    Staging (store st) (municipalities_batch st)
            (settlements_batch st) (streets_batch st ++ [base_data])
  else st.

(** The three [if len(batch) >= batch_size] blocks. *)
Definition flush_full (st : staging) : result staging :=
  st ← (if full (municipalities_batch st) then
          d ← insert_municipalities_batch (store st) (municipalities_batch st);
          Returns (Staging d [] (settlements_batch st) (streets_batch st))
        else Returns st);
  st ← (if full (settlements_batch st) then
          d ← insert_settlements_batch (store st) (settlements_batch st);
          Returns (Staging d (municipalities_batch st) [] (streets_batch st))
        else Returns st);
  if full (streets_batch st) then
    d ← insert_streets_batch (store st) (streets_batch st);
    Returns (Staging d (municipalities_batch st) (settlements_batch st) [])
  else Returns st.

(** Body of the loop over the elements of one file. *)
Definition object_elem (st : staging) (elem : element) : result staging :=
  if decide (tag elem = "OBJECT") then
    let attr := attrib elem in
    let st :=
      if decide (attr !! "ISACTUAL" = Some "1" ∧ attr !! "ISACTIVE" = Some "1")
      then route st attr else st in
    flush_full st
  else Returns st.

(** The [if batch:] blocks after the loop ("the remainders"). *)
Definition flush_rest (st : staging) : result db :=
  d ← (match municipalities_batch st with
       | [] => Returns (store st)
       | _ => insert_municipalities_batch (store st) (municipalities_batch st)
       end);
  d ← (match settlements_batch st with
       | [] => Returns d
       | _ => insert_settlements_batch d (settlements_batch st)
       end);
  match streets_batch st with
  | [] => Returns d
  | _ => insert_streets_batch d (streets_batch st)
  end.

Definition process_file (d : db) (file : xmlfile) : result db :=
  st ← for_each object_elem (Staging d [] [] []) (file_events file);
  flush_rest st.

Definition process_addr_objects (files : list xmlfile) (d : db) : result db :=
  match files with
  | [] => Returns d
  | _ => for_each process_file d files
  end.


(** *** Where the staged rows come from *)

Lemma insert_batch_rows {T R : Type} (objectid_of : T → option string)
    (row : T → result R) (t t' : gmap Z R) (batch_data : list T) :
  insert_batch int8 objectid_of row t batch_data = Returns t' →
  ∀ k r, t' !! k = Some r →
    t !! k = Some r ∨
    ∃ tuple, tuple ∈ batch_data ∧
             bigint int8 (objectid_of tuple) = Returns k ∧ row tuple = Returns r.
Proof.
  unfold insert_batch. revert t.
  induction batch_data as [|x l IH]; intros t; simpl.
  - intros [= <-]. auto.
  - destruct (bigint int8 (objectid_of x)) as [k0| |] eqn:Hk0; simpl; [|done..].
    destruct (row x) as [r0| |] eqn:Hr0; simpl; [|done..].
    destruct (t !! k0) as [old0|] eqn:Ht0; simpl; intros Hrest k r Hkr;
      (destruct (IH _ Hrest k r Hkr) as [Hold|(tuple & Hin & Hk & Hr)];
       [|right; exists tuple; split; [by apply list_elem_of_further|done]]).
    + by left.
    + destruct (decide (k0 = k)) as [->|Hne].
      * rewrite lookup_insert_eq in Hold. injection Hold as <-.
        right. exists x. split; [apply list_elem_of_here|done].
      * rewrite lookup_insert_ne in Hold by done. by left.
Qed.

Section provenance.
(** The elements of the files being processed, and the store before. *)
Variable evs : list element.
Variable d0 : db.

(** The row of key [objectid] and common columns [b] was built from an
    active OBJECT of the files. *)
Definition from_active_object (objectid : Z) (b : base) : Prop :=
  ∃ elem, elem ∈ evs ∧ active_object elem ∧
          bigint int8 (attrib elem !! "OBJECTID") = Returns objectid ∧
          base_of (base_data_of (attrib elem)) = Returns b.

(** Every row of the table is a row of the table before, or a fresh row
    [mk b] built from an active OBJECT. *)
Definition table_from_active {R : Type} (mk : base → R) (old new : gmap Z R)
  : Prop :=
  ∀ k r, new !! k = Some r →
    old !! k = Some r ∨ ∃ b, from_active_object k b ∧ r = mk b.

Definition store_from_active (d : db) : Prop :=
  table_from_active (λ b, Municipality b None) (municipalities d0) (municipalities d) ∧
  table_from_active (λ b, Settlement b None) (settlements d0) (settlements d) ∧
  table_from_active (λ b, Street b None None) (streets d0) (streets d).

Definition batch_from_active (batch : list base_data) : Prop :=
  ∀ t, t ∈ batch →
    ∃ elem, elem ∈ evs ∧ active_object elem ∧ t = base_data_of (attrib elem).

Definition staging_from_active (st : staging) : Prop :=
  store_from_active (store st) ∧
  batch_from_active (municipalities_batch st) ∧
  batch_from_active (settlements_batch st) ∧
  batch_from_active (streets_batch st).

Lemma insert_from_active {R : Type} (mk : base → R) old t t' batch_data :
  table_from_active mk old t →
  batch_from_active batch_data →
  insert_batch int8 bd_objectid (λ tuple, b ← base_of tuple; Returns (mk b))
    t batch_data = Returns t' →
  table_from_active mk old t'.
Proof.
  intros Ht Hb Hins k r Hkr.
  destruct (insert_batch_rows _ _ _ _ _ Hins k r Hkr)
    as [Hold|(tuple & Hin & Hk & Hr)]; [by apply Ht|].
  right. destruct (Hb tuple Hin) as (elem & Helem & Hact & ->).
  destruct (base_of (base_data_of (attrib elem))) as [b| |] eqn:Hbase;
    simpl in Hr; [|done..].
  injection Hr as <-. exists b. split; [|done]. by exists elem.
Qed.

Lemma insert_municipalities_from_active d d' batch_data :
  store_from_active d → batch_from_active batch_data →
  insert_municipalities_batch d batch_data = Returns d' →
  store_from_active d'.
Proof.
  intros (Hm & Hs & Hst) Hb. unfold insert_municipalities_batch.
  destruct (insert_batch _ _ _ _ _) as [t| |] eqn:Hins; simpl; [|done..].
  intros [= <-]. split; [|done]. simpl.
  by apply (insert_from_active _ _ _ _ _ Hm Hb Hins).
Qed.

Lemma insert_settlements_from_active d d' batch_data :
  store_from_active d → batch_from_active batch_data →
  insert_settlements_batch d batch_data = Returns d' →
  store_from_active d'.
Proof.
  intros (Hm & Hs & Hst) Hb. unfold insert_settlements_batch.
  destruct (insert_batch _ _ _ _ _) as [t| |] eqn:Hins; simpl; [|done..].
  intros [= <-]. split; [done|]. split; [|done]. simpl.
  by apply (insert_from_active _ _ _ _ _ Hs Hb Hins).
Qed.

Lemma insert_streets_from_active d d' batch_data :
  store_from_active d → batch_from_active batch_data →
  insert_streets_batch d batch_data = Returns d' →
  store_from_active d'.
Proof.
  intros (Hm & Hs & Hst) Hb. unfold insert_streets_batch.
  destruct (insert_batch _ _ _ _ _) as [t| |] eqn:Hins; simpl; [|done..].
  intros [= <-]. split; [done|]. split; [done|]. simpl.
  by apply (insert_from_active _ _ _ _ _ Hst Hb Hins).
Qed.

Lemma batch_from_active_nil : batch_from_active [].
Proof. intros t Ht. by apply elem_of_nil in Ht. Qed.

Lemma batch_from_active_snoc batch elem :
  batch_from_active batch → elem ∈ evs → active_object elem →
  batch_from_active (batch ++ [base_data_of (attrib elem)]).
Proof.
  intros Hb Hin Hact t [Ht|Ht]%elem_of_app; [by apply Hb|].
  apply list_elem_of_singleton in Ht as ->. by exists elem.
Qed.

Lemma route_from_active st elem :
  staging_from_active st → elem ∈ evs → active_object elem →
  staging_from_active (route st (attrib elem)).
Proof.
  intros (Hd & Hm & Hs & Hst) Hin Hact. unfold route.
  repeat case_decide; repeat split; simpl;
    try done; try apply Hd; by apply batch_from_active_snoc.
Qed.

Lemma flush_full_from_active st st' :
  staging_from_active st → flush_full st = Returns st' →
  staging_from_active st'.
Proof.
  intros (Hd & Hm & Hs & Hst). unfold flush_full.
  assert (∃ st1,
    (if full (municipalities_batch st)
     then d ← insert_municipalities_batch (store st) (municipalities_batch st);
          Returns (Staging d [] (settlements_batch st) (streets_batch st))
     else Returns st) = st1) as [r1 Hr1] by eauto.
  rewrite Hr1. destruct r1 as [st1| |]; simpl; [|done..].
  assert (staging_from_active st1) as (Hd1 & Hm1 & Hs1 & Hst1).
  { destruct (full (municipalities_batch st)); [|by injection Hr1 as <-].
    destruct (insert_municipalities_batch _ _) as [d| |] eqn:Hins;
      simpl in Hr1; [|done..].
    injection Hr1 as <-. repeat split; simpl; try done;
      try apply batch_from_active_nil;
      by apply (insert_municipalities_from_active _ _ _ Hd Hm Hins). }
  clear Hr1 Hd Hm Hs Hst.
  assert (∃ st2,
    (if full (settlements_batch st1)
     then d ← insert_settlements_batch (store st1) (settlements_batch st1);
          Returns (Staging d (municipalities_batch st1) [] (streets_batch st1))
     else Returns st1) = st2) as [r2 Hr2] by eauto.
  rewrite Hr2. destruct r2 as [st2| |]; simpl; [|done..].
  assert (staging_from_active st2) as (Hd2 & Hm2 & Hs2 & Hst2).
  { destruct (full (settlements_batch st1)); [|by injection Hr2 as <-].
    destruct (insert_settlements_batch _ _) as [d| |] eqn:Hins;
      simpl in Hr2; [|done..].
    injection Hr2 as <-. repeat split; simpl; try done;
      try apply batch_from_active_nil;
      by apply (insert_settlements_from_active _ _ _ Hd1 Hs1 Hins). }
  clear Hr2.
  destruct (full (streets_batch st2)); [|by intros [= <-]].
  destruct (insert_streets_batch _ _) as [d| |] eqn:Hins; simpl; [|done..].
  intros [= <-]. repeat split; simpl; try done;
    try apply batch_from_active_nil;
    by apply (insert_streets_from_active _ _ _ Hd2 Hst2 Hins).
Qed.

Lemma object_elem_from_active st st' elem :
  staging_from_active st → elem ∈ evs →
  object_elem st elem = Returns st' → staging_from_active st'.
Proof.
  intros Hst Hin. unfold object_elem.
  case_decide as Htag; [|by intros [= <-]].
  case_decide as Hflags.
  - apply flush_full_from_active, route_from_active; [done..|].
    by destruct Hflags.
  - by apply flush_full_from_active.
Qed.

Lemma flush_rest_from_active st d' :
  staging_from_active st → flush_rest st = Returns d' → store_from_active d'.
Proof.
  intros (Hd & Hm & Hs & Hst). unfold flush_rest.
  assert (∃ r1,
    match municipalities_batch st with
    | [] => Returns (store st)
    | _ :: _ => insert_municipalities_batch (store st) (municipalities_batch st)
    end = r1) as [r1 Hr1] by eauto.
  rewrite Hr1. destruct r1 as [d1| |]; simpl; [|done..].
  assert (store_from_active d1) as Hd1.
  { destruct (municipalities_batch st) eqn:Hmb; [by injection Hr1 as <-|].
    by apply (insert_municipalities_from_active _ _ _ Hd Hm Hr1). }
  assert (∃ r2,
    match settlements_batch st with
    | [] => Returns d1
    | _ :: _ => insert_settlements_batch d1 (settlements_batch st)
    end = r2) as [r2 Hr2] by eauto.
  rewrite Hr2. destruct r2 as [d2| |]; simpl; [|done..].
  assert (store_from_active d2) as Hd2.
  { destruct (settlements_batch st) eqn:Hsb; [by injection Hr2 as <-|].
    by apply (insert_settlements_from_active _ _ _ Hd1 Hs Hr2). }
  destruct (streets_batch st) eqn:Hstb; [by intros [= <-]|].
  intros Hins. by apply (insert_streets_from_active _ _ _ Hd2 Hst Hins).
Qed.

Lemma process_file_from_active d d' file :
  store_from_active d → (∀ elem, elem ∈ file_events file → elem ∈ evs) →
  process_file d file = Returns d' → store_from_active d'.
Proof.
  intros Hd Hsub. unfold process_file.
  destruct (for_each _ _ _) as [st| |] eqn:Hloop; simpl; [|done..].
  apply flush_rest_from_active.
  assert (staging_from_active (Staging d [] [] [])) as Hinit.
  { split; [done|]. by repeat split; apply batch_from_active_nil. }
  eapply (for_each_invariant staging_from_active); [exact Hinit| |exact Hloop].
  intros s x s' Hx Hs. apply (object_elem_from_active s s' x Hs). by apply Hsub.
Qed.

End provenance.

Lemma store_from_active_refl evs d : store_from_active evs d d.
Proof. repeat split; intros k r Hkr; by left. Qed.

Lemma process_addr_objects_from_active files d d' :
  process_addr_objects files d = Returns d' →
  store_from_active (events_of files) d d'.
Proof.
  unfold process_addr_objects. destruct files as [|f0 fs] eqn:Hfiles.
  { intros [= <-]. apply store_from_active_refl. }
  rewrite <- Hfiles. clear Hfiles f0 fs. intros Hloop.
  eapply (for_each_invariant (store_from_active (events_of files) d));
    [apply store_from_active_refl| |exact Hloop].
  intros s f s' Hf Hs. apply (process_file_from_active _ _ s s' f Hs).
  intros elem Helem. apply elem_of_events_of. by exists f.
Qed.

End stager.

Lemma flush_full_idle int8 st :
  full (municipalities_batch st) = false →
  full (settlements_batch st) = false →
  full (streets_batch st) = false →
  flush_full int8 st = Returns st.
Proof.
  intros H1 H2 H3. unfold flush_full.
  rewrite H1. simpl. rewrite H2. simpl. by rewrite H3.
Qed.

(** What an ITEM must carry for [active_edge] to give an edge: ISACTIVE,
    and no test of ISACTUAL. *)
Lemma active_edge_item elem c p :
  active_edge elem = Some (c, p) →
  tag elem = "ITEM" ∧ attrib elem !! "ISACTIVE" = Some "1" ∧
  attrib elem !! "OBJECTID" = Some c ∧ attrib elem !! "PARENTOBJID" = Some p.
Proof.
  unfold active_edge. case_decide as Htag; [|done].
  case_decide as Hactive; [|done].
  destruct (attrib elem !! "OBJECTID") as [c0|]; [|done].
  destruct (attrib elem !! "PARENTOBJID") as [p0|]; [|done].
  case_decide; [|done]. by intros [= <- <-].
Qed.

(** An edge 200 -> 100 whose ITEM says ISACTUAL = 0 and ISACTIVE = 1. *)
Definition item_not_actual : list xmlfile :=
  [XmlFile "AS_MUN_HIERARCHY_1.XML"
     [Scenario.elem "ITEM"
        [("OBJECTID", "200"); ("PARENTOBJID", "100");
         ("ISACTUAL", "0"); ("ISACTIVE", "1")];
      Scenario.elem "ITEMS" []]].

(** C6, as stated, fails for the parent map: the scans of the two
    hierarchies test ISACTIVE and never ISACTUAL, so that the edge of an
    ITEM with ISACTUAL = 0 enters the index, from a municipal file and from
    an administrative one. *)
Lemma item_that_is_not_actual_enters :
  hierarchy_map (load_hierarchy_and_levels [] item_not_actual []) !! "200"
  = Some "100" ∧
  hierarchy_map (load_hierarchy_and_levels [] [] item_not_actual) !! "200"
  = Some "100".
Proof. split; vm_compute; reflexivity. Qed.

(** C6 (amended). Every entry of the level map comes from an OBJECT with
    ISACTUAL = 1 and ISACTIVE = 1; every row that [process_addr_objects]
    adds to municipalities, settlements or streets is built from an OBJECT
    with both flags equal to 1; every entry of the parent map comes from an
    ITEM with ISACTIVE = 1, whatever its ISACTUAL; a record that fails the
    checks of its kind changes nothing and raises nothing. *)
Theorem only_active_records_enter int8 addr_files mun_files adm_files :
  (∀ k l,
     level_map (load_hierarchy_and_levels addr_files mun_files adm_files) !! k
       = Some l →
     ∃ elem, elem ∈ events_of addr_files ∧ active_object elem ∧
             attrib elem !! "OBJECTID" = Some k ∧
             attrib elem !! "LEVEL" = Some l) ∧
  (∀ c p,
     hierarchy_map (load_hierarchy_and_levels addr_files mun_files adm_files) !! c
       = Some p →
     ∃ elem, elem ∈ events_of mun_files ++ events_of adm_files ∧
             tag elem = "ITEM" ∧ attrib elem !! "ISACTIVE" = Some "1" ∧
             attrib elem !! "OBJECTID" = Some c ∧
             attrib elem !! "PARENTOBJID" = Some p) ∧
  (∀ d d',
     process_addr_objects int8 addr_files d = Returns d' →
     store_from_active int8 (events_of addr_files) d d') ∧
  (∀ elem, ¬ active_object elem →
     (∀ lm, level_elem lm elem = lm) ∧
     (∀ st, full (municipalities_batch st) = false →
            full (settlements_batch st) = false →
            full (streets_batch st) = false →
            object_elem int8 st elem = Returns st)) ∧
  (∀ elem, ¬ (tag elem = "ITEM" ∧ attrib elem !! "ISACTIVE" = Some "1") →
     ∀ hm, mun_elem hm elem = hm ∧ adm_elem hm elem = hm).
Proof.
  split; [apply level_map_from_active|].
  split.
  { intros c p (elem & Hin & He)%hierarchy_map_from_active.
    exists elem. split; [done|]. by apply active_edge_item. }
  split; [apply process_addr_objects_from_active|].
  split.
  - intros elem Hn. split; [intros lm; by apply level_elem_inactive|].
    intros st Hm Hs Hst. unfold object_elem.
    case_decide as Htag; [|done].
    rewrite decide_False; [by apply flush_full_idle|].
    intros [Hactual Hactive]. by apply Hn.
  - intros elem Hn hm.
    assert (active_edge elem = None) as He.
    { destruct (active_edge elem) as [[c p]|] eqn:He; [|done].
      exfalso. apply Hn. by apply active_edge_item in He as (? & ? & _). }
    by rewrite mun_elem_edge, adm_elem_edge, He.
Qed.

(** The address objects of Scenario 1 are staged, each in its table. *)
Example scenario_objects_staged :
  match process_addr_objects Py.dec_int Scenario.addr_obj create_schema with
  | Returns d =>
      objectids (municipalities d) = [100%Z] ∧
      objectids (settlements d) = [200%Z] ∧
      objectids (streets d) = [300%Z] ∧
      name ∘ m_base <$> municipalities d !! 100%Z = Some "Beryozovsky"
  | _ => False
  end.
Proof. vm_compute. repeat split. Qed.

End Stager.

(** ** Parent links of the address objects: [build_hierarchy_links_fixed] *)

Module Links.

Import Index Store Resolver.

Definition set_parent_id (parent_id : option Z) (r : municipality) : municipality :=
  Municipality (m_base r) parent_id.

Definition set_s_municipality_id (mo_id : option Z) (r : settlement) : settlement :=
  Settlement (s_base r) mo_id.

Definition set_st_settlement_id (settlement_id : option Z) (r : street) : street :=
  Street (st_base r) settlement_id (st_municipality_id r).

(** The row of a street after
    [UPDATE streets SET municipality_id = s.municipality_id FROM settlements s
     WHERE streets.settlement_id = s.objectid AND s.municipality_id IS NOT NULL]. *)
Definition street_via_settlement (settlements : gmap Z settlement) (r : street)
  : street :=
  match st_settlement_id r with
  | Some settlement_id =>
      match settlements !! settlement_id with
      | Some s =>
          match s_municipality_id s with
          | Some mo_id => Street (st_base r) (st_settlement_id r) (Some mo_id)
          | None => r
          end
      | None => r
      end
  | None => r
  end.

Section links.
Variable int : string → option Z.
Variable idx : index.

(** Step 1, body of the loop over the municipalities. *)
Definition link_municipality (d : db) (mun_id : Z) : result db :=
  parent_id ← find_mo_parent int idx mun_id;
  if Py.truthy_int parent_id && bool_decide (parent_id ≠ Some mun_id) then
    Returns (with_municipalities d
               (alter (set_parent_id parent_id) mun_id (municipalities d)))
  else Returns d.

(** Step 2, body of the loop over the settlements. *)
Definition link_settlement (d : db) (settlement_id : Z) : result db :=
  mo_id ← find_mo_parent int idx settlement_id;
  if Py.truthy_int mo_id then
    Returns (with_settlements d
               (alter (set_s_municipality_id mo_id) settlement_id (settlements d)))
  else Returns d.

(** Step 3, body of the loop over the streets. *)
Definition link_street (d : db) (street_id : Z) : result db :=
  settlement_id ← find_parent_by_level int idx street_id ["5"; "6"];
  if Py.truthy_int settlement_id then
    Returns (with_streets d
               (alter (set_st_settlement_id settlement_id) street_id (streets d)))
  else Returns d.

Definition build_hierarchy_links_fixed (d : db) : result db :=
  d ← for_each link_municipality d (objectids (municipalities d));
  d ← for_each link_settlement d (objectids (settlements d));
  d ← for_each link_street d (objectids (streets d));
  Returns (with_streets d (street_via_settlement (settlements d) <$> streets d)).

(** *** The municipalities keep their parent *)



Lemma link_settlement_municipalities d d' settlement_id :
  link_settlement d settlement_id = Returns d' →
  municipalities d' = municipalities d.
Proof.
  unfold link_settlement.
  destruct (find_mo_parent int idx settlement_id) as [mo_id| |]; simpl; [|done..].
  destruct (Py.truthy_int mo_id); by intros [= <-].
Qed.

Lemma link_street_municipalities d d' street_id :
  link_street d street_id = Returns d' →
  municipalities d' = municipalities d.
Proof.
  unfold link_street.
  destruct (find_parent_by_level int idx street_id ["5"; "6"]) as [sid| |];
    simpl; [|done..].
  destruct (Py.truthy_int sid); by intros [= <-].
Qed.

End links.





(** The store of Scenario 1 after [process_addr_objects]. *)
Definition scenario_store : db :=
  match Stager.process_addr_objects Py.dec_int Scenario.addr_obj create_schema with
  | Returns d => d
  | _ => create_schema
  end.


End Links.

(** ** Houses: [process_houses], [link_houses_to_hierarchy_fixed],
       [fix_municipality_links], [fix_final_mo_connections] *)

Module Houses.

Import Index Store Resolver.

(** The tuple staged for an active HOUSE. *)
Record house_data := HouseData {
  hd_id : option string;
  hd_objectid : option string;
  hd_objectguid : option string;
  hd_housenum : option string;
  hd_addnum1 : option string;
  hd_addnum2 : option string;
  hd_isactual : Z;
  hd_isactive : Z;
  hd_updatedate : option string
}.

Definition house_data_of (attr : gmap string string) : house_data :=
  HouseData (attr !! "ID") (attr !! "OBJECTID") (attr !! "OBJECTGUID")
            (attr !! "HOUSENUM") (attr !! "ADDNUM1") (attr !! "ADDNUM2")
            1 1 (attr !! "UPDATEDATE").

Definition batch_size : Z := 5000.
Definition update_batch_size : Z := 1000.

(** [len(batch) >= n] *)
Definition reached {A : Type} (n : Z) (batch : list A) : bool :=
  bool_decide (n ≤ Z.of_nat (length batch))%Z.

Definition set_links (street_id settlement_id mo_id : option Z) (h : house)
  : house :=
  House (h_id h) (h_objectguid h) (h_house_number h) (h_building_number h)
        (h_structure_number h) street_id settlement_id mo_id
        (h_cadastral_number h) (h_floors_count h) (h_residents_count h)
        (h_full_address h) (h_isactual h) (h_isactive h) (h_updatedate h).

Definition set_h_municipality_id (mo_id : option Z) (h : house) : house :=
  set_links (h_street_id h) (h_settlement_id h) mo_id h.

(** [execute_house_updates_batch]: one
    [UPDATE houses SET street_id, settlement_id, municipality_id WHERE objectid]
    per tuple. *)
Definition execute_house_updates_batch (d : db)
    (batch_updates : list (option Z * option Z * option Z * Z)) : db :=
  with_houses d
    (foldl (λ t '(street_id, settlement_id, mo_id, house_id),
              alter (set_links street_id settlement_id mo_id) house_id t)
           (houses d) batch_updates).

(** [executemany("UPDATE houses SET municipality_id = %s WHERE objectid = %s")] *)
Definition execute_mo_updates_batch (d : db) (batch_updates : list (Z * Z)) : db :=
  with_houses d
    (foldl (λ t '(mo_id, house_id),
              alter (set_h_municipality_id (Some mo_id)) house_id t)
           (houses d) batch_updates).

(** The row of a house after
    [UPDATE houses h SET municipality_id = s.municipality_id FROM settlements s
     WHERE h.settlement_id = s.objectid AND s.municipality_id IS NOT NULL
     AND h.municipality_id IS NULL]. *)
Definition house_via_settlement (settlements : gmap Z settlement) (h : house)
  : house :=
  match h_municipality_id h, h_settlement_id h with
  | None, Some settlement_id =>
      match settlements !! settlement_id with
      | Some s =>
          match s_municipality_id s with
          | Some mo_id => set_h_municipality_id (Some mo_id) h
          | None => h
          end
      | None => h
      end
  | _, _ => h
  end.

(** The row of a house after
    [UPDATE houses h SET municipality_id = st.municipality_id FROM streets st
     WHERE h.street_id = st.objectid AND st.municipality_id IS NOT NULL
     AND h.municipality_id IS NULL]. *)
Definition house_via_street (streets : gmap Z street) (h : house) : house :=
  match h_municipality_id h, h_street_id h with
  | None, Some street_id =>
      match streets !! street_id with
      | Some st =>
          match st_municipality_id st with
          | Some mo_id => set_h_municipality_id (Some mo_id) h
          | None => h
          end
      | None => h
      end
  | _, _ => h
  end.

Definition plot_via_settlement (settlements : gmap Z settlement) (lp : land_plot)
  : land_plot :=
  match lp_municipality_id lp, lp_settlement_id lp with
  | None, Some settlement_id =>
      match settlements !! settlement_id with
      | Some s =>
          match s_municipality_id s with
          | Some mo_id =>
              LandPlot (lp_id lp) (lp_objectguid lp) (lp_number_plot lp)
                       (lp_settlement_id lp) (Some mo_id)
                       (lp_isactual lp) (lp_isactive lp) (lp_updatedate lp)
          | None => lp
          end
      | None => lp
      end
  | _, _ => lp
  end.

(** [fix_municipality_links]: houses, then land plots, through their
    settlement. *)
Definition fix_municipality_links (d : db) : db :=
  let d := with_houses d (house_via_settlement (settlements d) <$> houses d) in
  with_land_plots d (plot_via_settlement (settlements d) <$> land_plots d).

Section houses.
Variable int : string → option Z.
Variable int8 : string → option Z.
Variable upper : string → string.
Variable idx : index.

Definition house_row (t : house_data) : result house :=
  id ← bigint int8 (hd_id t);
  Returns (House id (hd_objectguid t) (hd_housenum t) (hd_addnum1 t)
                 (hd_addnum2 t) None None None None None None None
                 (hd_isactual t) (hd_isactive t) (hd_updatedate t)).

Definition insert_houses_batch (d : db) (batch_data : list house_data)
  : result db :=
  t ← insert_batch int8 hd_objectid house_row (houses d) batch_data;
  Returns (with_houses d t).

(** Body of the loop over the elements of one AS_HOUSES file; the state
    is the store and [batch_data]. *)
Definition house_elem (st : db * list house_data) (elem : element)
  : result (db * list house_data) :=
  let '(d, batch_data) := st in
  if decide (tag elem = "HOUSE") then
    let attr := attrib elem in
    let batch_data :=
      if decide (attr !! "ISACTUAL" = Some "1" ∧ attr !! "ISACTIVE" = Some "1")
      then batch_data ++ [house_data_of attr] else batch_data in
    if reached batch_size batch_data then
      d ← insert_houses_batch d batch_data; Returns (d, [])
    else Returns (d, batch_data)
  else Returns st.

Definition process_houses_file (d : db) (file : xmlfile) : result db :=
  st ← for_each house_elem (d, []) (file_events file);
  match st.2 with
  | [] => Returns st.1
  | _ => insert_houses_batch st.1 st.2
  end.

Definition process_houses (files : list xmlfile) (d : db) : result db :=
  match files with
  | [] => Returns d
  | _ =>
      let files :=
        filter (λ f, Py.contains "PARAM" (upper (file_path f)) = false) files in
      match files with
      | [] => Returns d
      | _ => for_each process_houses_file d files
      end
  end.

(** Body of the loop of [link_houses_to_hierarchy_fixed]; the state is the
    store and [batch_updates]. *)
Definition link_house (st : db * list (option Z * option Z * option Z * Z))
    (house_id : Z) : result (db * list (option Z * option Z * option Z * Z)) :=
  let '(d, batch_updates) := st in
  street_id ← find_parent_by_level int idx house_id ["7"; "8"];
  settlement_id ← find_parent_by_level int idx house_id ["5"; "6"];
  mo_id ← find_mo_parent int idx house_id;
  let batch_updates :=
    if Py.truthy_int street_id || Py.truthy_int settlement_id || Py.truthy_int mo_id
    then batch_updates ++ [(street_id, settlement_id, mo_id, house_id)]
    else batch_updates in
  if reached update_batch_size batch_updates then
    Returns (execute_house_updates_batch d batch_updates, [])
  else Returns (d, batch_updates).

(** [diagnose_house_connections_fixed] only prints, but it divides by the
    number of houses. *)
Definition diagnose_house_connections_fixed (d : db) : result db :=
  if decide (size (houses d) = 0) then Raises ZeroDivisionError else Returns d.

Definition link_houses_to_hierarchy_fixed (d : db) : result db :=
  st ← for_each link_house (d, []) (objectids (houses d));
  let d := match st.2 with
           | [] => st.1
           | _ => execute_house_updates_batch st.1 st.2
           end in
  diagnose_house_connections_fixed d.

(** Body of the loop of step 3 of [fix_final_mo_connections]. *)
Definition lookup_remaining (st : db * list (Z * Z)) (house_id : Z)
  : result (db * list (Z * Z)) :=
  let '(d, batch_updates) := st in
  mo_id ← find_parent_by_level int idx house_id ["3"; "4"];
  let batch_updates :=
    match mo_id with
    | Some m => if Py.truthy_int mo_id then batch_updates ++ [(m, house_id)]
                else batch_updates
    | None => batch_updates
    end in
  if reached update_batch_size batch_updates then
    Returns (execute_mo_updates_batch d batch_updates, [])
  else Returns (d, batch_updates).

(** [SELECT h.objectid FROM houses h WHERE h.municipality_id IS NULL
     LIMIT 50000] *)
Definition remaining_houses (d : db) : list Z :=
  take (Z.to_nat 50000)
       (objectids (filter (λ kh, h_municipality_id kh.2 = None) (houses d))).

Definition fix_final_mo_connections (d : db) : result db :=
  let d := with_houses d (house_via_street (streets d) <$> houses d) in
  st ← for_each lookup_remaining (d, []) (remaining_houses d);
  match st.2 with
  | [] => Returns st.1
  | _ => Returns (execute_mo_updates_batch st.1 st.2)
  end.

(** *** The through-street fill *)

Lemma execute_mo_updates_other d batch_updates k :
  (∀ mo_id house_id, (mo_id, house_id) ∈ batch_updates → house_id ≠ k) →
  houses (execute_mo_updates_batch d batch_updates) !! k = houses d !! k.
Proof.
  unfold execute_mo_updates_batch. simpl. generalize (houses d).
  induction batch_updates as [|[m hid] l IH]; intros t Hne; simpl; [done|].
  rewrite IH.
  - apply lookup_alter_ne. apply (Hne m). apply list_elem_of_here.
  - intros m' hid' Hin. apply (Hne m'). by apply list_elem_of_further.
Qed.

(** The row of house [k] is [row], and no pending update is for [k]. *)
Definition untouched (k : Z) (row : option house) (st : db * list (Z * Z))
  : Prop :=
  houses st.1 !! k = row ∧ ∀ mo_id house_id, (mo_id, house_id) ∈ st.2 → house_id ≠ k.

Lemma lookup_remaining_untouched st st' house_id k row :
  house_id ≠ k → untouched k row st →
  lookup_remaining st house_id = Returns st' → untouched k row st'.
Proof.
  intros Hne [Hrow Hpending]. destruct st as [d batch_updates].
  unfold lookup_remaining.
  destruct (find_parent_by_level int idx house_id ["3"; "4"]) as [mo_id| |];
    simpl; [|done..].
  set (batch := match mo_id with
                | Some m => if Py.truthy_int mo_id
                            then batch_updates ++ [(m, house_id)]
                            else batch_updates
                | None => batch_updates
                end).
  assert (∀ m hid, (m, hid) ∈ batch → hid ≠ k) as Hbatch.
  { intros m hid. unfold batch. destruct mo_id as [m0|]; [|apply Hpending].
    destruct (Py.truthy_int (Some m0)); [|apply Hpending].
    intros [Hin|Hin]%elem_of_app; [by apply (Hpending m)|].
    apply list_elem_of_singleton in Hin. by injection Hin as _ ->. }
  destruct (reached update_batch_size batch); intros [= <-]; split;
    cbn [fst snd] in *.
  - by rewrite execute_mo_updates_other.
  - intros m hid Hin. by apply elem_of_nil in Hin.
  - done.
  - done.
Qed.

Lemma remaining_houses_null d k :
  k ∈ remaining_houses d →
  ∃ h, houses d !! k = Some h ∧ h_municipality_id h = None.
Proof.
  unfold remaining_houses. intros Hin. apply subseteq_take in Hin.
  apply elem_of_objectids in Hin as [h Hh].
  apply map_lookup_filter_Some in Hh as [Hh Hnull]. by exists h.
Qed.

End houses.

(** C2 (amended). [fix_final_mo_connections], when it is run and returns,
    leaves on every house whose municipality_id was null and whose
    street_id references a street with a non-null municipality_id the
    municipality_id of that street. ([main] does not call
    [fix_final_mo_connections]; of the repairs it runs
    [fix_municipality_links] only, which goes through the settlement.) *)
Theorem through_street_fill int idx d d' k h street_id st mo_id :
  houses d !! k = Some h →
  h_municipality_id h = None →
  h_street_id h = Some street_id →
  streets d !! street_id = Some st →
  st_municipality_id st = Some mo_id →
  fix_final_mo_connections int idx d = Returns d' →
  houses d' !! k = Some (set_h_municipality_id (Some mo_id) h).
Proof.
  intros Hh Hnull Hstreet Hst Hmo. unfold fix_final_mo_connections.
  set (d1 := with_houses d (house_via_street (streets d) <$> houses d)).
  assert (houses d1 !! k = Some (set_h_municipality_id (Some mo_id) h)) as Hk.
  { unfold d1. simpl. rewrite lookup_fmap, Hh. simpl.
    unfold house_via_street. by rewrite Hnull, Hstreet, Hst, Hmo. }
  destruct (for_each (lookup_remaining int idx) (d1, []) (remaining_houses d1))
    as [st'| |] eqn:Hloop; simpl; [|done..].
  assert (untouched k (Some (set_h_municipality_id (Some mo_id) h)) st')
    as [Hrow Hpending].
  { eapply (for_each_invariant
              (untouched k (Some (set_h_municipality_id (Some mo_id) h))));
      [| |exact Hloop].
    - split; [done|]. intros m hid Hin. by apply elem_of_nil in Hin.
    - intros s x s' Hx Hs. apply lookup_remaining_untouched; [|done].
      intros ->. apply remaining_houses_null in Hx as (h' & Hh' & Hnull').
      rewrite Hk in Hh'. by injection Hh' as <-. }
  destruct st' as [d2 batch]. simpl in *.
  destruct batch as [|u batch]; intros [= <-]; [done|].
  by rewrite execute_mo_updates_other.
Qed.

End Houses.

(** ** The house-parameters joiner: [process_house_params] *)

Module Params.

Import Store.

(** A validated value: the cut string of a cadastral number, or a count. *)
Inductive param_value := PStr (s : string) | PInt (n : Z).

Definition param_mapping : gmap string string :=
  <["8" := "cadastral_number"]>
    (<["14" := "residents_count"]> (<["15" := "floors_count"]> ∅)).

Definition set_cadastral_number (s : string) (h : house) : house :=
  House (h_id h) (h_objectguid h) (h_house_number h) (h_building_number h)
        (h_structure_number h) (h_street_id h) (h_settlement_id h)
        (h_municipality_id h) (Some s) (h_floors_count h) (h_residents_count h)
        (h_full_address h) (h_isactual h) (h_isactive h) (h_updatedate h).

Definition set_residents_count (n : Z) (h : house) : house :=
  House (h_id h) (h_objectguid h) (h_house_number h) (h_building_number h)
        (h_structure_number h) (h_street_id h) (h_settlement_id h)
        (h_municipality_id h) (h_cadastral_number h) (h_floors_count h) (Some n)
        (h_full_address h) (h_isactual h) (h_isactive h) (h_updatedate h).

Definition set_floors_count (n : Z) (h : house) : house :=
  House (h_id h) (h_objectguid h) (h_house_number h) (h_building_number h)
        (h_structure_number h) (h_street_id h) (h_settlement_id h)
        (h_municipality_id h) (h_cadastral_number h) (Some n) (h_residents_count h)
        (h_full_address h) (h_isactual h) (h_isactive h) (h_updatedate h).

(** [UPDATE houses SET {field_name} = %s]: the row with the column
    [field_name] set, or [None] when the server rejects the statement. *)
Definition set_column (field_name : string) (v : param_value) (h : house)
  : option house :=
  match v with
  | PStr s =>
      if decide (field_name = "cadastral_number")
      then Some (set_cadastral_number s h) else None
  | PInt n =>
      if decide (field_name = "residents_count")
      then Some (set_residents_count n h)
      else if decide (field_name = "floors_count")
      then Some (set_floors_count n h) else None
  end.

(** The state of the loop. The connection is not in autocommit mode:
    [store] holds the rows as the open transaction sees them, [committed]
    the rows at the last [commit()], and [aborted] tells whether a
    statement of the open transaction has failed. [processed] and
    [updated] are the two counters of the program. *)
Record params_state := ParamsState {
  store : db;
  committed : db;
  aborted : bool;
  processed : Z;
  updated : Z
}.

(** [self.connection.commit()]: the changes of the open transaction are
    kept, unless a statement of it has failed: the server then answers
    COMMIT by rolling the transaction back. *)
Definition commit (st : params_state) : params_state :=
  if aborted st
  then ParamsState (committed st) (committed st) false (processed st) (updated st)
  else ParamsState (store st) (store st) false (processed st) (updated st).

(** [if processed % 100000 == 0: self.connection.commit()] *)
Definition checkpoint (st : params_state) : params_state :=
  if decide (processed st `mod` 100000 = 0)%Z then commit st else st.

(** [processed += 1] *)
Definition counted (st : params_state) : params_state :=
  ParamsState (store st) (committed st) (aborted st) (processed st + 1)
              (updated st).

Section params.
(** [s.strip()], and [int(float(s))] ([None] when either call raises). *)
Variable strip : string → string.
Variable int_float : string → option Z.
Variable int8 : string → option Z.

Definition validate_param_value (field_name value : string)
  : option param_value :=
  let clean_value := strip value in
  if decide (clean_value = "") then None
  else if decide (field_name = "cadastral_number") then
    if Py.contains ":" clean_value
    then Some (PStr (Py.slice_to 100 clean_value)) else None
  else if decide (field_name ∈ ["residents_count"; "floors_count"]) then
    match int_float clean_value with
    | Some num => if decide (0 ≤ num ≤ 1000)%Z then Some (PInt num) else None
    | None => None
    end
  else Some (PStr (Py.slice_to 100 clean_value)).

(** The UPDATE of one house in a transaction that is not aborted: the
    table and [cursor.rowcount], or [None] when the server rejects the
    statement (an OBJECTID that is not a BIGINT). *)
Definition update_house (field_name : string) (clean_value : param_value)
    (objectid : string) (t : gmap Z house) : option (gmap Z house * Z) :=
  match int8 objectid with
  | Some k =>
      match t !! k with
      | Some h =>
          match set_column field_name clean_value h with
          | Some h' => Some (<[k := h']> t, 1%Z)
          | None => None
          end
      | None => Some (t, 0%Z)
      end
  | None => None
  end.

(** The [try: execute; updated += rowcount / except: pass] block. In an
    aborted transaction the server refuses every statement; the exception
    of a refused or rejected statement is swallowed, and a rejected
    statement leaves the transaction aborted. *)
Definition try_update (field_name : string) (clean_value : param_value)
    (objectid : string) (st : params_state) : params_state :=
  if aborted st then st
  else
    match update_house field_name clean_value objectid (houses (store st)) with
    | Some (t, rowcount) =>
        ParamsState (with_houses (store st) t) (committed st) false
                    (processed st) (updated st + rowcount)
    | None =>
        ParamsState (store st) (committed st) true (processed st) (updated st)
    end.

(** Body of the loop over the elements of one AS_HOUSES_PARAMS file. *)
Definition param_elem (st : params_state) (elem : element) : params_state :=
  if decide (tag elem = "PARAM") then
    let attr := attrib elem in
    let objectid := attr !! "OBJECTID" in
    let typeid := attr !! "TYPEID" in
    let value := attr !! "VALUE" in
    let st := counted st in
    let field_name := typeid ≫= (param_mapping !!.) in
    let st :=
      match objectid, typeid, value, field_name with
      | Some objectid, Some typeid, Some value, Some field_name =>
          if Py.truthy (Some objectid) && Py.truthy (Some typeid)
             && Py.truthy (Some value) && Py.truthy (Some field_name) then
            match validate_param_value field_name value with
            | Some clean_value => try_update field_name clean_value objectid st
            | None => st
            end
          else st
      | _, _, _, _ => st
      end in
    checkpoint st
  else st.

(** One file: the counters start at 0, the transaction goes on. *)
Definition process_params_file (st : params_state) (file : xmlfile)
  : params_state :=
  foldl param_elem
        (ParamsState (store st) (committed st) (aborted st) 0 0)
        (file_events file).

(** The result is the store after the last [commit()], and
    [total_updated]. The stages before this one have committed their
    changes. *)
Definition process_house_params (files : list xmlfile) (d : db) : db * Z :=
  match files with
  | [] => (d, 0%Z)
  | _ =>
      let '(st, total_updated) :=
        foldl (λ '(st, total_updated) file,
                 let st := process_params_file st file in
                 (st, (total_updated + updated st)%Z))
              (ParamsState d d false 0 0, 0%Z) files in
      (store (commit st), total_updated)
  end.

(** *** What the validation accepts *)

Lemma validate_cadastral_number value pv :
  validate_param_value "cadastral_number" value = Some pv ↔
  strip value ≠ "" ∧ Py.contains ":" (strip value) = true ∧
  pv = PStr (Py.slice_to 100 (strip value)).
Proof.
  unfold validate_param_value. case_decide as Hempty.
  - split; [done|]. by intros [? _].
  - rewrite decide_True by done.
    destruct (Py.contains ":" (strip value)).
    + split; [by intros [= <-]|]. by intros (_ & _ & ->).
    + split; [done|]. by intros (_ & ? & _).
Qed.

Lemma validate_count field_name value pv :
  field_name = "residents_count" ∨ field_name = "floors_count" →
  validate_param_value field_name value = Some pv ↔
  ∃ n, strip value ≠ "" ∧ int_float (strip value) = Some n ∧
       (0 ≤ n ≤ 1000)%Z ∧ pv = PInt n.
Proof.
  intros Hf. unfold validate_param_value. case_decide as Hempty.
  { split; [done|]. by intros (? & ? & _). }
  rewrite decide_False by (by destruct Hf as [-> | ->]).
  rewrite decide_True
    by (destruct Hf as [-> | ->];
        [apply list_elem_of_here|apply list_elem_of_further, list_elem_of_here]).
  destruct (int_float (strip value)) as [num|].
  - case_decide as Hrange.
    + split; [intros [= <-]; by exists num|]. by intros (n & _ & [= <-] & _ & ->).
    + split; [done|]. by intros (n & _ & [= <-] & ? & _).
  - split; [done|]. by intros (n & _ & ? & _).
Qed.

Lemma param_mapping_lookup typeid field_name :
  param_mapping !! typeid = Some field_name ↔
  (typeid = "8" ∧ field_name = "cadastral_number") ∨
  (typeid = "14" ∧ field_name = "residents_count") ∨
  (typeid = "15" ∧ field_name = "floors_count").
Proof.
  unfold param_mapping.
  destruct (decide (typeid = "8")) as [->|H8].
  { rewrite lookup_insert_eq. split; [intros [= <-]; by left|].
    by intros [[_ ->]|[[? _]|[? _]]]. }
  rewrite lookup_insert_ne by done.
  destruct (decide (typeid = "14")) as [->|H14].
  { rewrite lookup_insert_eq. split; [intros [= <-]; right; by left|].
    by intros [[? _]|[[_ ->]|[? _]]]. }
  rewrite lookup_insert_ne by done.
  destruct (decide (typeid = "15")) as [->|H15].
  { rewrite lookup_insert_eq. split; [intros [= <-]; right; by right|].
    by intros [[? _]|[[? _]|[_ ->]]]. }
  rewrite lookup_insert_ne by done. rewrite lookup_empty.
  split; [done|]. by intros [[? _]|[[? _]|[? _]]].
Qed.

(** The rows after an UPDATE that the server accepted. *)
Lemma update_house_rows field_name clean_value objectid t t' rowcount k h' :
  update_house field_name clean_value objectid t = Some (t', rowcount) →
  t' !! k = Some h' →
  ∃ h, t !! k = Some h ∧ (h' = h ∨ set_column field_name clean_value h = Some h').
Proof.
  unfold update_house.
  destruct (int8 objectid) as [k0|]; [|done].
  destruct (t !! k0) as [h0|] eqn:Hk0; [|intros [= <- _] Hk; exists h'; auto].
  destruct (set_column field_name clean_value h0) as [h1|] eqn:Hset; [|done].
  intros [= <- _]. destruct (decide (k0 = k)) as [->|Hne].
  - rewrite lookup_insert_eq. intros [= <-]. exists h0. auto.
  - rewrite lookup_insert_ne by done. intros Hk. exists h'. auto.
Qed.

(** The rows of the open transaction after the [try] block. *)
Lemma try_update_rows field_name clean_value objectid st k h' :
  houses (store (try_update field_name clean_value objectid st)) !! k = Some h' →
  ∃ h, houses (store st) !! k = Some h ∧
       (h' = h ∨ set_column field_name clean_value h = Some h').
Proof.
  unfold try_update. destruct (aborted st); [intros Hk; exists h'; auto|].
  destruct (update_house field_name clean_value objectid (houses (store st)))
    as [[t rowcount]|] eqn:Hup; simpl; [|intros Hk; exists h'; auto].
  by apply (update_house_rows field_name clean_value objectid _ t rowcount).
Qed.

Lemma try_update_committed field_name clean_value objectid st :
  committed (try_update field_name clean_value objectid st) = committed st ∧
  processed (try_update field_name clean_value objectid st) = processed st.
Proof.
  unfold try_update. destruct (aborted st); [done|].
  by destruct (update_house _ _ _ _) as [[t rowcount]|].
Qed.


(** The three ways a streamed element leaves the loop state: not a PARAM;
    a PARAM that is skipped or rejected; a PARAM whose value passed the
    validation of its field. *)
Lemma param_elem_cases st elem :
  (tag elem ≠ "PARAM" ∧ param_elem st elem = st) ∨
  (tag elem = "PARAM" ∧ param_elem st elem = checkpoint (counted st)) ∨
  (tag elem = "PARAM" ∧
   ∃ objectid typeid value field_name clean_value,
     attrib elem !! "OBJECTID" = Some objectid ∧
     attrib elem !! "TYPEID" = Some typeid ∧
     attrib elem !! "VALUE" = Some value ∧
     param_mapping !! typeid = Some field_name ∧
     validate_param_value field_name value = Some clean_value ∧
     param_elem st elem =
       checkpoint (try_update field_name clean_value objectid (counted st))).
Proof.
  unfold param_elem. case_decide as Htag; [|by left]. right. cbv zeta.
  destruct (attrib elem !! "OBJECTID") as [objectid|]; [|by left].
  destruct (attrib elem !! "TYPEID") as [typeid|]; [|by left]. simpl.
  destruct (attrib elem !! "VALUE") as [value|]; [|by left].
  destruct (param_mapping !! typeid) as [field_name|] eqn:Hmap; [|by left].
  destruct (_ && _); [|by left].
  destruct (validate_param_value field_name value) as [clean_value|] eqn:Hval;
    [|by left].
  right. split; [done|]. by exists objectid, typeid, value, field_name, clean_value.
Qed.

End params.

(** A store with house 400 and nothing else. *)
Definition house_400 : db :=
  Db ∅ ∅ ∅
     (<[400%Z := House 4 None (Some "5") None None None None None
                       None None None None 1 1 None]> ∅) ∅.

(** Values that pass: a count of residents, and a cadastral number. *)
Example accepted_values_are_stored :
  h_residents_count
    <$> houses (store (param_elem Py.strip_ascii Py.dec_int Py.dec_int
                         (ParamsState house_400 house_400 false 0 0)
                         (Scenario.param "400" "14" " 3 "))) !! 400%Z
  = Some (Some 3%Z) ∧
  h_cadastral_number
    <$> houses (store (param_elem Py.strip_ascii Py.dec_int Py.dec_int
                         (ParamsState house_400 house_400 false 0 0)
                         (Scenario.param "400" "8" "66:41:0204016:10"))) !! 400%Z
  = Some (Some "66:41:0204016:10").
Proof. split; vm_compute; reflexivity. Qed.

(** A statement that the server rejects loses the open transaction: the
    count of residents is accepted, the OBJECTID of the second record is
    not a number, the third record is refused with the transaction, and the
    commit that ends the pass rolls back. One update is counted and no
    column is set. *)
Example rejected_statement_loses_the_transaction :
  process_house_params Py.strip_ascii Py.dec_int Py.dec_int
    [XmlFile "AS_HOUSES_PARAMS_1.XML"
       [Scenario.param "400" "14" "3"; Scenario.param "4x0" "15" "2";
        Scenario.param "400" "15" "2"]]
    house_400
  = (house_400, 1%Z).
Proof. vm_compute. reflexivity. Qed.

(** The cut of a cadastral number is at 100 characters, not bytes: 64
    two-byte characters and a colon pass whole. *)
Example cadastral_number_is_cut_by_characters :
  let value :=
    "жжжжжжжжжжжжжжжжжжжжжжжжжжжжжжжж:жжжжжжжжжжжжжжжжжжжжжжжжжжжжжжжж" in
  String.length value = 129 ∧
  validate_param_value Py.strip_ascii Py.dec_int "cadastral_number" value
  = Some (PStr value).
Proof. split; vm_compute; reflexivity. Qed.



End Params.

(** ** Land plots: [process_land_plots], [link_land_plots_to_hierarchy] *)

Module Plots.

Import Index Store Resolver.

Record stead_data := SteadData {
  sd_id : option string;
  sd_objectid : option string;
  sd_objectguid : option string;
  sd_number : option string;
  sd_isactual : Z;
  sd_isactive : Z;
  sd_updatedate : option string
}.

Definition stead_data_of (attr : gmap string string) : stead_data :=
  SteadData (attr !! "ID") (attr !! "OBJECTID") (attr !! "OBJECTGUID")
            (attr !! "NUMBER") 1 1 (attr !! "UPDATEDATE").

Definition set_plot_links (settlement_id mun_id : option Z) (lp : land_plot)
  : land_plot :=
  LandPlot (lp_id lp) (lp_objectguid lp) (lp_number_plot lp)
           settlement_id mun_id
           (lp_isactual lp) (lp_isactive lp) (lp_updatedate lp).

Section plots.
Variable int : string → option Z.
Variable int8 : string → option Z.
Variable idx : index.

Definition plot_row (t : stead_data) : result land_plot :=
  id ← bigint int8 (sd_id t);
  Returns (LandPlot id (sd_objectguid t) (sd_number t) None None
                    (sd_isactual t) (sd_isactive t) (sd_updatedate t)).

Definition insert_land_plots_batch (d : db) (batch_data : list stead_data)
  : result db :=
  t ← insert_batch int8 sd_objectid plot_row (land_plots d) batch_data;
  Returns (with_land_plots d t).

Definition stead_elem (st : db * list stead_data) (elem : element)
  : result (db * list stead_data) :=
  let '(d, batch_data) := st in
  if decide (tag elem = "STEAD") then
    let attr := attrib elem in
    let batch_data :=
      if decide (attr !! "ISACTUAL" = Some "1" ∧ attr !! "ISACTIVE" = Some "1")
      then batch_data ++ [stead_data_of attr] else batch_data in
    if Houses.reached Houses.batch_size batch_data then
      d ← insert_land_plots_batch d batch_data; Returns (d, [])
    else Returns (d, batch_data)
  else Returns st.

Definition process_steads_file (d : db) (file : xmlfile) : result db :=
  st ← for_each stead_elem (d, []) (file_events file);
  match st.2 with
  | [] => Returns st.1
  | _ => insert_land_plots_batch st.1 st.2
  end.

Definition process_land_plots (files : list xmlfile) (d : db) : result db :=
  match files with
  | [] => Returns d
  | _ => for_each process_steads_file d files
  end.

Definition link_plot (d : db) (plot_id : Z) : result db :=
  settlement_id ← find_parent_by_level int idx plot_id ["5"; "6"];
  mun_id ← find_parent_by_level int idx plot_id ["3"; "4"];
  if Py.truthy_int settlement_id || Py.truthy_int mun_id then
    Returns (with_land_plots d
               (alter (set_plot_links settlement_id mun_id) plot_id (land_plots d)))
  else Returns d.

Definition link_land_plots_to_hierarchy (d : db) : result db :=
  for_each link_plot d (objectids (land_plots d)).

End plots.

End Plots.

(** ** The address composer: [build_full_addresses] *)

Module Composer.

Import Store.

(** [TRIM(s)]: the spaces at both ends removed. *)
Fixpoint ltrim (s : string) : string :=
  match s with
  | String c s' => if Ascii.eqb c " " then ltrim s' else s
  | EmptyString => EmptyString
  end.

Fixpoint rtrim (s : string) : string :=
  match s with
  | EmptyString => EmptyString
  | String c s' =>
      match rtrim s' with
      | EmptyString => if Ascii.eqb c " " then EmptyString else String c EmptyString
      | t => String c t
      end
  end.

Definition sql_trim (s : string) : string := rtrim (ltrim s).

(** [CONCAT_WS(sep, a1, ..., an)]: the arguments that are not NULL, joined
    by [sep]. *)
Definition concat_ws (sep : string) (args : list (option string)) : string :=
  String.concat sep (omap id args).

(** [CASE WHEN x IS NOT NULL THEN prefix || x END] *)
Definition prefixed (prefix : string) (x : option string) : option string :=
  match x with
  | Some v => Some (prefix +:+ v)
  | None => None
  end.

(** The expression of the SET clause, for a house joined to its
    municipality [m], settlement [set] and street [st]. The columns [name]
    and [typename] are NOT NULL. *)
Definition full_address_of (m : municipality) (set : settlement) (st : street)
    (h : house) : string :=
  sql_trim (concat_ws ", "
    [Some (name (m_base m));
     Some (typename (s_base set) +:+ " " +:+ name (s_base set));
     Some (typename (st_base st) +:+ " " +:+ name (st_base st));
     prefixed "д. " (h_house_number h);
     prefixed "к. " (h_building_number h);
     prefixed "стр. " (h_structure_number h)]).

Definition set_full_address (a : option string) (h : house) : house :=
  House (h_id h) (h_objectguid h) (h_house_number h) (h_building_number h)
        (h_structure_number h) (h_street_id h) (h_settlement_id h)
        (h_municipality_id h) (h_cadastral_number h) (h_floors_count h)
        (h_residents_count h) a (h_isactual h) (h_isactive h) (h_updatedate h).

(** The row of a house after the UPDATE: the join
    [h.municipality_id = m.objectid AND h.settlement_id = set.objectid AND
     h.street_id = st.objectid] has at most one row for a house, since
    [objectid] is unique in each table. *)
Definition compose (d : db) (h : house) : house :=
  match h_municipality_id h, h_settlement_id h, h_street_id h with
  | Some municipality_id, Some settlement_id, Some street_id =>
      match municipalities d !! municipality_id,
            settlements d !! settlement_id, streets d !! street_id with
      | Some m, Some set, Some st =>
          set_full_address (Some (full_address_of m set st h)) h
      | _, _, _ => h
      end
  | _, _, _ => h
  end.

Definition build_full_addresses (d : db) : db :=
  with_houses d (compose d <$> houses d).

(** *** The address as the specification words it *)

(** The parts of the address, in order, the missing numbers left out. *)
Definition address_parts (m : municipality) (set : settlement) (st : street)
    (h : house) : list string :=
  [name (m_base m);
   typename (s_base set) +:+ " " +:+ name (s_base set);
   typename (st_base st) +:+ " " +:+ name (st_base st)]
  ++ match h_house_number h with Some n => ["д. " +:+ n] | None => [] end
  ++ match h_building_number h with Some n => ["к. " +:+ n] | None => [] end
  ++ match h_structure_number h with Some n => ["стр. " +:+ n] | None => [] end.

Definition comma_join (parts : list string) : string := String.concat ", " parts.

Lemma concat_ws_address_parts m set st h :
  concat_ws ", "
    [Some (name (m_base m));
     Some (typename (s_base set) +:+ " " +:+ name (s_base set));
     Some (typename (st_base st) +:+ " " +:+ name (st_base st));
     prefixed "д. " (h_house_number h);
     prefixed "к. " (h_building_number h);
     prefixed "стр. " (h_structure_number h)]
  = comma_join (address_parts m set st h).
Proof.
  unfold concat_ws, comma_join, address_parts, prefixed.
  by destruct (h_house_number h), (h_building_number h), (h_structure_number h).
Qed.

Lemma compose_linked d h municipality_id settlement_id street_id m set st :
  h_municipality_id h = Some municipality_id →
  h_settlement_id h = Some settlement_id →
  h_street_id h = Some street_id →
  municipalities d !! municipality_id = Some m →
  settlements d !! settlement_id = Some set →
  streets d !! street_id = Some st →
  compose d h
  = set_full_address (Some (sql_trim (comma_join (address_parts m set st h)))) h.
Proof.
  intros Hm Hs Hst Hmr Hsr Hstr. unfold compose.
  rewrite Hm, Hs, Hst, Hmr, Hsr, Hstr. unfold full_address_of.
  by rewrite concat_ws_address_parts.
Qed.

Lemma compose_unlinked d h :
  h_municipality_id h ≫= (municipalities d !!.) = None ∨
  h_settlement_id h ≫= (settlements d !!.) = None ∨
  h_street_id h ≫= (streets d !!.) = None →
  compose d h = h.
Proof.
  unfold compose.
  destruct (h_municipality_id h) as [mi|]; [|done].
  destruct (h_settlement_id h) as [si|]; [|done].
  destruct (h_street_id h) as [sti|]; [|done]. simpl.
  destruct (municipalities d !! mi); [|done].
  destruct (settlements d !! si); [|by destruct (streets d !! sti)].
  destruct (streets d !! sti); [|done].
  by intros [?|[?|?]].
Qed.

(** C8 (amended). The composer sets full_address on the houses whose
    street_id, settlement_id and municipality_id are all non-null and
    reference existing rows, and on no other: a house with a missing
    ancestor keeps its row, full_address included. For a house that has the
    three ancestors, full_address is the comma-separated join, in order, of
    the municipality name, the settlement type_name and name, the street
    type_name and name, "д. " and the house number, "к. " and the
    building number, "стр. " and the structure number, the null numbers
    left out, with the spaces at both ends of the result removed (TRIM). *)
Theorem full_address_composed d k h :
  houses d !! k = Some h →
  (∀ municipality_id settlement_id street_id m set st,
     h_municipality_id h = Some municipality_id →
     h_settlement_id h = Some settlement_id →
     h_street_id h = Some street_id →
     municipalities d !! municipality_id = Some m →
     settlements d !! settlement_id = Some set →
     streets d !! street_id = Some st →
     houses (build_full_addresses d) !! k
     = Some (set_full_address
               (Some (sql_trim (comma_join (address_parts m set st h)))) h)) ∧
  (h_municipality_id h ≫= (municipalities d !!.) = None ∨
   h_settlement_id h ≫= (settlements d !!.) = None ∨
   h_street_id h ≫= (streets d !!.) = None →
   houses (build_full_addresses d) !! k = Some h).
Proof.
  intros Hk. unfold build_full_addresses. simpl. rewrite lookup_fmap, Hk. simpl.
  split.
  - intros mi si sti m set st Hm Hs Hst Hmr Hsr Hstr.
    by rewrite (compose_linked d h mi si sti m set st).
  - intros Hmissing. by rewrite compose_unlinked.
Qed.

End Composer.

(** ** The pipeline: [main] *)

Module Pipeline.

Import Index Store.

(** The files that the calls of [find_files] return, by pattern. *)
Record corpus := Corpus {
  as_addr_obj : list xmlfile;
  as_mun_hierarchy : list xmlfile;
  as_adm_hierarchy : list xmlfile;
  as_houses : list xmlfile;
  as_houses_params : list xmlfile;
  as_steads : list xmlfile
}.

Section pipeline.
Variable int : string → option Z.
Variable int8 : string → option Z.
Variable upper : string → string.
Variable strip : string → string.
Variable int_float : string → option Z.

(** The stages of [main], in order. An exception that a stage raises ends
    the run. *)
Definition main (xml : corpus) : result db :=
  let d := create_schema in
  let idx := load_hierarchy_and_levels
               (as_addr_obj xml) (as_mun_hierarchy xml) (as_adm_hierarchy xml) in
  d ← Stager.process_addr_objects int8 (as_addr_obj xml) d;
  d ← Links.build_hierarchy_links_fixed int idx d;
  d ← Houses.process_houses int8 upper (as_houses xml) d;
  d ← Houses.link_houses_to_hierarchy_fixed int idx d;
  let d := Houses.fix_municipality_links d in
  let d := (Params.process_house_params strip int_float int8
              (as_houses_params xml) d).1 in
  d ← Plots.process_land_plots int8 (as_steads xml) d;
  d ← Plots.link_land_plots_to_hierarchy int idx d;
  Returns (Composer.build_full_addresses d).

End pipeline.

(** The run on plain ASCII inputs with decimal ids. *)
Definition run (xml : corpus) : result db :=
  main Py.dec_int Py.dec_int Py.upper_ascii Py.strip_ascii Py.dec_int xml.

(** *** The loops of the run finish *)

(** No stage of the run exhausts the bound of a loop: a run returns a
    store or raises. *)

Create HintDb finishes.

Lemma bind_finishes {A B : Type} (r : result A) (k : A → result B) :
  r ≠ Unfinished → (∀ a, k a ≠ Unfinished) → r ≫= k ≠ Unfinished.
Proof. destruct r; simpl; auto. Qed.

Lemma for_each_finishes {A S : Type} (body : S → A → result S) st l :
  (∀ s x, body s x ≠ Unfinished) → for_each body st l ≠ Unfinished.
Proof.
  intros Hbody. revert st. induction l as [|x l IH]; intros st; simpl; [done|].
  by apply bind_finishes.
Qed.

Ltac finishes :=
  repeat first
    [ progress intros
    | done
    | apply bind_finishes
    | apply for_each_finishes
    | match goal with
      | |- (if ?b then _ else _) ≠ Unfinished => destruct b
      | |- match ?x with _ => _ end ≠ Unfinished => destruct x
      end
    | solve [auto with finishes] ].

Section finishing.
Variable int : string → option Z.
Variable int8 : string → option Z.
Variable idx : index.

Lemma find_mo_parent_finishes objectid :
  Resolver.find_mo_parent int idx objectid ≠ Unfinished.
Proof.
  unfold Resolver.find_mo_parent. case_decide; [done|].
  destruct (Py.level_in _ _); [apply Resolver.to_int_finished|].
  rewrite Resolver.climb_mo_climb. apply Resolver.climb_finishes.
  rewrite difference_empty_L, size_dom. lia.
Qed.

Lemma bigint_finishes o : bigint int8 o ≠ Unfinished.
Proof. unfold bigint. finishes. Qed.

Lemma insert_batch_finishes {T R : Type} (objectid_of : T → option string)
    (row : T → result R) t batch_data :
  (∀ tuple, row tuple ≠ Unfinished) →
  insert_batch int8 objectid_of row t batch_data ≠ Unfinished.
Proof.
  intros Hrow. unfold insert_batch. apply for_each_finishes. intros s x.
  apply bind_finishes; [apply bigint_finishes|]. intros k.
  apply bind_finishes; [apply Hrow|]. intros r. by destruct (s !! k).
Qed.

Lemma base_of_finishes t : Stager.base_of int8 t ≠ Unfinished.
Proof. unfold Stager.base_of. finishes. apply bigint_finishes. Qed.

End finishing.

#[local] Hint Resolve Resolver.find_parent_by_level_finishes
  find_mo_parent_finishes bigint_finishes base_of_finishes
  insert_batch_finishes : finishes.

Section run_finishes.
Variable int : string → option Z.
Variable int8 : string → option Z.
Variable upper : string → string.
Variable strip : string → string.
Variable int_float : string → option Z.

Lemma process_addr_objects_finishes files d :
  Stager.process_addr_objects int8 files d ≠ Unfinished.
Proof.
  unfold Stager.process_addr_objects, Stager.process_file, Stager.flush_rest,
    Stager.object_elem, Stager.flush_full, Stager.insert_municipalities_batch,
    Stager.insert_settlements_batch, Stager.insert_streets_batch.
  finishes.
Qed.

Lemma build_hierarchy_links_fixed_finishes idx d :
  Links.build_hierarchy_links_fixed int idx d ≠ Unfinished.
Proof.
  unfold Links.build_hierarchy_links_fixed, Links.link_municipality,
    Links.link_settlement, Links.link_street.
  finishes.
Qed.

Lemma process_houses_finishes files d :
  Houses.process_houses int8 upper files d ≠ Unfinished.
Proof.
  unfold Houses.process_houses, Houses.process_houses_file, Houses.house_elem,
    Houses.insert_houses_batch, Houses.house_row.
  finishes.
Qed.

Lemma link_houses_to_hierarchy_fixed_finishes idx d :
  Houses.link_houses_to_hierarchy_fixed int idx d ≠ Unfinished.
Proof.
  unfold Houses.link_houses_to_hierarchy_fixed, Houses.link_house,
    Houses.diagnose_house_connections_fixed.
  finishes.
Qed.

Lemma fix_final_mo_connections_finishes idx d :
  Houses.fix_final_mo_connections int idx d ≠ Unfinished.
Proof.
  unfold Houses.fix_final_mo_connections, Houses.lookup_remaining.
  finishes.
Qed.

Lemma process_land_plots_finishes files d :
  Plots.process_land_plots int8 files d ≠ Unfinished.
Proof.
  unfold Plots.process_land_plots, Plots.process_steads_file, Plots.stead_elem,
    Plots.insert_land_plots_batch, Plots.plot_row.
  finishes.
Qed.

Lemma link_land_plots_to_hierarchy_finishes idx d :
  Plots.link_land_plots_to_hierarchy int idx d ≠ Unfinished.
Proof.
  unfold Plots.link_land_plots_to_hierarchy, Plots.link_plot. finishes.
Qed.

Lemma main_finishes xml : main int int8 upper strip int_float xml ≠ Unfinished.
Proof.
  unfold main.
  apply bind_finishes; [apply process_addr_objects_finishes|]. intros d1.
  apply bind_finishes; [apply build_hierarchy_links_fixed_finishes|]. intros d2.
  apply bind_finishes; [apply process_houses_finishes|]. intros d3.
  apply bind_finishes; [apply link_houses_to_hierarchy_fixed_finishes|]. intros d4.
  apply bind_finishes; [apply process_land_plots_finishes|]. intros d5.
  apply bind_finishes; [apply link_land_plots_to_hierarchy_finishes|]. done.
Qed.

End run_finishes.

(** *** The scenarios *)

Definition scenario_1 : corpus :=
  Corpus Scenario.addr_obj Scenario.mun_hierarchy [] Scenario.houses [] [].

(** Scenario 1: the pure municipal chain. *)
Example scenario_1_run :
  match run scenario_1 with
  | Returns d =>
      s_municipality_id <$> settlements d !! 200%Z = Some (Some 100%Z) ∧
      st_settlement_id <$> streets d !! 300%Z = Some (Some 200%Z) ∧
      st_municipality_id <$> streets d !! 300%Z = Some (Some 100%Z) ∧
      h_street_id <$> houses d !! 400%Z = Some (Some 300%Z) ∧
      h_settlement_id <$> houses d !! 400%Z = Some (Some 200%Z) ∧
      h_municipality_id <$> houses d !! 400%Z = Some (Some 100%Z) ∧
      h_full_address <$> houses d !! 400%Z
        = Some (Some "Beryozovsky, p Monetny, ul Lesnaya, д. 5")
  | _ => False
  end.
Proof. vm_compute. repeat split. Qed.

(** Scenario 2: the municipal edge of 200 wins over the administrative
    one. *)
Example scenario_2_run :
  match run (Corpus Scenario.addr_obj Scenario.mun_hierarchy
               Scenario.adm_conflict Scenario.houses [] []) with
  | Returns d => s_municipality_id <$> settlements d !! 200%Z = Some (Some 100%Z)
  | _ => False
  end.
Proof. vm_compute. reflexivity. Qed.

(** Scenario 3: house 400 has no hierarchy edge. *)
Definition scenario_3 : corpus :=
  Corpus Scenario.addr_obj Scenario.mun_hierarchy_no_house_edge []
         Scenario.houses [] [].

(** The street is written 0300 where it is declared and where house 400
    points to it, and 300 where it points to its settlement. *)
Definition padded_street : corpus :=
  Corpus
    [XmlFile "AS_ADDR_OBJ_1.XML"
       [Scenario.object "1" "100" "Beryozovsky" "g.o." "4";
        Scenario.object "2" "200" "Monetny" "p" "6";
        Scenario.object "3" "0300" "Lesnaya" "ul" "8";
        Scenario.elem "ADDRESSOBJECTS" []]]
    [XmlFile "AS_MUN_HIERARCHY_1.XML"
       [Scenario.item "200" "100"; Scenario.item "300" "200";
        Scenario.item "400" "0300"; Scenario.elem "ITEMS" []]]
    [] Scenario.houses [] [].

(** C2, as stated, fails. After the full run on Scenario 3, street 300 has
    the municipality 100 and house 400 has none (it has no street either).
    After the full run on [padded_street], house 400 has the street 300, the
    street has the municipality 100, and the house still has none: no stage
    of [main] copies it. *)
Lemma main_has_no_through_street_fill :
  match run scenario_3 with
  | Returns d =>
      st_municipality_id <$> streets d !! 300%Z = Some (Some 100%Z) ∧
      h_street_id <$> houses d !! 400%Z = Some None ∧
      h_municipality_id <$> houses d !! 400%Z = Some None
  | _ => False
  end ∧
  match run padded_street with
  | Returns d =>
      st_municipality_id <$> streets d !! 300%Z = Some (Some 100%Z) ∧
      h_street_id <$> houses d !! 400%Z = Some (Some 300%Z) ∧
      h_municipality_id <$> houses d !! 400%Z = Some None
  | _ => False
  end.
Proof. vm_compute. repeat split. Qed.

(** The store at the end of the run on [padded_street]. *)
Definition padded_store : db :=
  match run padded_street with
  | Returns d => d
  | _ => create_schema
  end.

Definition padded_index : index :=
  load_hierarchy_and_levels (as_addr_obj padded_street)
    (as_mun_hierarchy padded_street) (as_adm_hierarchy padded_street).

Lemma through_street_fill_witness :
  ∃ d', Houses.fix_final_mo_connections Py.dec_int padded_index padded_store
        = Returns d' ∧
        h_municipality_id <$> houses d' !! 400%Z = Some (Some 100%Z).
Proof.
  eexists. split; [vm_compute; reflexivity|].
  erewrite (Houses.through_street_fill Py.dec_int padded_index padded_store
              _ 400 _ 300 _ 100);
    [reflexivity|vm_compute; reflexivity..].
Defined.

(** Scenario 1 with the house number written with a space after it. *)
Definition trailing_space : corpus :=
  Corpus Scenario.addr_obj Scenario.mun_hierarchy []
         [XmlFile "AS_HOUSES_1.XML"
            [Scenario.house "4" "400" "5 "; Scenario.elem "HOUSES" []]] [] [].

(** C8, as stated, fails on that input: the join of the parts ends with
    the space of the house number, the stored address does not. *)
Lemma full_address_is_trimmed :
  match run trailing_space with
  | Returns d =>
      h_full_address <$> houses d !! 400%Z
        = Some (Some "Beryozovsky, p Monetny, ul Lesnaya, д. 5") ∧
      ∃ m set st h,
        municipalities d !! 100%Z = Some m ∧ settlements d !! 200%Z = Some set ∧
        streets d !! 300%Z = Some st ∧ houses d !! 400%Z = Some h ∧
        h_municipality_id h = Some 100%Z ∧ h_settlement_id h = Some 200%Z ∧
        h_street_id h = Some 300%Z ∧
        Composer.comma_join (Composer.address_parts m set st h)
          = "Beryozovsky, p Monetny, ul Lesnaya, д. 5 "
  | _ => False
  end.
Proof. vm_compute. split; [reflexivity|]. do 4 eexists. repeat split. Qed.

(** The store of Scenario 1 at the end of the run. *)
Definition scenario_1_store : db :=
  match run scenario_1 with
  | Returns d => d
  | _ => create_schema
  end.

Lemma full_address_composed_witness :
  h_full_address <$> houses (Composer.build_full_addresses scenario_1_store) !! 400%Z
  = Some (Some "Beryozovsky, p Monetny, ul Lesnaya, д. 5").
Proof.
  destruct (houses scenario_1_store !! 400%Z) as [h|] eqn:Hh;
    [|by vm_compute in Hh].
  destruct (municipalities scenario_1_store !! 100%Z) as [m|] eqn:Hm;
    [|by vm_compute in Hm].
  destruct (settlements scenario_1_store !! 200%Z) as [set|] eqn:Hs;
    [|by vm_compute in Hs].
  destruct (streets scenario_1_store !! 300%Z) as [st|] eqn:Hst;
    [|by vm_compute in Hst].
  destruct (Composer.full_address_composed scenario_1_store 400 h Hh) as [Hset _].
  pose proof Hh as Eh. pose proof Hm as Em. pose proof Hs as Es.
  pose proof Hst as Est. vm_compute in Eh, Em, Es, Est.
  injection Eh as Eh. injection Em as Em. injection Es as Es. injection Est as Est.
  rewrite (Hset 100%Z 200%Z 300%Z m set st);
    [|by rewrite <- Eh..|done|done|done].
  by rewrite <- Eh, <- Em, <- Es, <- Est.
Defined.

End Pipeline.

(** ** File discovery: [find_files] *)

Module Discovery.

Section find_files.
(** [str.upper] and [os.path.join]. *)
Variable upper : string → string.
Variable path_join : string → string → string.
(** The directories, as the program sees them: at a path, [None] when
    [os.path.exists] is false, [Some None] when the path exists and
    [os.listdir] raises, [Some (Some names)] otherwise. *)
Variable listdir : string → option (option (list string)).

(** The test of the inner loop. *)
Definition selected (pattern filename : string) : bool :=
  Py.contains pattern (upper filename) && Py.endswith filename ".XML".

(** The files found in one directory of [search_dirs]. *)
Definition search (pattern search_dir : string) : list string :=
  match listdir search_dir with
  | Some (Some filenames) =>
      path_join search_dir
        <$> filter (λ filename, selected pattern filename = true) filenames
  | Some None => []
  | None => []
  end.

(** [region_code] is [self.config.get('REGION_CODE')]. *)
Definition find_files (region_code : option string) (directory pattern : string)
  : list string :=
  let search_dirs :=
    directory ::
    match region_code with
    | Some code => if Py.truthy region_code then [path_join directory code] else []
    | None => []
    end in
  foldl (λ files search_dir, files ++ search pattern search_dir) [] search_dirs.

(** *** The claim's reading of the search *)

(** [filename] contains [pattern], whatever the case of the two. *)
Definition contains_ignoring_case (pattern filename : string) : Prop :=
  Py.contains (upper pattern) (upper filename) = true.

(** The directories of the search: the root, and the subdirectory of the
    region when a region code is configured. *)
Definition searched (region_code : option string) (directory search_dir : string)
  : Prop :=
  search_dir = directory ∨
  ∃ code, region_code = Some code ∧ code ≠ "" ∧
          search_dir = path_join directory code.

Lemma elem_of_search pattern search_dir path :
  path ∈ search pattern search_dir ↔
  ∃ filenames filename,
    listdir search_dir = Some (Some filenames) ∧ filename ∈ filenames ∧
    selected pattern filename = true ∧ path = path_join search_dir filename.
Proof.
  unfold search. destruct (listdir search_dir) as [[filenames|]|].
  - rewrite list_elem_of_fmap. split.
    + intros (filename & -> & [Hsel Hin]%list_elem_of_filter).
      by exists filenames, filename.
    + intros (fs & filename & [= <-] & Hin & Hsel & ->).
      exists filename. split; [done|]. by apply list_elem_of_filter.
  - split; [by intros ?%elem_of_nil|]. by intros (? & ? & ? & _).
  - split; [by intros ?%elem_of_nil|]. by intros (? & ? & ? & _).
Qed.

Lemma elem_of_find_files region_code directory pattern path :
  path ∈ find_files region_code directory pattern ↔
  ∃ search_dir, searched region_code directory search_dir ∧
                path ∈ search pattern search_dir.
Proof.
  unfold find_files, searched.
  destruct region_code as [code|]; [destruct (Py.truthy (Some code)) eqn:Hcode|];
    simpl.
  - apply Py.truthy_Some in Hcode. rewrite elem_of_app. split.
    + intros [Hroot|Hsub].
      * exists directory. split; [by left|done].
      * exists (path_join directory code). split; [|done]. right. by exists code.
    + intros (dir & [->|(c & [= <-] & _ & ->)] & Hin); [by left|by right].
  - split.
    + intros Hroot. exists directory. split; [by left|done].
    + intros (dir & [->|(c & [= <-] & Hne & ->)] & Hin); [done|].
      apply Py.truthy_Some in Hne. congruence.
  - split.
    + intros Hroot. exists directory. split; [by left|done].
    + by intros (dir & [->|(c & [=] & _)] & Hin).
Qed.

End find_files.

(** [os.path.join] on two relative POSIX names. *)
Definition posix_join (a b : string) : string := a +:+ "/" +:+ b.

(** A root directory with one houses file. *)
Definition one_file (path : string) : option (option (list string)) :=
  if decide (path = "/data") then Some (Some ["AS_HOUSES_1.XML"]) else None.

(** C9, as stated, fails for a pattern in lower case: [find_files]
    upper-cases the file name and not the pattern, so it finds nothing,
    though the name contains the pattern when case is ignored and ends
    with .XML. *)
Lemma lower_case_pattern_finds_nothing :
  find_files Py.upper_ascii posix_join one_file None "/data" "as_houses" = [] ∧
  one_file "/data" = Some (Some ["AS_HOUSES_1.XML"]) ∧
  contains_ignoring_case Py.upper_ascii "as_houses" "AS_HOUSES_1.XML" ∧
  Py.endswith "AS_HOUSES_1.XML" ".XML" = true.
Proof. repeat split; vm_compute; reflexivity. Qed.

(** C9 (amended). For a pattern that [upper] leaves as it is (the
    patterns of the program are written in upper case), [find_files]
    returns exactly the files whose name contains the pattern when case is
    ignored and ends with [.XML], of the root directory and of the
    directory [<root>/<region_code>] when a region code is configured, and
    of no other place. *)
Theorem find_files_exact upper path_join listdir region_code directory pattern :
  upper pattern = pattern →
  ∀ path,
    path ∈ find_files upper path_join listdir region_code directory pattern ↔
    ∃ search_dir filenames filename,
      searched path_join region_code directory search_dir ∧
      listdir search_dir = Some (Some filenames) ∧
      filename ∈ filenames ∧
      contains_ignoring_case upper pattern filename ∧
      Py.endswith filename ".XML" = true ∧
      path = path_join search_dir filename.
Proof.
  intros Hupper path. rewrite elem_of_find_files.
  unfold contains_ignoring_case. rewrite Hupper. split.
  - intros (dir & Hdir & Hin).
    apply elem_of_search in Hin as (fs & f & Hls & Hf & Hsel & ->).
    apply andb_true_iff in Hsel as [Hc He]. by exists dir, fs, f.
  - intros (dir & fs & f & Hdir & Hls & Hf & Hc & He & ->).
    exists dir. split; [done|]. apply elem_of_search. exists fs, f.
    repeat split; try done. unfold selected. by rewrite Hc, He.
Qed.

Lemma find_files_exact_witness :
  "/data/AS_HOUSES_1.XML"
    ∈ find_files Py.upper_ascii posix_join one_file (Some "66") "/data" "AS_HOUSES".
Proof.
  apply (find_files_exact Py.upper_ascii posix_join one_file (Some "66")
           "/data" "AS_HOUSES"); [reflexivity|].
  exists "/data", ["AS_HOUSES_1.XML"], "AS_HOUSES_1.XML".
  split; [by left|]. split; [reflexivity|]. split; [apply list_elem_of_here|].
  split; [reflexivity|]. split; reflexivity.
Defined.

End Discovery.

(** * Further properties of the code *)

(** ** The hierarchy index: which record decides an entry *)

Module IndexFacts.

Import Index.

(** The level entry that an element writes: the OBJECTID and the LEVEL of
    an active OBJECT, both non-empty. *)
Definition active_level (elem : element) : option (string * string) :=
  if decide (active_object elem) then
    match attrib elem !! "OBJECTID", attrib elem !! "LEVEL" with
    | Some k, Some l => if decide (k ≠ "" ∧ l ≠ "") then Some (k, l) else None
    | _, _ => None
    end
  else None.

Lemma level_elem_level lm elem :
  level_elem lm elem =
    match active_level elem with
    | Some (k, l) => <[k := l]> lm
    | None => lm
    end.
Proof.
  unfold level_elem, active_level, active_object.
  destruct (decide (tag elem = "OBJECT")) as [Htag|Htag].
  2:{ rewrite decide_False; [done|]. by intros [? _]. }
  destruct (decide (attrib elem !! "ISACTUAL" = Some "1"
                    ∧ attrib elem !! "ISACTIVE" = Some "1")) as [Hf|Hf].
  2:{ rewrite decide_False; [done|]. intros [_ ?]. by apply Hf. }
  rewrite decide_True by done.
  destruct (attrib elem !! "OBJECTID") as [k|]; [|done].
  destruct (attrib elem !! "LEVEL") as [l|]; [|done].
  unfold Py.truthy.
  destruct (decide (k ≠ "" ∧ l ≠ "")) as [[Hk Hl]|Hn].
  - by rewrite !bool_decide_eq_true_2.
  - destruct (decide (k = "")) as [->|Hk]; [done|].
    rewrite (bool_decide_eq_true_2 _ Hk). simpl.
    rewrite bool_decide_eq_false_2; [done|]. intros Hl. by apply Hn.
Qed.

Lemma active_level_nonempty elem k l :
  active_level elem = Some (k, l) → k ≠ "" ∧ l ≠ "".
Proof.
  unfold active_level. case_decide; [|done].
  destruct (attrib elem !! "OBJECTID"); [|done].
  destruct (attrib elem !! "LEVEL"); [|done].
  case_decide; [|done]. by intros [= <- <-].
Qed.

Lemma level_scan_entries evs lm k l :
  foldl level_elem lm evs !! k = Some l →
  lm !! k = Some l ∨ ∃ elem, elem ∈ evs ∧ active_level elem = Some (k, l).
Proof.
  revert lm. induction evs as [|e evs IH]; intros lm; simpl; [by left|].
  intros [Hhere|(elem & Hin & Hact)]%IH.
  - rewrite level_elem_level in Hhere.
    destruct (active_level e) as [[k' l']|] eqn:He; [|by left].
    destruct (decide (k' = k)) as [->|Hne].
    + rewrite lookup_insert_eq in Hhere. injection Hhere as ->.
      right. exists e. split; [apply list_elem_of_here|done].
    + rewrite lookup_insert_ne in Hhere by done. by left.
  - right. exists elem. split; [by apply list_elem_of_further|done].
Qed.

(** X1. The administrative hierarchy fills in for a child that the
    municipal files do not mention, and there the first active edge of the
    child decides: later administrative edges of the same child are
    skipped. *)
Theorem administrative_fallback addr_files mun_files adm_files
    pre e post child p :
  (∀ e' p', e' ∈ events_of mun_files → active_edge e' ≠ Some (child, p')) →
  events_of adm_files = pre ++ e :: post →
  active_edge e = Some (child, p) →
  (∀ e' p', e' ∈ pre → active_edge e' ≠ Some (child, p')) →
  hierarchy_map (load_hierarchy_and_levels addr_files mun_files adm_files) !! child
    = Some p.
Proof.
  intros Hmun Hadm He Hpre. unfold load_hierarchy_and_levels. simpl.
  rewrite !scan_events, Hadm, foldl_app. simpl.
  apply adm_scan_keeps.
  assert (foldl adm_elem (foldl mun_elem ∅ (events_of mun_files)) pre !! child
          = None) as Hnone.
  { destruct (foldl adm_elem _ pre !! child) as [q|] eqn:Hq; [|done].
    apply adm_scan_lookup in Hq as [Hq|(e' & Hin & He')].
    - apply mun_scan_lookup in Hq as [Hq|(e' & Hin & He')].
      + by rewrite lookup_empty in Hq.
      + by destruct (Hmun e' q).
    - by destruct (Hpre e' q). }
  rewrite adm_elem_edge, He, Hnone. apply lookup_insert_eq.
Qed.

Lemma administrative_fallback_witness :
  hierarchy_map
    (load_hierarchy_and_levels Scenario.addr_obj []
       [XmlFile "AS_ADM_HIERARCHY_1.XML"
          [Scenario.item "200" "999"; Scenario.item "200" "100"]]) !! "200"
  = Some "999".
Proof.
  apply (administrative_fallback _ _ _ [] (Scenario.item "200" "999")
           [Scenario.item "200" "100"]).
  - intros e' p' Hin. by apply elem_of_nil in Hin.
  - reflexivity.
  - reflexivity.
  - intros e' p' Hin. by apply elem_of_nil in Hin.
Defined.

(** X2. The level of an object is the level of the last active OBJECT
    record that carries its id: a later record of the same id replaces
    the level that an earlier one wrote. *)
Theorem last_level_wins addr_files mun_files adm_files pre e post k l :
  events_of addr_files = pre ++ e :: post →
  active_level e = Some (k, l) →
  (∀ e' l', e' ∈ post → active_level e' ≠ Some (k, l')) →
  level_map (load_hierarchy_and_levels addr_files mun_files adm_files) !! k
    = Some l.
Proof.
  intros Haddr He Hpost. unfold load_hierarchy_and_levels. simpl.
  rewrite scan_events, Haddr, foldl_app. simpl.
  generalize (foldl level_elem ∅ pre). intros lm.
  assert (level_elem lm e !! k = Some l) as Hst.
  { rewrite level_elem_level, He. apply lookup_insert_eq. }
  revert Hst. generalize (level_elem lm e). clear lm He Haddr.
  induction post as [|e' post IH]; intros lm Hst; simpl; [done|].
  apply IH.
  - intros e'' l' Hin. apply Hpost. by apply list_elem_of_further.
  - rewrite level_elem_level.
    destruct (active_level e') as [[k' l']|] eqn:He'; [|done].
    rewrite lookup_insert_ne; [done|]. intros ->.
    by apply (Hpost e' l'); [apply list_elem_of_here|].
Qed.

Lemma last_level_wins_witness :
  level_map
    (load_hierarchy_and_levels
       [XmlFile "AS_ADDR_OBJ_1.XML"
          [Scenario.object "1" "100" "Severny" "r-n" "3";
           Scenario.object "2" "100" "Severny" "p" "5"]] [] []) !! "100"
  = Some "5".
Proof.
  apply (last_level_wins _ _ _ [Scenario.object "1" "100" "Severny" "r-n" "3"]
           (Scenario.object "2" "100" "Severny" "p" "5") []).
  - reflexivity.
  - reflexivity.
  - intros e' l' Hin. by apply elem_of_nil in Hin.
Defined.

(** X3. The index holds no empty string: no key and no parent of the
    parent map, no key and no level of the level map is empty. *)
Theorem index_has_no_empty_string addr_files mun_files adm_files :
  (∀ c p,
     hierarchy_map (load_hierarchy_and_levels addr_files mun_files adm_files) !! c
       = Some p → c ≠ "" ∧ p ≠ "") ∧
  (∀ k l,
     level_map (load_hierarchy_and_levels addr_files mun_files adm_files) !! k
       = Some l → k ≠ "" ∧ l ≠ "").
Proof.
  split.
  - intros c p (elem & _ & He)%hierarchy_map_from_active.
    by apply active_edge_nonempty in He.
  - intros k l. unfold load_hierarchy_and_levels. simpl. rewrite scan_events.
    intros [Hempty|(elem & _ & He)]%level_scan_entries.
    + by rewrite lookup_empty in Hempty.
    + by apply active_level_nonempty in He.
Qed.

End IndexFacts.

(** ** The parent resolver: misses, and resolution along the walk *)

Module ResolverFacts.

Import Index Resolver.

Section walk.
Variable int : string → option Z.
Variable idx : index.

(** On a parent map without empty parents, the call returns the first
    object of the walk that has a target level, converted by [int]. *)
Lemma find_parent_by_level_first objectid levels n a :
  parents_nonempty idx → objectid ≠ 0%Z →
  first_at_level idx levels (Py.str objectid) n a →
  find_parent_by_level int idx objectid levels = to_int int a.
Proof.
  intros Hne Hid Hfst. pose proof Hfst as (Ha & Hla & Hmin).
  unfold find_parent_by_level. rewrite decide_False by done.
  destruct n as [|k].
  - injection Ha as <-. unfold has_level in Hla. by rewrite Hla.
  - rewrite has_level_false by (by apply (Hmin 0); [lia|]).
    rewrite <- (climb_more int idx _ (S (size (hierarchy_map idx)) + S k)).
    + apply (climb_complete int idx k); [lia|done|done|..].
      * intros j b Hj. apply Hmin. lia.
      * intros j b Hj Hjb. split; [|apply not_elem_of_empty].
        by apply (ancestor_nonempty idx j (Py.str objectid));
          [|apply Py.str_nonempty|].
      * intros i j b Hij. apply (first_at_level_distinct idx levels _ _ a Hfst).
        lia.
    + lia.
    + apply climb_finishes. rewrite difference_empty_L, size_dom. lia.
Qed.

(** Either no object among the first [j] of the walk has a target level,
    or the walk has a first object with a target level. *)
Lemma first_at_level_search levels id (j : nat) :
  (∀ i b, i < j → ancestor idx i id = Some b → ¬ has_level idx b levels) ∨
  ∃ n a, first_at_level idx levels id n a.
Proof.
  induction j as [|j [IH|IH]]; [left; intros; lia| |by right].
  destruct (ancestor idx j id) as [b|] eqn:Hb.
  - destruct (Py.level_in (level_map idx !! b) levels) eqn:Hl.
    + right. by exists j, b.
    + left. intros i c Hi Hc. destruct (decide (i = j)) as [->|Hne].
      * rewrite Hb in Hc. injection Hc as <-. unfold has_level. by rewrite Hl.
      * apply (IH i); [lia|done].
  - left. intros i c Hi Hc. destruct (decide (i = j)) as [->|Hne].
    + by rewrite Hb in Hc.
    + apply (IH i); [lia|done].
Qed.


(** What the loop answers, when it is not [None]: the first ancestor at a
    target level, converted by [int]. *)
Lemma climb_hit bound levels current_id visited :
  climb int idx bound levels current_id visited = Returns None ∨
  climb int idx bound levels current_id visited = Unfinished ∨
  ∃ k a, ancestor idx (S k) current_id = Some a ∧ has_level idx a levels ∧
         climb int idx bound levels current_id visited = to_int int a ∧
         ∀ j b, 1 ≤ j ≤ k → ancestor idx j current_id = Some b →
                ¬ has_level idx b levels.
Proof.
  revert current_id visited.
  induction bound as [|bound IH]; intros cur visited; cbn [climb];
    [right; by left|].
  destruct (Py.truthy (Some cur) && bool_decide (cur ∉ visited)); [|by left].
  destruct (hierarchy_map idx !! cur) as [parent|] eqn:Hp; [|by left].
  destruct (Py.level_in (level_map idx !! parent) levels) eqn:Hl.
  - right. right. exists 0, parent. simpl. rewrite Hp.
    repeat split; [done..|]. intros j b Hj. lia.
  - destruct (IH parent ({[cur]} ∪ visited))
      as [Hnone|[Hunf|(k & a & Ha & Hla & Hr & Hmin)]];
      [by left|right; by left|].
    right. right. exists (S k), a. split; [|split; [done|split; [done|]]].
    + change (ancestor idx (S (S k)) cur) with
        (match hierarchy_map idx !! cur with
         | Some q => ancestor idx (S k) q | None => None end).
      by rewrite Hp.
    + intros j b Hj Hb. destruct j as [|j]; [lia|].
      simpl in Hb. rewrite Hp in Hb.
      destruct j as [|j].
      * simpl in Hb. injection Hb as <-. unfold has_level. by rewrite Hl.
      * apply (Hmin (S j) b); [lia|done].
Qed.

(** The call answers [None], or it has found the first object of the
    walk at a target level. *)
Lemma find_outcome objectid levels :
  find_parent_by_level int idx objectid levels = Returns None ∨
  ∃ n a, first_at_level idx levels (Py.str objectid) n a ∧
         find_parent_by_level int idx objectid levels = to_int int a.
Proof.
  pose proof (find_parent_by_level_finishes int idx objectid levels) as Hfin.
  unfold find_parent_by_level in *. case_decide; [by left|].
  destruct (Py.level_in (level_map idx !! Py.str objectid) levels) eqn:Hl.
  - right. exists 0, (Py.str objectid). split; [|done].
    split; [done|]. split; [done|]. intros j b Hj. lia.
  - destruct (climb_hit (S (size (hierarchy_map idx))) levels (Py.str objectid) ∅)
      as [Hnone|[Hunf|(k & a & Ha & Hla & Hr & Hmin)]]; [by left|done|].
    right. exists (S k), a. split; [|done]. split; [done|]. split; [done|].
    intros j b Hj Hjb. destruct j as [|j].
    + injection Hjb as <-. unfold has_level. by rewrite Hl.
    + apply (Hmin (S j) b); [lia|done].
Qed.

Lemma miss_no_target objectid levels :
  parents_nonempty idx → objectid ≠ 0%Z →
  find_parent_by_level int idx objectid levels = Returns None →
  ∀ j b, ancestor idx j (Py.str objectid) = Some b → ¬ has_level idx b levels.
Proof.
  intros Hne Hid Hmiss j b Hb Hl.
  destruct (first_at_level_search levels (Py.str objectid) (S j))
    as [Hnone|(n & a & Hfst)].
  - by apply (Hnone j b); [lia|..].
  - rewrite (find_parent_by_level_first objectid levels n a) in Hmiss by done.
    unfold to_int in Hmiss. by destruct (int a).
Qed.

End walk.

(** X4. A miss is exact. For an id other than 0, on a parent map without
    empty parents, [find_parent_by_level] returns [None] if and only if no
    object of the upward walk, the object itself included, has a level in
    the targets. *)
Theorem miss_iff_no_target int idx objectid levels :
  parents_nonempty idx →
  objectid ≠ 0%Z →
  find_parent_by_level int idx objectid levels = Returns None ↔
  ∀ j b, ancestor idx j (Py.str objectid) = Some b → ¬ has_level idx b levels.
Proof.
  intros Hne Hid. split.
  - by apply miss_no_target.
  - apply find_parent_by_level_none.
Qed.

Lemma miss_iff_no_target_witness :
  find_parent_by_level Py.dec_int scenario_index 100 ["5"; "6"] = Returns None.
Proof.
  apply (miss_iff_no_target Py.dec_int scenario_index 100 ["5"; "6"]).
  - apply load_parents_nonempty.
  - lia.
  - intros j b. destruct j as [|j]; [|done].
    intros [= <-]. vm_compute. discriminate.
Defined.



(** Without the condition of X5 on the spelling the two searches differ.
    In [Pipeline.padded_index] the parent of house 400 is written 0300 and
    the edge to the settlement starts from 300: the walk from 400 stops at
    0300 and finds no municipality, the walk from 300 finds 100. *)
Example spelling_of_the_ancestor_matters :
  ancestor Pipeline.padded_index 1 (Py.str 400) = Some "0300" ∧
  Py.dec_int "0300" = Some 300%Z ∧
  find_parent_by_level Py.dec_int Pipeline.padded_index 400 ["3"; "4"]
  = Returns None ∧
  find_parent_by_level Py.dec_int Pipeline.padded_index 300 ["3"; "4"]
  = Returns (Some 100%Z).
Proof. repeat split; vm_compute; reflexivity. Qed.

End ResolverFacts.

(** ** The store: insertion skips what is there *)

Module StoreFacts.

Import Store.

Section insert.
Variable int8 : string → option Z.
Context {T R : Type}.
Variable objectid_of : T → option string.
Variable row : T → result R.

Lemma insert_batch_keeps (t t' : gmap Z R) batch_data k r :
  insert_batch int8 objectid_of row t batch_data = Returns t' →
  t !! k = Some r → t' !! k = Some r.
Proof.
  unfold insert_batch. revert t.
  induction batch_data as [|x l IH]; intros t; simpl; [by intros [= <-]|].
  destruct (bigint int8 (objectid_of x)) as [k0| |]; simpl; [|done..].
  destruct (row x) as [r0| |]; simpl; [|done..].
  destruct (t !! k0) as [old0|] eqn:Ht0; simpl; intros Hrest Hk.
  - by apply (IH t).
  - apply (IH _ Hrest). rewrite lookup_insert_ne; [done|]. intros ->. congruence.
Qed.

(** After a batch is inserted, every tuple of it has its key in the
    table. *)
Lemma insert_batch_stored (t t' : gmap Z R) batch_data tuple :
  insert_batch int8 objectid_of row t batch_data = Returns t' →
  tuple ∈ batch_data →
  ∃ k r, bigint int8 (objectid_of tuple) = Returns k ∧ row tuple = Returns r ∧
         is_Some (t' !! k).
Proof.
  intros Hins Hin. revert t Hins.
  induction batch_data as [|x l IH]; intros t Hins; [by apply elem_of_nil in Hin|].
  pose proof Hins as Hall. unfold insert_batch in Hins. simpl in Hins.
  destruct (bigint int8 (objectid_of x)) as [k0| |] eqn:Hk0; simpl in Hins;
    [|done..].
  destruct (row x) as [r0| |] eqn:Hr0; simpl in Hins; [|done..].
  apply elem_of_cons in Hin as [->|Hin].
  - exists k0, r0. split; [done|]. split; [done|].
    destruct (t !! k0) as [old0|] eqn:Ht0; simpl in Hins.
    + exists old0. by apply (insert_batch_keeps t t' l).
    + exists r0. apply (insert_batch_keeps (<[k0:=r0]> t) t' l); [done|].
      apply lookup_insert_eq.
  - destruct (t !! k0); simpl in Hins; by apply (IH Hin _ Hins).
Qed.

Lemma insert_batch_present (t : gmap Z R) batch_data :
  (∀ tuple, tuple ∈ batch_data →
     ∃ k r, bigint int8 (objectid_of tuple) = Returns k ∧
            row tuple = Returns r ∧ is_Some (t !! k)) →
  insert_batch int8 objectid_of row t batch_data = Returns t.
Proof.
  intros Hall. apply for_each_idle. intros x Hx.
  destruct (Hall x Hx) as (k & r & -> & -> & [old Hold]). simpl. by rewrite Hold.
Qed.

End insert.

(** X6. [INSERT ... ON CONFLICT (objectid) DO NOTHING]: a batch that is
    inserted leaves every row that was in the table as it was, and
    inserting the same batch again changes nothing. *)
Theorem insert_skips_on_conflict int8 {T R : Type}
    (objectid_of : T → option string) (row : T → result R)
    (t t' : gmap Z R) batch_data :
  insert_batch int8 objectid_of row t batch_data = Returns t' →
  (∀ k r, t !! k = Some r → t' !! k = Some r) ∧
  insert_batch int8 objectid_of row t' batch_data = Returns t'.
Proof.
  intros Hins. split.
  - intros k r. by apply (insert_batch_keeps int8 objectid_of row t t' batch_data).
  - apply insert_batch_present. intros tuple Hin.
    by apply (insert_batch_stored int8 objectid_of row t t' batch_data).
Qed.

Lemma insert_skips_on_conflict_witness :
  let batch_data :=
    [Stager.base_data_of (attrib (Scenario.object "1" "100" "Beryozovsky" "g.o." "4"));
     Stager.base_data_of (attrib (Scenario.object "9" "100" "Other" "g.o." "4"))] in
  ∃ t', insert_batch Py.dec_int Stager.bd_objectid (Stager.base_of Py.dec_int)
          ∅ batch_data = Returns t' ∧
        insert_batch Py.dec_int Stager.bd_objectid (Stager.base_of Py.dec_int)
          t' batch_data = Returns t'.
Proof.
  intros batch_data.
  destruct (insert_batch Py.dec_int Stager.bd_objectid
              (Stager.base_of Py.dec_int) ∅ batch_data) as [t'| |] eqn:Hins;
    [|vm_compute in Hins; discriminate..].
  exists t'. split; [done|].
  exact (proj2 (insert_skips_on_conflict _ _ _ _ _ _ Hins)).
Defined.

End StoreFacts.

(** ** The stager: routing by level, and nothing lost in the batches *)

Module StagerFacts.

Import Index Store Stager.

(** The three tables that [process_addr_objects] fills. *)
Inductive table := TMunicipalities | TSettlements | TStreets.

#[export] Instance table_eq_dec : EqDecision table.
Proof. solve_decision. Defined.

Definition levels_of (i : table) : list string :=
  match i with
  | TMunicipalities => ["3"; "4"]
  | TSettlements => ["5"; "6"]
  | TStreets => ["7"; "8"]
  end.

Definition batch_of (i : table) (st : staging) : list base_data :=
  match i with
  | TMunicipalities => municipalities_batch st
  | TSettlements => settlements_batch st
  | TStreets => streets_batch st
  end.

(** The common columns of the row of key [k], if the table has one. *)
Definition common (i : table) (d : db) (k : Z) : option base :=
  match i with
  | TMunicipalities => m_base <$> municipalities d !! k
  | TSettlements => s_base <$> settlements d !! k
  | TStreets => st_base <$> streets d !! k
  end.

Section staging.
Variable int8 : string → option Z.

Definition insert_into (i : table) (d : db) (batch_data : list base_data)
  : result db :=
  match i with
  | TMunicipalities => insert_municipalities_batch int8 d batch_data
  | TSettlements => insert_settlements_batch int8 d batch_data
  | TStreets => insert_streets_batch int8 d batch_data
  end.

(** One [if ...: insert; batch = []] block, without its test. *)
Definition emptied (i : table) (st : staging) (d : db) : staging :=
  match i with
  | TMunicipalities => Staging d [] (settlements_batch st) (streets_batch st)
  | TSettlements => Staging d (municipalities_batch st) [] (streets_batch st)
  | TStreets => Staging d (municipalities_batch st) (settlements_batch st) []
  end.

Definition flush (i : table) (st : staging) : result staging :=
  d ← insert_into i (store st) (batch_of i st);
  Returns (emptied i st d).

Definition flush_if_full (i : table) (st : staging) : result staging :=
  if full (batch_of i st) then flush i st else Returns st.

Definition flush_if_any (i : table) (st : staging) : result staging :=
  match batch_of i st with
  | [] => Returns st
  | _ => flush i st
  end.

Lemma flush_full_steps st :
  flush_full int8 st =
  (st ← flush_if_full TMunicipalities st;
   st ← flush_if_full TSettlements st;
   flush_if_full TStreets st).
Proof. reflexivity. Qed.

Lemma flush_rest_steps st d' :
  flush_rest int8 st = Returns d' →
  ∃ st1 st2,
    flush_if_any TMunicipalities st = Returns st1 ∧
    flush_if_any TSettlements st1 = Returns st2 ∧
    flush_if_any TStreets st2 = Returns (Staging d' [] [] []).
Proof.
  destruct st as [d m s t]. unfold flush_rest, flush_if_any, flush. simpl.
  destruct m as [|m0 m]; simpl;
    [|destruct (insert_municipalities_batch _ _ _) as [d1| |] eqn:Hm;
      simpl; [|done..]];
    (destruct s as [|s0 s]; simpl;
     [|destruct (insert_settlements_batch _ _ _) as [d2| |] eqn:Hs;
       simpl; [|done..]]);
    (destruct t as [|t0 t]; simpl; [intros [= <-]|intros Ht]);
    eexists _, _;
    (split; [simpl; try rewrite Hm; reflexivity|]);
    (split; [simpl; try rewrite Hs; reflexivity|]);
    simpl; try rewrite Ht; reflexivity.
Qed.

Lemma batch_of_emptied i j st d :
  batch_of j (emptied i st d) = if decide (i = j) then [] else batch_of j st.
Proof. by destruct i, j. Qed.

Lemma store_emptied i st d : store (emptied i st d) = d.
Proof. by destruct i. Qed.

(** *** What one INSERT batch does to the three tables *)

Lemma base_of_level t b : base_of int8 t = Returns b → level b = bd_level t.
Proof.
  unfold base_of. destruct (bigint int8 (bd_id t)); simpl; [|done..].
  by intros [= <-].
Qed.

Lemma insert_into_common i j d d' batch_data k b :
  insert_into i d batch_data = Returns d' →
  common j d' k = Some b →
  common j d k = Some b ∨
  (j = i ∧ ∃ t, t ∈ batch_data ∧ level b = bd_level t).
Proof.
  destruct i; simpl;
    unfold insert_municipalities_batch, insert_settlements_batch,
      insert_streets_batch;
    (destruct (insert_batch _ _ _ _ _) as [t'| |] eqn:Hins; simpl; [|done..]);
    intros [= <-]; destruct j; simpl; auto;
    intros (r & Hr & ->)%fmap_Some;
    (destruct (insert_batch_rows _ _ _ _ _ _ Hins k r Hr)
       as [Hold|(t & Hin & _ & Hrow)];
     [left; by rewrite Hold|]);
    right; (split; [done|]); exists t; (split; [done|]);
    (destruct (base_of int8 t) as [b| |] eqn:Hb; simpl in Hrow; [|done..]);
    injection Hrow as <-; simpl; by apply base_of_level.
Qed.

Lemma insert_into_keeps i j d d' batch_data k :
  insert_into i d batch_data = Returns d' →
  is_Some (common j d k) → is_Some (common j d' k).
Proof.
  destruct i; simpl;
    unfold insert_municipalities_batch, insert_settlements_batch,
      insert_streets_batch;
    (destruct (insert_batch _ _ _ _ _) as [t'| |] eqn:Hins; simpl; [|done..]);
    intros [= <-]; destruct j; simpl; auto;
    rewrite !fmap_is_Some; intros [r Hr]; exists r;
    by apply (StoreFacts.insert_batch_keeps _ _ _ _ _ _ _ _ Hins).
Qed.

Lemma insert_into_stored i d d' batch_data t :
  insert_into i d batch_data = Returns d' →
  t ∈ batch_data →
  ∃ k, bigint int8 (bd_objectid t) = Returns k ∧ is_Some (common i d' k).
Proof.
  destruct i; simpl;
    unfold insert_municipalities_batch, insert_settlements_batch,
      insert_streets_batch;
    (destruct (insert_batch _ _ _ _ _) as [t'| |] eqn:Hins; simpl; [|done..]);
    intros [= <-] Hin;
    destruct (StoreFacts.insert_batch_stored _ _ _ _ _ _ _ Hins Hin)
      as (k & r & Hk & _ & Hsome);
    exists k; (split; [done|]); simpl; by rewrite fmap_is_Some.
Qed.

Lemma route_batches i st attr t :
  t ∈ batch_of i st → t ∈ batch_of i (route st attr).
Proof.
  intros Hin. unfold route. repeat case_decide; destruct i; simpl; try done;
    apply elem_of_app; by left.
Qed.

Lemma route_new i st attr t :
  t ∈ batch_of i (route st attr) →
  t ∈ batch_of i st ∨
  (t = base_data_of attr ∧ default "" (attr !! "LEVEL") ∈ levels_of i).
Proof.
  unfold route. repeat case_decide; destruct i; simpl; auto;
    intros [Hin|Hin%list_elem_of_singleton]%elem_of_app; subst; auto.
Qed.

Lemma route_staged i st attr :
  default "" (attr !! "LEVEL") ∈ levels_of i →
  base_data_of attr ∈ batch_of i (route st attr).
Proof.
  unfold route. cbv zeta. generalize (default "" (attr !! "LEVEL")).
  intros l Hl.
  destruct i; simpl in Hl;
    (apply elem_of_cons in Hl as [->|Hl];
     [|apply elem_of_cons in Hl as [->|Hl]; [|by apply elem_of_nil in Hl]]);
    repeat match goal with
           | |- context [decide (?x ∈ ?l)] =>
               let H := fresh in
               destruct (decide (x ∈ l)) as [H|H];
               [try (exfalso;
                     repeat (apply elem_of_cons in H as [H|H]; [discriminate H|]);
                     by apply elem_of_nil in H)
               |try (exfalso; apply H; by repeat constructor)]
           end;
    simpl; apply elem_of_app; right; apply list_elem_of_here.
Qed.

Lemma store_route st attr : store (route st attr) = store st.
Proof. unfold route. by repeat case_decide. Qed.

(** *** An invariant of the loops, indexed by the elements met so far *)

Section invariant.
Variable Inv : list element → staging → Prop.
Hypothesis Inv_route : ∀ seen st elem,
  Inv seen st → active_object elem →
  Inv (seen ++ [elem]) (route st (attrib elem)).
Hypothesis Inv_skip : ∀ seen st elem,
  Inv seen st → ¬ active_object elem → Inv (seen ++ [elem]) st.
Hypothesis Inv_flush : ∀ seen st st' i,
  Inv seen st → flush i st = Returns st' → Inv seen st'.

Lemma flush_if_full_inv seen st st' i :
  Inv seen st → flush_if_full i st = Returns st' → Inv seen st'.
Proof.
  intros Hst. unfold flush_if_full.
  destruct (full (batch_of i st)); [by apply Inv_flush|by intros [= <-]].
Qed.

Lemma flush_if_any_inv seen st st' i :
  Inv seen st → flush_if_any i st = Returns st' → Inv seen st'.
Proof.
  intros Hst. unfold flush_if_any.
  destruct (batch_of i st); [by intros [= <-]|by apply Inv_flush].
Qed.

Lemma flush_full_inv seen st st' :
  Inv seen st → flush_full int8 st = Returns st' → Inv seen st'.
Proof.
  intros Hst. rewrite flush_full_steps.
  destruct (flush_if_full TMunicipalities st) as [st1| |] eqn:H1;
    simpl; [|done..].
  destruct (flush_if_full TSettlements st1) as [st2| |] eqn:H2;
    simpl; [|done..].
  intros H3. apply (flush_if_full_inv seen st2 st' TStreets); [|done].
  apply (flush_if_full_inv seen st1 st2 TSettlements); [|done].
  by apply (flush_if_full_inv seen st st1 TMunicipalities).
Qed.

Lemma object_elem_inv seen st st' elem :
  Inv seen st → object_elem int8 st elem = Returns st' →
  Inv (seen ++ [elem]) st'.
Proof.
  intros Hst. unfold object_elem.
  case_decide as Htag.
  - case_decide as Hflags.
    + apply flush_full_inv, Inv_route; [done|]. by destruct Hflags.
    + apply flush_full_inv, Inv_skip; [done|]. intros (_ & ? & ?). by apply Hflags.
  - intros [= <-]. apply Inv_skip; [done|]. by intros (? & _).
Qed.

Lemma object_loop_inv l seen st st' :
  Inv seen st → for_each (object_elem int8) st l = Returns st' →
  Inv (seen ++ l) st'.
Proof.
  revert seen st. induction l as [|x l IH]; intros seen st Hst; simpl.
  - intros [= <-]. by rewrite app_nil_r.
  - destruct (object_elem int8 st x) as [s1| |] eqn:Hx; simpl; [|done..].
    intros Hl. rewrite (assoc_L (++) seen [x] l : seen ++ x :: l = _).
    apply (IH _ s1); [|done]. by apply (object_elem_inv seen st).
Qed.

Lemma process_file_inv seen d d' file :
  Inv seen (Staging d [] [] []) → process_file int8 d file = Returns d' →
  Inv (seen ++ file_events file) (Staging d' [] [] []).
Proof.
  intros Hd. unfold process_file.
  destruct (for_each _ _ _) as [st| |] eqn:Hloop; simpl; [|done..].
  intros (st1 & st2 & H1 & H2 & H3)%flush_rest_steps.
  apply (flush_if_any_inv _ st2 _ TStreets); [|done].
  apply (flush_if_any_inv _ st1 _ TSettlements); [|done].
  apply (flush_if_any_inv _ st _ TMunicipalities); [|done].
  by apply (object_loop_inv _ seen (Staging d [] [] [])).
Qed.

Lemma file_loop_inv files seen d d' :
  Inv seen (Staging d [] [] []) →
  for_each (process_file int8) d files = Returns d' →
  Inv (seen ++ events_of files) (Staging d' [] [] []).
Proof.
  revert seen d. induction files as [|f files IH]; intros seen d Hd; simpl.
  - intros [= <-]. by rewrite app_nil_r.
  - destruct (process_file int8 d f) as [d1| |] eqn:Hf; simpl; [|done..].
    intros Hl. unfold events_of. simpl. rewrite (assoc_L (++)).
    apply (IH _ d1); [|done]. by apply (process_file_inv seen d).
Qed.

Lemma process_addr_objects_inv files d d' :
  Inv [] (Staging d [] [] []) →
  process_addr_objects int8 files d = Returns d' →
  Inv (events_of files) (Staging d' [] [] []).
Proof.
  intros Hd. unfold process_addr_objects.
  destruct files as [|f0 fs] eqn:Hfiles; [by intros [= <-]|].
  rewrite <- Hfiles. by apply (file_loop_inv files []).
Qed.

End invariant.

(** *** Routing *)

(** The rows that were not in the store [d0] have a level of their table,
    and so have the staged tuples. *)
Definition routed (d0 : db) (seen : list element) (st : staging) : Prop :=
  (∀ i k b, common i (store st) k = Some b →
     common i d0 k = Some b ∨ level b ∈ levels_of i) ∧
  (∀ i t, t ∈ batch_of i st → bd_level t ∈ levels_of i).

Lemma process_addr_objects_routed files d d' i k b :
  process_addr_objects int8 files d = Returns d' →
  common i d' k = Some b →
  common i d k = Some b ∨ level b ∈ levels_of i.
Proof.
  intros Hrun.
  assert (routed d (events_of files) (Staging d' [] [] [])) as [Hrows _];
    [|apply Hrows].
  apply (process_addr_objects_inv (routed d)) with (d := d); [| | | |done].
  - intros seen st elem [Hrows Hb] _. split.
    + intros j k' b'. rewrite store_route. apply Hrows.
    + intros j t [Hin|[-> Hl]]%route_new; [by apply Hb|done].
  - by intros seen st elem Hst _.
  - intros seen st st' j [Hrows Hb]. unfold flush.
    destruct (insert_into j (store st) (batch_of j st)) as [d1| |] eqn:Hins;
      simpl; [|done..].
    intros [= <-]. split.
    + intros j' k' b'. rewrite store_emptied. intros Hc.
      destruct (insert_into_common _ _ _ _ _ _ _ Hins Hc)
        as [Hold|(-> & t & Hin & Hl)]; [by apply Hrows|].
      right. rewrite Hl. by apply Hb.
    + intros j' t. rewrite batch_of_emptied. case_decide.
      * by intros ?%elem_of_nil.
      * apply Hb.
  - split; [by left|]. intros j t. destruct j; by intros ?%elem_of_nil.
Qed.

(** *** Nothing is lost *)

(** Every active OBJECT met so far, of a level that is routed to table
    [i], is waiting in the batch of [i] or has its id in table [i]. *)
Definition covered (seen : list element) (st : staging) : Prop :=
  ∀ i elem, elem ∈ seen → active_object elem →
    default "" (attrib elem !! "LEVEL") ∈ levels_of i →
    base_data_of (attrib elem) ∈ batch_of i st ∨
    ∃ k, bigint int8 (attrib elem !! "OBJECTID") = Returns k ∧
         is_Some (common i (store st) k).

Lemma process_addr_objects_covered files d d' i elem :
  process_addr_objects int8 files d = Returns d' →
  elem ∈ events_of files → active_object elem →
  default "" (attrib elem !! "LEVEL") ∈ levels_of i →
  ∃ k, bigint int8 (attrib elem !! "OBJECTID") = Returns k ∧
       is_Some (common i d' k).
Proof.
  intros Hrun Hin Hact Hl.
  assert (covered (events_of files) (Staging d' [] [] [])) as Hcov.
  { apply (process_addr_objects_inv covered) with (d := d); [| | | |done].
    - intros seen st e Hst He j e' [Hseen|Hseen%list_elem_of_singleton]%elem_of_app
        Hact' Hl'; [|subst e'].
      + destruct (Hst j e' Hseen Hact' Hl') as [Hb|Hk].
        * left. by apply route_batches.
        * right. by rewrite store_route.
      + left. by apply route_staged.
    - intros seen st e Hst He j e' [Hseen|Hseen%list_elem_of_singleton]%elem_of_app
        Hact' Hl'; [by apply Hst|by subst e'].
    - intros seen st st' j Hst. unfold flush.
      destruct (insert_into j (store st) (batch_of j st)) as [d1| |] eqn:Hins;
        simpl; [|done..].
      intros [= <-] j' e' Hseen Hact' Hl'.
      rewrite batch_of_emptied, store_emptied.
      destruct (Hst j' e' Hseen Hact' Hl') as [Hb|(k & Hk & Hsome)].
      + case_decide as Hj; [subst j'|by left].
        right. by apply (insert_into_stored _ _ _ _ _ Hins Hb).
      + right. exists k. split; [done|].
        by apply (insert_into_keeps _ _ _ _ _ _ Hins).
    - by intros j e' ?%elem_of_nil. }
  destruct (Hcov i elem Hin Hact Hl) as [Hb|Hk]; [|done].
  destruct i; by apply elem_of_nil in Hb.
Qed.

End staging.

(** X7. Routing by level. A row that [process_addr_objects] adds to
    municipalities carries level 3 or 4, a row it adds to settlements
    level 5 or 6, a row it adds to streets level 7 or 8. *)
Theorem rows_routed_by_level int8 files d d' :
  process_addr_objects int8 files d = Returns d' →
  (∀ k r, municipalities d' !! k = Some r → municipalities d !! k = None →
          level (m_base r) ∈ ["3"; "4"]) ∧
  (∀ k r, settlements d' !! k = Some r → settlements d !! k = None →
          level (s_base r) ∈ ["5"; "6"]) ∧
  (∀ k r, streets d' !! k = Some r → streets d !! k = None →
          level (st_base r) ∈ ["7"; "8"]).
Proof.
  intros Hrun. repeat split; intros k r Hr Hnone.
  - destruct (process_addr_objects_routed int8 files d d' TMunicipalities k
                (m_base r) Hrun) as [Hold|Hl]; simpl; [by rewrite Hr| |done].
    simpl in Hold. by rewrite Hnone in Hold.
  - destruct (process_addr_objects_routed int8 files d d' TSettlements k
                (s_base r) Hrun) as [Hold|Hl]; simpl; [by rewrite Hr| |done].
    simpl in Hold. by rewrite Hnone in Hold.
  - destruct (process_addr_objects_routed int8 files d d' TStreets k
                (st_base r) Hrun) as [Hold|Hl]; simpl; [by rewrite Hr| |done].
    simpl in Hold. by rewrite Hnone in Hold.
Qed.

Lemma rows_routed_by_level_witness :
  ∃ d', process_addr_objects Py.dec_int Scenario.addr_obj create_schema
        = Returns d' ∧
        ∀ k r, streets d' !! k = Some r → level (st_base r) ∈ ["7"; "8"].
Proof.
  destruct (process_addr_objects Py.dec_int Scenario.addr_obj create_schema)
    as [d'| |] eqn:Hrun; [|vm_compute in Hrun; discriminate..].
  exists d'. split; [done|]. intros k r Hr.
  by apply (proj2 (proj2 (rows_routed_by_level _ _ _ _ Hrun)) k r Hr).
Defined.

(** X8. Nothing is lost in the batches. When [process_addr_objects]
    returns, every active OBJECT of the files whose level is routed has its
    OBJECTID in the table of that level, whatever the number of elements
    between two batch inserts. *)
Theorem no_active_object_is_lost int8 files d d' elem :
  process_addr_objects int8 files d = Returns d' →
  elem ∈ events_of files → active_object elem →
  let level := default "" (attrib elem !! "LEVEL") in
  (level ∈ ["3"; "4"] →
     ∃ k, bigint int8 (attrib elem !! "OBJECTID") = Returns k ∧
          is_Some (municipalities d' !! k)) ∧
  (level ∈ ["5"; "6"] →
     ∃ k, bigint int8 (attrib elem !! "OBJECTID") = Returns k ∧
          is_Some (settlements d' !! k)) ∧
  (level ∈ ["7"; "8"] →
     ∃ k, bigint int8 (attrib elem !! "OBJECTID") = Returns k ∧
          is_Some (streets d' !! k)).
Proof.
  intros Hrun Hin Hact level. repeat split; intros Hl.
  - destruct (process_addr_objects_covered int8 files d d' TMunicipalities
                elem Hrun Hin Hact Hl) as (k & Hk & Hsome).
    exists k. split; [done|]. simpl in Hsome. by rewrite fmap_is_Some in Hsome.
  - destruct (process_addr_objects_covered int8 files d d' TSettlements
                elem Hrun Hin Hact Hl) as (k & Hk & Hsome).
    exists k. split; [done|]. simpl in Hsome. by rewrite fmap_is_Some in Hsome.
  - destruct (process_addr_objects_covered int8 files d d' TStreets
                elem Hrun Hin Hact Hl) as (k & Hk & Hsome).
    exists k. split; [done|]. simpl in Hsome. by rewrite fmap_is_Some in Hsome.
Qed.

Lemma no_active_object_is_lost_witness :
  ∃ d', process_addr_objects Py.dec_int Scenario.addr_obj create_schema
        = Returns d' ∧
        is_Some (settlements d' !! 200%Z).
Proof.
  destruct (process_addr_objects Py.dec_int Scenario.addr_obj create_schema)
    as [d'| |] eqn:Hrun; [|vm_compute in Hrun; discriminate..].
  exists d'. split; [done|].
  destruct (no_active_object_is_lost Py.dec_int Scenario.addr_obj
              create_schema d' (Scenario.object "2" "200" "Monetny" "p" "6")
              Hrun) as (_ & Hs & _).
  - apply elem_of_events_of. eexists. split; [apply list_elem_of_here|].
    apply list_elem_of_further, list_elem_of_here.
  - vm_compute. by repeat split.
  - destruct Hs as (k & Hk & Hsome).
    + apply list_elem_of_further, list_elem_of_here.
    + vm_compute in Hk. by injection Hk as <-.
Defined.

End StagerFacts.

(** ** The links of the address objects, row by row *)

(** A loop whose body rewrites the row of its own key, with a row that does
    not depend on the state, rewrites each row of the list once. *)
Lemma for_each_pointwise {S R : Type} (tbl : S → gmap Z R)
    (body : S → Z → result S) (new : Z → R → R) ks st st' :
  (∀ s k s', body s k = Returns s' → tbl s' = alter (new k) k (tbl s)) →
  NoDup ks →
  for_each body st ks = Returns st' →
  ∀ k, tbl st' !! k
       = if decide (k ∈ ks) then new k <$> tbl st !! k else tbl st !! k.
Proof.
  intros Hbody. revert st.
  induction ks as [|x l IH]; intros st Hnodup; simpl.
  - by intros [= <-] k.
  - destruct (body st x) as [s1| |] eqn:Hx; simpl; [|done..].
    apply NoDup_cons in Hnodup as [Hnotin Hnodup].
    intros Hl k. rewrite (IH s1 Hnodup Hl k), (Hbody _ _ _ Hx).
    destruct (decide (k = x)) as [->|Hne].
    + rewrite (decide_False (P := x ∈ l)) by done.
      rewrite (decide_True (P := x ∈ x :: l)) by apply list_elem_of_here.
      apply lookup_alter_eq.
    + rewrite !lookup_alter_ne by done.
      destruct (decide (k ∈ l)) as [Hin|Hout].
      * rewrite decide_True; [done|]. by apply list_elem_of_further.
      * rewrite decide_False; [done|].
        intros [?|?]%elem_of_cons; [by apply Hne|by apply Hout].
Qed.

(** A loop that returns has run its body to the end on every element. *)
Lemma for_each_returns {A S : Type} (body : S → A → result S) l st st' x :
  for_each body st l = Returns st' → x ∈ l → ∃ s s', body s x = Returns s'.
Proof.
  revert st. induction l as [|y l IH]; intros st; simpl.
  - by intros _ ?%elem_of_nil.
  - destruct (body st y) as [s1| |] eqn:Hy; simpl; [|done..].
    intros Hl [->|Hin]%elem_of_cons; [by exists st, s1|].
    by apply (IH s1).
Qed.

Module LinksFacts.

Import Index Store Resolver Links.

Section rows.
Variable int : string → option Z.
Variable idx : index.

(** The row of municipality [k] after its turn in step 1. *)
Definition municipality_row (k : Z) (r : municipality) : municipality :=
  match find_mo_parent int idx k with
  | Returns parent_id =>
      if Py.truthy_int parent_id && bool_decide (parent_id ≠ Some k)
      then set_parent_id parent_id r else r
  | _ => r
  end.

(** The row of settlement [k] after its turn in step 2. *)
Definition settlement_row (k : Z) (r : settlement) : settlement :=
  match find_mo_parent int idx k with
  | Returns mo_id =>
      if Py.truthy_int mo_id then set_s_municipality_id mo_id r else r
  | _ => r
  end.

(** The row of street [k] after its turn in step 3. *)
Definition street_row (k : Z) (r : street) : street :=
  match find_parent_by_level int idx k ["5"; "6"] with
  | Returns settlement_id =>
      if Py.truthy_int settlement_id
      then set_st_settlement_id settlement_id r else r
  | _ => r
  end.

Lemma link_municipality_alter d d' k :
  link_municipality int idx d k = Returns d' →
  municipalities d' = alter (municipality_row k) k (municipalities d) ∧
  settlements d' = settlements d ∧ streets d' = streets d.
Proof.
  unfold link_municipality, municipality_row.
  destruct (find_mo_parent int idx k) as [p| |]; simpl; [|done..].
  destruct (Py.truthy_int p && bool_decide (p ≠ Some k)); intros [= <-]; simpl.
  - done.
  - by rewrite alter_id.
Qed.

Lemma link_settlement_alter d d' k :
  link_settlement int idx d k = Returns d' →
  settlements d' = alter (settlement_row k) k (settlements d) ∧
  streets d' = streets d.
Proof.
  unfold link_settlement, settlement_row.
  destruct (find_mo_parent int idx k) as [m| |]; simpl; [|done..].
  destruct (Py.truthy_int m); intros [= <-]; simpl.
  - done.
  - by rewrite alter_id.
Qed.

Lemma link_street_alter d d' k :
  link_street int idx d k = Returns d' →
  streets d' = alter (street_row k) k (streets d) ∧
  settlements d' = settlements d.
Proof.
  unfold link_street, street_row.
  destruct (find_parent_by_level int idx k ["5"; "6"]) as [s| |];
    simpl; [|done..].
  destruct (Py.truthy_int s); intros [= <-]; simpl.
  - done.
  - by rewrite alter_id.
Qed.

(** The three loops of [build_hierarchy_links_fixed], table by table. *)
Lemma build_hierarchy_links_fixed_rows d d' :
  build_hierarchy_links_fixed int idx d = Returns d' →
  (∀ k, municipalities d' !! k = municipality_row k <$> municipalities d !! k) ∧
  (∀ k, settlements d' !! k = settlement_row k <$> settlements d !! k) ∧
  (∀ k, streets d' !! k
        = street_via_settlement (settlements d') ∘ street_row k <$> streets d !! k).
Proof.
  unfold build_hierarchy_links_fixed.
  destruct (for_each (link_municipality int idx) d (objectids (municipalities d)))
    as [d1| |] eqn:H1; simpl; [|done..].
  destruct (for_each (link_settlement int idx) d1 (objectids (settlements d1)))
    as [d2| |] eqn:H2; simpl; [|done..].
  destruct (for_each (link_street int idx) d2 (objectids (streets d2)))
    as [d3| |] eqn:H3; simpl; [|done..].
  intros [= <-]. simpl.
  assert (settlements d1 = settlements d ∧ streets d1 = streets d) as [Hs1 Hst1].
  { eapply (for_each_invariant
              (λ s, settlements s = settlements d ∧ streets s = streets d)
              _ _ d);
      [done| |exact H1].
    intros s x s' _ [Hs Hst] (_ & -> & ->)%link_municipality_alter. done. }
  assert (municipalities d2 = municipalities d1 ∧ streets d2 = streets d1)
    as [Hm2 Hst2].
  { eapply (for_each_invariant
              (λ s, municipalities s = municipalities d1 ∧ streets s = streets d1)
              _ _ d1);
      [done| |exact H2].
    intros s x s' _ [Hm Hst] Hx.
    rewrite (link_settlement_municipalities _ _ _ _ _ Hx).
    apply link_settlement_alter in Hx as [_ ->]. done. }
  assert (municipalities d3 = municipalities d2 ∧ settlements d3 = settlements d2)
    as [Hm3 Hs3].
  { eapply (for_each_invariant
              (λ s, municipalities s = municipalities d2 ∧
                    settlements s = settlements d2) _ _ d2);
      [done| |exact H3].
    intros s x s' _ [Hm Hs] Hx.
    rewrite (link_street_municipalities _ _ _ _ _ Hx).
    apply link_street_alter in Hx as [_ ->]. done. }
  pose proof (for_each_pointwise municipalities _ municipality_row _ _ _
                (λ s k s' H, proj1 (link_municipality_alter s s' k H))
                (NoDup_fst_map_to_list _) H1) as Hmun.
  pose proof (for_each_pointwise settlements _ settlement_row _ _ _
                (λ s k s' H, proj1 (link_settlement_alter s s' k H))
                (NoDup_fst_map_to_list _) H2) as Hset.
  pose proof (for_each_pointwise streets _ street_row _ _ _
                (λ s k s' H, proj1 (link_street_alter s s' k H))
                (NoDup_fst_map_to_list _) H3) as Hstr.
  split; [|split]; intros k.
  - rewrite Hm3, Hm2, Hmun. case_decide as Hk; [done|].
    destruct (municipalities d !! k) as [r|] eqn:Hr; [|done].
    exfalso. apply Hk, elem_of_objectids. by exists r.
  - rewrite Hs3, Hset, Hs1. case_decide as Hk; [done|].
    destruct (settlements d !! k) as [r|] eqn:Hr; [|done].
    exfalso. apply Hk, elem_of_objectids. by exists r.
  - rewrite lookup_fmap, Hstr, Hst2, Hst1, Hs3. case_decide as Hk.
    + by destruct (streets d !! k).
    + destruct (streets d !! k) as [r|] eqn:Hr; [|done].
      exfalso. apply Hk, elem_of_objectids. by exists r.
Qed.

(** A run that returns has resolved every row. *)
Lemma build_hierarchy_links_fixed_resolved d d' :
  build_hierarchy_links_fixed int idx d = Returns d' →
  (∀ k, is_Some (municipalities d !! k) →
        ∃ parent_id, find_mo_parent int idx k = Returns parent_id) ∧
  (∀ k, is_Some (settlements d !! k) →
        ∃ mo_id, find_mo_parent int idx k = Returns mo_id) ∧
  (∀ k, is_Some (streets d !! k) →
        ∃ settlement_id,
          find_parent_by_level int idx k ["5"; "6"] = Returns settlement_id).
Proof.
  intros Hrun. pose proof Hrun as Hrows.
  apply build_hierarchy_links_fixed_rows in Hrows as (Hmun & Hset & Hstr).
  unfold build_hierarchy_links_fixed in Hrun.
  destruct (for_each (link_municipality int idx) d (objectids (municipalities d)))
    as [d1| |] eqn:H1; simpl in Hrun; [|done..].
  destruct (for_each (link_settlement int idx) d1 (objectids (settlements d1)))
    as [d2| |] eqn:H2; simpl in Hrun; [|done..].
  destruct (for_each (link_street int idx) d2 (objectids (streets d2)))
    as [d3| |] eqn:H3; simpl in Hrun; [|done..].
  assert (settlements d1 = settlements d ∧ streets d1 = streets d) as [Hs1 Hst1].
  { eapply (for_each_invariant
              (λ s, settlements s = settlements d ∧ streets s = streets d)
              _ _ d);
      [done| |exact H1].
    intros s x s' _ [Hs Hst] (_ & -> & ->)%link_municipality_alter. done. }
  assert (streets d2 = streets d1) as Hst2.
  { eapply (for_each_invariant (λ s, streets s = streets d1) _ _ d1);
      [done| |exact H2].
    intros s x s' _ Hst Hx. apply link_settlement_alter in Hx as [_ ->]. done. }
  split; [|split]; intros k Hk.
  - destruct (for_each_returns _ _ _ _ k H1) as (s & s' & Hbody);
      [by apply elem_of_objectids|].
    unfold link_municipality in Hbody.
    destruct (find_mo_parent int idx k) as [p| |]; [by exists p|done..].
  - destruct (for_each_returns _ _ _ _ k H2) as (s & s' & Hbody);
      [apply elem_of_objectids; by rewrite Hs1|].
    unfold link_settlement in Hbody.
    destruct (find_mo_parent int idx k) as [m| |]; [by exists m|done..].
  - destruct (for_each_returns _ _ _ _ k H3) as (s & s' & Hbody);
      [apply elem_of_objectids; by rewrite Hst2, Hst1|].
    unfold link_street in Hbody.
    destruct (find_parent_by_level int idx k ["5"; "6"]) as [sid| |];
      [by exists sid|done..].
Qed.

End rows.

(** X9. Step 1 of [build_hierarchy_links_fixed], row by row: the run
    finds a parent for every municipality of the table without raising,
    and writes it as parent_id when it is a non-zero id other than the
    municipality's own; otherwise the row stays as it was. *)
Theorem municipality_links int idx d d' k r :
  build_hierarchy_links_fixed int idx d = Returns d' →
  municipalities d !! k = Some r →
  ∃ parent_id,
    find_mo_parent int idx k = Returns parent_id ∧
    municipalities d' !! k
    = Some (if Py.truthy_int parent_id && bool_decide (parent_id ≠ Some k)
            then set_parent_id parent_id r else r).
Proof.
  intros Hrun Hr.
  destruct (build_hierarchy_links_fixed_resolved int idx d d' Hrun)
    as (Hres & _ & _).
  destruct (Hres k) as [parent_id Hp]; [by exists r|].
  exists parent_id. split; [done|].
  destruct (build_hierarchy_links_fixed_rows int idx d d' Hrun) as (-> & _ & _).
  rewrite Hr. simpl. unfold municipality_row. by rewrite Hp.
Qed.

Lemma municipality_links_witness :
  ∃ d', build_hierarchy_links_fixed Py.dec_int scenario_index scenario_store
        = Returns d' ∧
        m_parent_id <$> municipalities d' !! 100%Z = Some None.
Proof.
  destruct (build_hierarchy_links_fixed Py.dec_int scenario_index scenario_store)
    as [d'| |] eqn:Hrun; [|vm_compute in Hrun; discriminate..].
  exists d'. split; [done|].
  destruct (municipalities scenario_store !! 100%Z) as [r|] eqn:Hr;
    [|vm_compute in Hr; discriminate].
  destruct (municipality_links _ _ _ _ _ _ Hrun Hr) as (p & Hp & ->).
  vm_compute in Hp. injection Hp as <-.
  vm_compute in Hr. injection Hr as <-. reflexivity.
Defined.

(** X10. Step 2, row by row: the run finds the municipality of every
    settlement of the table without raising, and writes it as
    municipality_id when it is a non-zero id; otherwise the row stays as
    it was. *)
Theorem settlement_links int idx d d' k r :
  build_hierarchy_links_fixed int idx d = Returns d' →
  settlements d !! k = Some r →
  ∃ mo_id,
    find_mo_parent int idx k = Returns mo_id ∧
    settlements d' !! k
    = Some (if Py.truthy_int mo_id then set_s_municipality_id mo_id r else r).
Proof.
  intros Hrun Hr.
  destruct (build_hierarchy_links_fixed_resolved int idx d d' Hrun)
    as (_ & Hres & _).
  destruct (Hres k) as [mo_id Hm]; [by exists r|].
  exists mo_id. split; [done|].
  destruct (build_hierarchy_links_fixed_rows int idx d d' Hrun) as (_ & -> & _).
  rewrite Hr. simpl. unfold settlement_row. by rewrite Hm.
Qed.

Lemma settlement_links_witness :
  ∃ d', build_hierarchy_links_fixed Py.dec_int scenario_index scenario_store
        = Returns d' ∧
        s_municipality_id <$> settlements d' !! 200%Z = Some (Some 100%Z).
Proof.
  destruct (build_hierarchy_links_fixed Py.dec_int scenario_index scenario_store)
    as [d'| |] eqn:Hrun; [|vm_compute in Hrun; discriminate..].
  exists d'. split; [done|].
  destruct (settlements scenario_store !! 200%Z) as [r|] eqn:Hr;
    [|vm_compute in Hr; discriminate].
  destruct (settlement_links _ _ _ _ _ _ Hrun Hr) as (m & Hm & ->).
  vm_compute in Hm. injection Hm as <-. reflexivity.
Defined.

(** X11. Steps 3 and 4, row by row: the run finds the settlement of every
    street of the table without raising, writes it as settlement_id when
    it is a non-zero id, and then copies to the street the municipality of
    the settlement it references, when that settlement has one. *)
Theorem street_links int idx d d' k r :
  build_hierarchy_links_fixed int idx d = Returns d' →
  streets d !! k = Some r →
  ∃ settlement_id,
    find_parent_by_level int idx k ["5"; "6"] = Returns settlement_id ∧
    streets d' !! k
    = Some (street_via_settlement (settlements d')
              (if Py.truthy_int settlement_id
               then set_st_settlement_id settlement_id r else r)).
Proof.
  intros Hrun Hr.
  destruct (build_hierarchy_links_fixed_resolved int idx d d' Hrun)
    as (_ & _ & Hres).
  destruct (Hres k) as [settlement_id Hs]; [by exists r|].
  exists settlement_id. split; [done|].
  destruct (build_hierarchy_links_fixed_rows int idx d d' Hrun) as (_ & _ & ->).
  rewrite Hr. simpl. unfold street_row. by rewrite Hs.
Qed.

Lemma street_links_witness :
  ∃ d', build_hierarchy_links_fixed Py.dec_int scenario_index scenario_store
        = Returns d' ∧
        (λ r, (st_settlement_id r, st_municipality_id r)) <$> streets d' !! 300%Z
        = Some (Some 200%Z, Some 100%Z).
Proof.
  destruct (build_hierarchy_links_fixed Py.dec_int scenario_index scenario_store)
    as [d'| |] eqn:Hrun; [|vm_compute in Hrun; discriminate..].
  exists d'. split; [done|].
  destruct (streets scenario_store !! 300%Z) as [r|] eqn:Hr;
    [|vm_compute in Hr; discriminate].
  destruct (street_links _ _ _ _ _ _ Hrun Hr) as (s & Hs & ->).
  vm_compute in Hs. injection Hs as <-.
  vm_compute in Hrun. injection Hrun as <-. reflexivity.
Defined.

(** X12. After [build_hierarchy_links_fixed] a street agrees with its
    settlement: when the settlement that a street references is in the
    table and has a municipality, the street carries the same
    municipality. *)
Theorem streets_agree_with_settlements int idx d d' k r settlement_id s mo_id :
  build_hierarchy_links_fixed int idx d = Returns d' →
  streets d' !! k = Some r →
  st_settlement_id r = Some settlement_id →
  settlements d' !! settlement_id = Some s →
  s_municipality_id s = Some mo_id →
  st_municipality_id r = Some mo_id.
Proof.
  intros Hrun Hr Hsid Hs Hmo.
  destruct (build_hierarchy_links_fixed_rows int idx d d' Hrun) as (_ & _ & Hstr).
  rewrite Hstr in Hr. apply fmap_Some in Hr as (r0 & _ & ->).
  simpl in *. unfold street_via_settlement in *.
  destruct (st_settlement_id (street_row int idx k r0)) as [sid|] eqn:Hsid0.
  - destruct (settlements d' !! sid) as [s0|] eqn:Hs0.
    + destruct (s_municipality_id s0) as [m0|] eqn:Hm0; simpl in *.
      * injection Hsid as ->. rewrite Hs in Hs0. injection Hs0 as <-.
        by rewrite Hmo in Hm0.
      * rewrite Hsid0 in Hsid. injection Hsid as ->. rewrite Hs in Hs0.
        injection Hs0 as <-. by rewrite Hmo in Hm0.
    + rewrite Hsid0 in Hsid. injection Hsid as ->. by rewrite Hs in Hs0.
  - by rewrite Hsid0 in Hsid.
Qed.

Lemma streets_agree_with_settlements_witness :
  ∃ d' r, build_hierarchy_links_fixed Py.dec_int scenario_index scenario_store
          = Returns d' ∧
          streets d' !! 300%Z = Some r ∧ st_municipality_id r = Some 100%Z.
Proof.
  destruct (build_hierarchy_links_fixed Py.dec_int scenario_index scenario_store)
    as [d'| |] eqn:Hrun; [|vm_compute in Hrun; discriminate..].
  destruct (streets d' !! 300%Z) as [r|] eqn:Hr;
    [|vm_compute in Hrun; injection Hrun as <-; vm_compute in Hr; discriminate].
  destruct (settlements d' !! 200%Z) as [s|] eqn:Hs;
    [|vm_compute in Hrun; injection Hrun as <-; vm_compute in Hs; discriminate].
  exists d', r. split; [done|]. split; [done|].
  apply (streets_agree_with_settlements _ _ _ _ _ _ 200%Z s _ Hrun Hr).
  - vm_compute in Hrun. injection Hrun as <-. vm_compute in Hr.
    by injection Hr as <-.
  - done.
  - vm_compute in Hrun. injection Hrun as <-. vm_compute in Hs.
    by injection Hs as <-.
Defined.

End LinksFacts.

(** ** The one failure of the parent search *)

Module Failures.

Import Index Resolver.

Section failures.
Variable int : string → option Z.
Variable idx : index.

Lemma to_int_raises s e : to_int int s = Raises e → e = ValueError.
Proof. unfold to_int. destruct (int s); [done|]. by intros [= <-]. Qed.

Lemma find_parent_by_level_raises objectid levels e :
  find_parent_by_level int idx objectid levels = Raises e →
  e = ValueError ∧
  ∃ n a, first_at_level idx levels (Py.str objectid) n a ∧ int a = None.
Proof.
  intros Hr.
  destruct (ResolverFacts.find_outcome int idx objectid levels)
    as [Hnone|(n & a & Hfst & Ha)]; [by rewrite Hnone in Hr|].
  rewrite Ha in Hr. split; [by apply (to_int_raises a)|].
  exists n, a. split; [done|]. unfold to_int in Hr. by destruct (int a).
Qed.

Lemma find_mo_parent_raises objectid e :
  find_mo_parent int idx objectid = Raises e → e = ValueError.
Proof.
  intros Hr.
  apply (find_parent_by_level_raises objectid ["3"; "4"] e).
  rewrite <- Hr. unfold find_mo_parent, find_parent_by_level.
  case_decide; [done|]. destruct (Py.level_in _ _); [done|].
  symmetry. apply climb_mo_climb.
Qed.

End failures.

(** X13. The search fails in one way only. For an id other than 0, on a
    parent map without empty parents, [find_parent_by_level] raises an
    exception if and only if the first object of the walk at a target
    level has an id that [int] rejects, and the exception is then
    ValueError. *)
Theorem failure_is_value_error int idx objectid levels e :
  parents_nonempty idx →
  objectid ≠ 0%Z →
  find_parent_by_level int idx objectid levels = Raises e ↔
  e = ValueError ∧
  ∃ n a, first_at_level idx levels (Py.str objectid) n a ∧ int a = None.
Proof.
  intros Hne Hid. split; [apply find_parent_by_level_raises|].
  intros (-> & n & a & Hfst & Ha).
  rewrite (ResolverFacts.find_parent_by_level_first int idx objectid levels n a)
    by done.
  unfold to_int. by rewrite Ha.
Qed.

(** A street whose id is not a number: 400 -> "7a", at level 7. *)
Definition lettered_index : index :=
  MkIndex (<["400" := "7a"]> ∅) (<["7a" := "7"]> ∅).

Lemma failure_is_value_error_witness :
  find_parent_by_level Py.dec_int lettered_index 400 ["7"; "8"]
  = Raises ValueError.
Proof.
  apply (failure_is_value_error Py.dec_int lettered_index 400 ["7"; "8"]).
  - apply map_Forall_to_list. vm_compute. repeat constructor. discriminate.
  - lia.
  - split; [done|]. exists 1, "7a". split; [|reflexivity].
    split; [reflexivity|]. split; [reflexivity|].
    intros j b Hj. destruct j as [|j]; [|lia]. intros [= <-]. vm_compute.
    discriminate.
Defined.

End Failures.

(** ** The links of the houses, row by row *)

Lemma for_each_raises {A S : Type} (body : S → A → result S) l st e :
  for_each body st l = Raises e → ∃ s x, x ∈ l ∧ body s x = Raises e.
Proof.
  revert st. induction l as [|y l IH]; intros st; simpl; [done|].
  destruct (body st y) as [s1| |] eqn:Hy; simpl.
  - intros (s & x & Hin & Hx)%IH. exists s, x.
    split; [by apply list_elem_of_further|done].
  - intros [= <-]. exists st, y. split; [apply list_elem_of_here|done].
  - done.
Qed.

Module HousesFacts.

Import Index Store Resolver Houses.

Section rows.
Variable int : string → option Z.
Variable idx : index.

(** The row of house [k] after its update, if it has one. *)
Definition linked_row (k : Z) (h : house) : house :=
  match find_parent_by_level int idx k ["7"; "8"],
        find_parent_by_level int idx k ["5"; "6"],
        find_mo_parent int idx k with
  | Returns street_id, Returns settlement_id, Returns mo_id =>
      if Py.truthy_int street_id || Py.truthy_int settlement_id
         || Py.truthy_int mo_id
      then set_links street_id settlement_id mo_id h else h
  | _, _, _ => h
  end.

(** The houses table once the pending updates are executed. *)
Definition pending_links (st : db * list (option Z * option Z * option Z * Z))
  : gmap Z house :=
  houses (execute_house_updates_batch st.1 st.2).

Lemma link_house_alter st st' k :
  link_house int idx st k = Returns st' →
  pending_links st' = alter (linked_row k) k (pending_links st).
Proof.
  destruct st as [d batch_updates]. unfold link_house, linked_row, pending_links.
  destruct (find_parent_by_level int idx k ["7"; "8"]) as [s| |];
    simpl; [|done..].
  destruct (find_parent_by_level int idx k ["5"; "6"]) as [t| |];
    simpl; [|done..].
  destruct (find_mo_parent int idx k) as [m| |]; simpl; [|done..].
  destruct (Py.truthy_int s || Py.truthy_int t || Py.truthy_int m).
  - destruct (reached update_batch_size (batch_updates ++ [(s, t, m, k)]));
      intros [= <-]; simpl; by rewrite foldl_app.
  - destruct (reached update_batch_size batch_updates);
      intros [= <-]; simpl; by rewrite alter_id.
Qed.

Lemma link_house_returns st st' k :
  link_house int idx st k = Returns st' →
  ∃ street_id settlement_id mo_id,
    find_parent_by_level int idx k ["7"; "8"] = Returns street_id ∧
    find_parent_by_level int idx k ["5"; "6"] = Returns settlement_id ∧
    find_mo_parent int idx k = Returns mo_id.
Proof.
  destruct st as [d batch_updates]. unfold link_house.
  destruct (find_parent_by_level int idx k ["7"; "8"]) as [s| |];
    simpl; [|done..].
  destruct (find_parent_by_level int idx k ["5"; "6"]) as [t| |];
    simpl; [|done..].
  destruct (find_mo_parent int idx k) as [m| |]; simpl; [|done..].
  intros _. by exists s, t, m.
Qed.

Lemma link_house_raises st k e :
  link_house int idx st k = Raises e → e = ValueError.
Proof.
  destruct st as [d batch_updates]. unfold link_house.
  destruct (find_parent_by_level int idx k ["7"; "8"]) as [s| |] eqn:Hs; simpl.
  - destruct (find_parent_by_level int idx k ["5"; "6"]) as [t| |] eqn:Ht; simpl.
    + destruct (find_mo_parent int idx k) as [m| |] eqn:Hm; simpl.
      * by destruct (reached _ _).
      * intros [= <-]. by apply Failures.find_mo_parent_raises in Hm.
      * done.
    + intros [= <-].
      by apply Failures.find_parent_by_level_raises in Ht as [? _].
    + done.
  - intros [= <-]. by apply Failures.find_parent_by_level_raises in Hs as [? _].
  - done.
Qed.

(** The table after the loop and the last batch. *)
Lemma link_houses_loop d st :
  for_each (link_house int idx) (d, []) (objectids (houses d)) = Returns st →
  ∀ k, houses (match st.2 with
               | [] => st.1
               | _ => execute_house_updates_batch st.1 st.2
               end) !! k
       = linked_row k <$> houses d !! k.
Proof.
  intros Hloop k.
  pose proof (for_each_pointwise pending_links _ linked_row _ _ _
                (λ s x s', link_house_alter s s' x)
                (NoDup_fst_map_to_list _) Hloop k) as Hk.
  assert (houses (match st.2 with
                  | [] => st.1
                  | _ => execute_house_updates_batch st.1 st.2
                  end) = pending_links st) as ->.
  { unfold pending_links. by destruct st.2. }
  rewrite Hk. unfold pending_links. simpl. case_decide as Hin; [done|].
  destruct (houses d !! k) as [h|] eqn:Hh; [|done].
  exfalso. apply Hin, elem_of_objectids. by exists h.
Qed.

Lemma link_houses_to_hierarchy_fixed_rows d d' :
  link_houses_to_hierarchy_fixed int idx d = Returns d' →
  houses d ≠ ∅ ∧ ∀ k, houses d' !! k = linked_row k <$> houses d !! k.
Proof.
  unfold link_houses_to_hierarchy_fixed.
  destruct (for_each (link_house int idx) (d, []) (objectids (houses d)))
    as [st| |] eqn:Hloop; simpl; [|done..].
  pose proof (link_houses_loop d st Hloop) as Hrows.
  unfold diagnose_house_connections_fixed. case_decide as Hsize; [done|].
  intros [= <-]. split; [|done].
  intros Hempty. apply Hsize, map_size_empty_iff, map_empty. intros k.
  by rewrite Hrows, Hempty, lookup_empty.
Qed.

End rows.

(** X14. [link_houses_to_hierarchy_fixed], row by row: a run that returns
    has found the three parents of every house without raising; when one
    of them is a non-zero id the house receives the three answers as
    street_id, settlement_id and municipality_id (a missing one is written
    as NULL), otherwise the row stays as it was. The batches of 1000 do not
    show in the result. *)
Theorem house_links int idx d d' k h :
  link_houses_to_hierarchy_fixed int idx d = Returns d' →
  houses d !! k = Some h →
  ∃ street_id settlement_id mo_id,
    find_parent_by_level int idx k ["7"; "8"] = Returns street_id ∧
    find_parent_by_level int idx k ["5"; "6"] = Returns settlement_id ∧
    find_mo_parent int idx k = Returns mo_id ∧
    houses d' !! k
    = Some (if Py.truthy_int street_id || Py.truthy_int settlement_id
               || Py.truthy_int mo_id
            then set_links street_id settlement_id mo_id h else h).
Proof.
  intros Hrun Hh.
  destruct (link_houses_to_hierarchy_fixed_rows int idx d d' Hrun) as [_ Hrows].
  unfold link_houses_to_hierarchy_fixed in Hrun.
  destruct (for_each (link_house int idx) (d, []) (objectids (houses d)))
    as [st| |] eqn:Hloop; simpl in Hrun; [|done..].
  destruct (for_each_returns _ _ _ _ k Hloop) as (s0 & s1 & Hbody);
    [apply elem_of_objectids; by exists h|].
  apply link_house_returns in Hbody as (s & t & m & Hs & Ht & Hm).
  exists s, t, m. repeat (split; [done|]).
  rewrite Hrows, Hh. simpl. unfold linked_row. by rewrite Hs, Ht, Hm.
Qed.

(** The store of Scenario 1 after [process_addr_objects] and
    [process_houses]. *)
Definition scenario_houses_store : db :=
  match process_houses Py.dec_int Py.upper_ascii Scenario.houses
          Links.scenario_store with
  | Returns d => d
  | _ => create_schema
  end.

Lemma house_links_witness :
  ∃ d', link_houses_to_hierarchy_fixed Py.dec_int scenario_index
          scenario_houses_store = Returns d' ∧
        (λ h, (h_street_id h, h_settlement_id h, h_municipality_id h))
          <$> houses d' !! 400%Z
        = Some (Some 300%Z, Some 200%Z, Some 100%Z).
Proof.
  destruct (link_houses_to_hierarchy_fixed Py.dec_int scenario_index
              scenario_houses_store) as [d'| |] eqn:Hrun;
    [|vm_compute in Hrun; discriminate..].
  exists d'. split; [done|].
  destruct (houses scenario_houses_store !! 400%Z) as [h|] eqn:Hh;
    [|vm_compute in Hh; discriminate].
  destruct (house_links _ _ _ _ _ _ Hrun Hh) as (s & t & m & Hs & Ht & Hm & ->).
  vm_compute in Hs. injection Hs as <-.
  vm_compute in Ht. injection Ht as <-.
  vm_compute in Hm. injection Hm as <-.
  reflexivity.
Defined.

(** X15. Division by zero. [link_houses_to_hierarchy_fixed] raises
    ZeroDivisionError if and only if the houses table is empty: the
    diagnostics that end it divide by the number of houses. *)
Theorem no_house_division_by_zero int idx d :
  link_houses_to_hierarchy_fixed int idx d = Raises ZeroDivisionError ↔
  houses d = ∅.
Proof.
  split.
  - unfold link_houses_to_hierarchy_fixed.
    destruct (for_each (link_house int idx) (d, []) (objectids (houses d)))
      as [st|e|] eqn:Hloop; simpl; [| |done].
    + pose proof (link_houses_loop int idx d st Hloop) as Hrows.
      unfold diagnose_house_connections_fixed. case_decide as Hsize; [|done].
      intros _. apply map_empty. intros k.
      apply map_size_empty_iff in Hsize.
      specialize (Hrows k). rewrite Hsize, lookup_empty in Hrows.
      by destruct (houses d !! k).
    + intros [= ->].
      apply for_each_raises in Hloop as (s & x & _ & Hx).
      by apply link_house_raises in Hx.
  - intros Hempty. unfold link_houses_to_hierarchy_fixed, objectids.
    rewrite Hempty, map_to_list_empty. simpl.
    unfold diagnose_house_connections_fixed.
    rewrite decide_True; [done|]. simpl. by rewrite Hempty.
Qed.

(** *** The repairs *)

Lemma house_via_settlement_twice settlements h :
  house_via_settlement settlements (house_via_settlement settlements h)
  = house_via_settlement settlements h.
Proof.
  unfold house_via_settlement at 2 3.
  destruct (h_municipality_id h) as [m|] eqn:Hm.
  - unfold house_via_settlement. by rewrite Hm.
  - destruct (h_settlement_id h) as [sid|] eqn:Hsid.
    + destruct (settlements !! sid) as [s|] eqn:Hs.
      * destruct (s_municipality_id s) as [mo|] eqn:Hmo.
        -- done.
        -- unfold house_via_settlement. by rewrite Hm, Hsid, Hs, Hmo.
      * unfold house_via_settlement. by rewrite Hm, Hsid, Hs.
    + unfold house_via_settlement. by rewrite Hm, Hsid.
Qed.

Lemma plot_via_settlement_twice settlements lp :
  plot_via_settlement settlements (plot_via_settlement settlements lp)
  = plot_via_settlement settlements lp.
Proof.
  unfold plot_via_settlement at 2 3.
  destruct (lp_municipality_id lp) as [m|] eqn:Hm.
  - unfold plot_via_settlement. by rewrite Hm.
  - destruct (lp_settlement_id lp) as [sid|] eqn:Hsid.
    + destruct (settlements !! sid) as [s|] eqn:Hs.
      * destruct (s_municipality_id s) as [mo|] eqn:Hmo.
        -- done.
        -- unfold plot_via_settlement. by rewrite Hm, Hsid, Hs, Hmo.
      * unfold plot_via_settlement. by rewrite Hm, Hsid, Hs.
    + unfold plot_via_settlement. by rewrite Hm, Hsid.
Qed.

(** X16. [fix_municipality_links] fills and never overwrites: a house or
    a land plot that has a municipality keeps its row, the three tables of
    address objects are not touched, and running the repair a second time
    changes nothing. *)
Theorem fix_municipality_links_fills_once d :
  (∀ k h, houses d !! k = Some h → h_municipality_id h ≠ None →
          houses (fix_municipality_links d) !! k = Some h) ∧
  (∀ k lp, land_plots d !! k = Some lp → lp_municipality_id lp ≠ None →
           land_plots (fix_municipality_links d) !! k = Some lp) ∧
  municipalities (fix_municipality_links d) = municipalities d ∧
  settlements (fix_municipality_links d) = settlements d ∧
  streets (fix_municipality_links d) = streets d ∧
  fix_municipality_links (fix_municipality_links d) = fix_municipality_links d.
Proof.
  split; [|split; [|split; [done|split; [done|split; [done|]]]]].
  - intros k h Hh Hm. unfold fix_municipality_links. simpl.
    rewrite lookup_fmap, Hh. simpl. unfold house_via_settlement.
    by destruct (h_municipality_id h).
  - intros k lp Hlp Hm. unfold fix_municipality_links. simpl.
    rewrite lookup_fmap, Hlp. simpl. unfold plot_via_settlement.
    by destruct (lp_municipality_id lp).
  - unfold fix_municipality_links, with_houses, with_land_plots. simpl.
    rewrite <- !map_fmap_compose. f_equal.
    + apply map_fmap_ext. intros k h _. apply house_via_settlement_twice.
    + apply map_fmap_ext. intros k lp _. apply plot_via_settlement_twice.
Qed.

Section residual.
Variable int : string → option Z.
Variable idx : index.

(** The row of a house of [remaining_houses] after its update, if it has
    one. *)
Definition remaining_row (k : Z) (h : house) : house :=
  match find_parent_by_level int idx k ["3"; "4"] with
  | Returns (Some mo_id) =>
      if Py.truthy_int (Some mo_id)
      then set_h_municipality_id (Some mo_id) h else h
  | _ => h
  end.

Definition pending_mo (st : db * list (Z * Z)) : gmap Z house :=
  houses (execute_mo_updates_batch st.1 st.2).

Lemma lookup_remaining_alter st st' k :
  lookup_remaining int idx st k = Returns st' →
  pending_mo st' = alter (remaining_row k) k (pending_mo st).
Proof.
  destruct st as [d batch_updates]. unfold lookup_remaining, remaining_row, pending_mo.
  destruct (find_parent_by_level int idx k ["3"; "4"]) as [[m|]| |];
    simpl; [| |done..].
  - destruct (bool_decide (m ≠ 0%Z)).
    + destruct (reached update_batch_size (batch_updates ++ [(m, k)]));
        intros [= <-]; simpl; by rewrite foldl_app.
    + destruct (reached update_batch_size batch_updates);
        intros [= <-]; simpl; by rewrite alter_id.
  - destruct (reached update_batch_size batch_updates);
      intros [= <-]; simpl; by rewrite alter_id.
Qed.

Lemma remaining_houses_NoDup d : NoDup (remaining_houses d).
Proof.
  unfold remaining_houses, objectids.
  apply (sublist_NoDup _ _
           (NoDup_fst_map_to_list
              (filter (λ kh, h_municipality_id kh.2 = None) (houses d)))),
    sublist_take.
Qed.

Lemma fix_final_mo_connections_rows d d' :
  fix_final_mo_connections int idx d = Returns d' →
  let d1 := with_houses d (house_via_street (streets d) <$> houses d) in
  ∀ k, houses d' !! k
       = (if decide (k ∈ remaining_houses d1) then remaining_row k else id)
         <$> (house_via_street (streets d) <$> houses d !! k).
Proof.
  unfold fix_final_mo_connections. intros Hrun. cbv zeta. intros k.
  set (d1 := with_houses d (house_via_street (streets d) <$> houses d)) in *.
  destruct (for_each (lookup_remaining int idx) (d1, []) (remaining_houses d1))
    as [st| |] eqn:Hloop; simpl in Hrun; [|done..].
  pose proof (for_each_pointwise pending_mo _ remaining_row _ _ _
                (λ s x s', lookup_remaining_alter s s' x)
                (remaining_houses_NoDup d1) Hloop k) as Hk.
  assert (houses d' = pending_mo st) as ->.
  { unfold pending_mo. destruct st as [d2 [|u batch]]; simpl in *;
      by injection Hrun as <-. }
  rewrite Hk. unfold pending_mo, d1. simpl. rewrite lookup_fmap.
  destruct (decide (k ∈ remaining_houses
                         (with_houses d
                            (house_via_street (streets d) <$> houses d))));
    [done|].
  by destruct (houses d !! k).
Qed.

Lemma remaining_houses_all d k h :
  (Z.of_nat (size (houses d)) ≤ 50000)%Z →
  houses d !! k = Some h → h_municipality_id h = None →
  k ∈ remaining_houses d.
Proof.
  intros Hsize Hh Hnull. unfold remaining_houses.
  rewrite take_ge.
  - apply elem_of_objectids. exists h. by apply map_lookup_filter_Some.
  - unfold objectids. rewrite length_fmap, length_map_to_list.
    etrans; [apply map_subseteq_size, map_filter_subseteq|]. lia.
Qed.

End residual.

(** X17. [fix_final_mo_connections] never overwrites: a house that has a
    municipality keeps its row. *)
Theorem fix_final_keeps_municipality int idx d d' k h mo_id :
  fix_final_mo_connections int idx d = Returns d' →
  houses d !! k = Some h →
  h_municipality_id h = Some mo_id →
  houses d' !! k = Some h.
Proof.
  intros Hrun Hh Hm.
  rewrite (fix_final_mo_connections_rows int idx d d' Hrun k), Hh. simpl.
  assert (house_via_street (streets d) h = h) as Hsame.
  { unfold house_via_street. by rewrite Hm. }
  rewrite Hsame. case_decide as Hin; [|done].
  apply remaining_houses_null in Hin as (h' & Hh' & Hnull).
  simpl in Hh'. rewrite lookup_fmap, Hh in Hh'. simpl in Hh'.
  rewrite Hsame in Hh'. injection Hh' as <-. by rewrite Hm in Hnull.
Qed.

(** The store of Scenario 1 after [link_houses_to_hierarchy_fixed]. *)
Definition scenario_linked_store : db :=
  match link_houses_to_hierarchy_fixed Py.dec_int scenario_index
          scenario_houses_store with
  | Returns d => d
  | _ => create_schema
  end.

Lemma fix_final_keeps_municipality_witness :
  ∃ d' h, fix_final_mo_connections Py.dec_int scenario_index
            scenario_linked_store = Returns d' ∧
          houses scenario_linked_store !! 400%Z = Some h ∧
          houses d' !! 400%Z = Some h.
Proof.
  destruct (fix_final_mo_connections Py.dec_int scenario_index
              scenario_linked_store) as [d'| |] eqn:Hrun;
    [|vm_compute in Hrun; discriminate..].
  destruct (houses scenario_linked_store !! 400%Z) as [h|] eqn:Hh;
    [|vm_compute in Hh; discriminate].
  exists d', h. split; [done|]. split; [done|].
  apply (fix_final_keeps_municipality _ _ _ _ _ _ 100%Z Hrun Hh).
  vm_compute in Hh. by injection Hh as <-.
Defined.

(** X18. The direct search of [fix_final_mo_connections]. In a store of at
    most 50000 houses, a house without municipality that the fill through
    the street leaves as it is receives the answer of
    [find_parent_by_level] for the levels 3 and 4, when that is a non-zero
    id; when the search finds nothing the house stays without
    municipality. *)
Theorem residual_search int idx d d' k h :
  fix_final_mo_connections int idx d = Returns d' →
  (Z.of_nat (size (houses d)) ≤ 50000)%Z →
  houses d !! k = Some h →
  h_municipality_id h = None →
  house_via_street (streets d) h = h →
  ∃ mo_id,
    find_parent_by_level int idx k ["3"; "4"] = Returns mo_id ∧
    houses d' !! k
    = Some (if Py.truthy_int mo_id then set_h_municipality_id mo_id h else h).
Proof.
  intros Hrun Hsize Hh Hnull Hsame.
  set (d1 := with_houses d (house_via_street (streets d) <$> houses d)).
  assert (k ∈ remaining_houses d1) as Hin.
  { apply (remaining_houses_all d1 k h); [|by unfold d1; simpl;
      rewrite lookup_fmap, Hh; simpl; rewrite Hsame|done].
    unfold d1. simpl. by rewrite map_size_fmap. }
  rewrite (fix_final_mo_connections_rows int idx d d' Hrun k), Hh. simpl.
  rewrite Hsame. fold d1. rewrite decide_True by done.
  unfold fix_final_mo_connections in Hrun. fold d1 in Hrun.
  destruct (for_each (lookup_remaining int idx) (d1, []) (remaining_houses d1))
    as [st| |] eqn:Hloop; simpl in Hrun; [|done..].
  destruct (for_each_returns _ _ _ _ k Hloop Hin) as ([d2 b] & s' & Hbody).
  unfold lookup_remaining in Hbody. unfold remaining_row.
  destruct (find_parent_by_level int idx k ["3"; "4"]) as [mo_id| |];
    [|done..].
  exists mo_id. split; [done|]. by destruct mo_id.
Qed.

Lemma residual_search_witness :
  ∃ d', fix_final_mo_connections Py.dec_int scenario_index
          scenario_houses_store = Returns d' ∧
        h_municipality_id <$> houses d' !! 400%Z = Some (Some 100%Z).
Proof.
  destruct (fix_final_mo_connections Py.dec_int scenario_index
              scenario_houses_store) as [d'| |] eqn:Hrun;
    [|vm_compute in Hrun; discriminate..].
  exists d'. split; [done|].
  destruct (houses scenario_houses_store !! 400%Z) as [h|] eqn:Hh;
    [|vm_compute in Hh; discriminate].
  pose proof Hh as Hrow. vm_compute in Hrow. injection Hrow as Hrow.
  destruct (residual_search Py.dec_int scenario_index scenario_houses_store
              d' 400%Z h Hrun) as (mo_id & Hmo & ->).
  - by vm_compute.
  - done.
  - by rewrite <- Hrow.
  - rewrite <- Hrow. reflexivity.
  - vm_compute in Hmo. injection Hmo as <-. by rewrite <- Hrow.
Defined.

End HousesFacts.

(** ** The parameters pass: counters, frame and limits *)

Lemma foldl_invariant {A S : Type} (Inv : S → Prop) (f : S → A → S) l st :
  Inv st → (∀ s x, x ∈ l → Inv s → Inv (f s x)) → Inv (foldl f st l).
Proof.
  revert st. induction l as [|y l IH]; intros st Hst Hf; simpl; [done|].
  apply IH.
  - apply Hf; [apply list_elem_of_here|done].
  - intros s x Hx. apply Hf. by apply list_elem_of_further.
Qed.

Module ParamsFacts.

Import Store Params.

(** The number of PARAM elements of a stream. *)
Definition params_in (evs : list element) : Z :=
  Z.of_nat (length (filter (λ e, tag e = "PARAM") evs)).

Lemma params_in_cons e evs :
  params_in (e :: evs)
  = ((if decide (tag e = "PARAM") then 1 else 0) + params_in evs)%Z.
Proof.
  unfold params_in. rewrite filter_cons. case_decide; simpl; lia.
Qed.

Lemma params_in_app evs1 evs2 :
  params_in (evs1 ++ evs2) = (params_in evs1 + params_in evs2)%Z.
Proof.
  induction evs1 as [|e evs1 IH]; [done|].
  rewrite <- app_comm_cons, !params_in_cons, IH. lia.
Qed.

Lemma params_in_nonneg evs : (0 ≤ params_in evs)%Z.
Proof. unfold params_in. lia. Qed.

(** The columns that the parameters pass does not write. *)
Definition same_but_params (h h' : house) : Prop :=
  h_id h' = h_id h ∧ h_objectguid h' = h_objectguid h ∧
  h_house_number h' = h_house_number h ∧
  h_building_number h' = h_building_number h ∧
  h_structure_number h' = h_structure_number h ∧
  h_street_id h' = h_street_id h ∧ h_settlement_id h' = h_settlement_id h ∧
  h_municipality_id h' = h_municipality_id h ∧
  h_full_address h' = h_full_address h ∧
  h_isactual h' = h_isactual h ∧ h_isactive h' = h_isactive h ∧
  h_updatedate h' = h_updatedate h.

(** The limits that the validation enforces on the three columns; the
    length of a cadastral number is counted in characters. *)
Definition within_limits (h : house) : Prop :=
  (∀ n, h_floors_count h = Some n → (0 ≤ n ≤ 1000)%Z) ∧
  (∀ n, h_residents_count h = Some n → (0 ≤ n ≤ 1000)%Z) ∧
  (∀ s, h_cadastral_number h = Some s → Py.len s ≤ 100).

(** The houses of [d'] are those of [d], up to the three columns, and the
    other tables are the same. *)
Definition frame (d d' : db) : Prop :=
  municipalities d' = municipalities d ∧ settlements d' = settlements d ∧
  streets d' = streets d ∧ land_plots d' = land_plots d ∧
  ∀ k, option_Forall2 same_but_params (houses d !! k) (houses d' !! k).

Lemma same_but_params_refl h : same_but_params h h.
Proof. by repeat split. Qed.

Lemma same_but_params_trans h1 h2 h3 :
  same_but_params h1 h2 → same_but_params h2 h3 → same_but_params h1 h3.
Proof.
  unfold same_but_params. intros H12 H23.
  destruct H12 as (?&?&?&?&?&?&?&?&?&?&?&?).
  destruct H23 as (?&?&?&?&?&?&?&?&?&?&?&?).
  repeat split; congruence.
Qed.

Lemma houses_same (t : gmap Z house) k :
  option_Forall2 same_but_params (t !! k) (t !! k).
Proof. destruct (t !! k); constructor. apply same_but_params_refl. Qed.

Lemma frame_refl d : frame d d.
Proof. repeat split. intros k. apply houses_same. Qed.

Lemma frame_trans d1 d2 d3 : frame d1 d2 → frame d2 d3 → frame d1 d3.
Proof.
  intros (Hm & Hs & Hst & Hlp & Hh) (Hm' & Hs' & Hst' & Hlp' & Hh').
  repeat split; try congruence. intros k.
  specialize (Hh k). specialize (Hh' k).
  destruct Hh as [h1 h2 H12|]; inversion Hh' as [h2' h3 H23|]; subst;
    constructor. by apply (same_but_params_trans h1 h2 h3).
Qed.

Lemma set_column_same field_name v h h' :
  set_column field_name v h = Some h' → same_but_params h h'.
Proof.
  unfold set_column. destruct v; repeat case_decide; intros [= <-];
    by repeat split.
Qed.

(** [len(s[:n]) <= n] *)
Lemma slice_to_length n s : Py.len (Py.slice_to n s) ≤ n.
Proof.
  revert n. induction s as [|c s IH]; intros n; simpl; [lia|].
  destruct (Py.continues c) eqn:Hc.
  - simpl. rewrite Hc. apply IH.
  - destruct n as [|n]; simpl; [lia|]. rewrite Hc. specialize (IH n). lia.
Qed.

(** The store that the open transaction shows and the store of the last
    commit both satisfy [P]. *)
Definition both (P : db → Prop) (st : params_state) : Prop :=
  P (store st) ∧ P (committed st).

Definition limits (d : db) : Prop :=
  map_Forall (λ _, within_limits) (houses d).

Lemma commit_both P st : both P st → both P (commit st).
Proof. intros [Hs Hc]. unfold commit. by destruct (aborted st). Qed.

Lemma checkpoint_both P st : both P st → both P (checkpoint st).
Proof.
  intros Hst. unfold checkpoint. case_decide; [by apply commit_both|done].
Qed.

Section params.
Variable strip : string → string.
Variable int_float : string → option Z.
Variable int8 : string → option Z.

Lemma update_house_rowcount field_name v objectid t t' rowcount :
  update_house int8 field_name v objectid t = Some (t', rowcount) →
  (0 ≤ rowcount ≤ 1)%Z.
Proof.
  unfold update_house. destruct (int8 objectid) as [k|]; [|done].
  destruct (t !! k) as [h|]; [|intros [= _ <-]; lia].
  destruct (set_column field_name v h); [|done]. intros [= _ <-]. lia.
Qed.

Lemma update_house_frame field_name v objectid d t rowcount :
  update_house int8 field_name v objectid (houses d) = Some (t, rowcount) →
  frame d (with_houses d t).
Proof.
  intros Hup. repeat split. intros k. simpl. unfold update_house in Hup.
  destruct (int8 objectid) as [k0|]; [|done].
  destruct (houses d !! k0) as [h0|] eqn:Hk0;
    [|injection Hup as <- _; apply houses_same].
  destruct (set_column field_name v h0) as [h1|] eqn:Hset; [|done].
  injection Hup as <- _. destruct (decide (k0 = k)) as [->|Hne].
  - rewrite lookup_insert_eq, Hk0. constructor.
    by apply (set_column_same field_name v).
  - rewrite lookup_insert_ne by done. apply houses_same.
Qed.

Lemma try_update_counters field_name v objectid st :
  let st' := try_update int8 field_name v objectid st in
  processed st' = processed st ∧ (updated st ≤ updated st' ≤ updated st + 1)%Z.
Proof.
  cbv zeta. unfold try_update. destruct (aborted st); [lia|].
  destruct (update_house int8 field_name v objectid (houses (store st)))
    as [[t rowcount]|] eqn:Hup; simpl; [|lia].
  apply update_house_rowcount in Hup. lia.
Qed.

Lemma try_update_frame d field_name v objectid st :
  both (frame d) st → both (frame d) (try_update int8 field_name v objectid st).
Proof.
  intros [Hs Hc]. unfold try_update. destruct (aborted st); [done|].
  destruct (update_house int8 field_name v objectid (houses (store st)))
    as [[t rowcount]|] eqn:Hup; [|done].
  split; [|done]. simpl. apply (frame_trans _ _ _ Hs).
  by apply (update_house_frame field_name v objectid _ _ rowcount).
Qed.

Lemma checkpoint_counters st :
  processed (checkpoint st) = processed st ∧
  updated (checkpoint st) = updated st.
Proof.
  unfold checkpoint, commit. case_decide; [|done]. by destruct (aborted st).
Qed.

Lemma param_elem_counters st elem :
  let one := (if decide (tag elem = "PARAM") then 1 else 0)%Z in
  processed (param_elem strip int_float int8 st elem) = (processed st + one)%Z ∧
  (updated st ≤ updated (param_elem strip int_float int8 st elem)
     ≤ updated st + one)%Z.
Proof.
  cbv zeta.
  destruct (param_elem_cases strip int_float int8 st elem)
    as [[Hn ->]|[[Ht ->]|(Ht & o & t & v & f & cv & _ & _ & _ & _ & _ & ->)]].
  - rewrite decide_False by done. lia.
  - rewrite decide_True by done.
    destruct (checkpoint_counters (counted st)) as [-> ->]. simpl. lia.
  - rewrite decide_True by done.
    destruct (checkpoint_counters (try_update int8 f cv o (counted st)))
      as [-> ->].
    destruct (try_update_counters f cv o (counted st)) as [Hp Hu].
    cbv zeta in Hp, Hu. simpl in Hp, Hu. lia.
Qed.

Lemma param_elem_frame d st elem :
  both (frame d) st → both (frame d) (param_elem strip int_float int8 st elem).
Proof.
  intros Hst.
  destruct (param_elem_cases strip int_float int8 st elem)
    as [[_ ->]|[[_ ->]|(_ & o & t & v & f & cv & _ & _ & _ & _ & _ & ->)]];
    [done|by apply checkpoint_both|].
  by apply checkpoint_both, try_update_frame.
Qed.

Lemma try_update_limits field_name typeid value v objectid st :
  param_mapping !! typeid = Some field_name →
  validate_param_value strip int_float field_name value = Some v →
  both limits st → both limits (try_update int8 field_name v objectid st).
Proof.
  intros Hm Hcv [Hs Hc]. split; [|by rewrite (proj1 (try_update_committed _ _ _ _ _))].
  intros k h' (h & Hh & [->|Hset])%try_update_rows; [by apply (Hs k)|].
  destruct (Hs k h Hh) as (Hfloors & Hres & Hcad).
  apply param_mapping_lookup in Hm as [[-> ->]|[[-> ->]|[-> ->]]].
  - apply validate_cadastral_number in Hcv as (_ & _ & ->).
    simpl in Hset. injection Hset as <-. split; [done|]. split; [done|].
    simpl. intros s [= <-]. apply slice_to_length.
  - apply (proj1 (validate_count strip int_float _ _ _ (or_introl eq_refl)))
      in Hcv as (n & _ & _ & Hrange & ->).
    simpl in Hset. injection Hset as <-. split; [done|]. split; [|done].
    simpl. by intros n' [= <-].
  - apply (proj1 (validate_count strip int_float _ _ _ (or_intror eq_refl)))
      in Hcv as (n & _ & _ & Hrange & ->).
    simpl in Hset. injection Hset as <-. split; [|by split].
    simpl. by intros n' [= <-].
Qed.

Lemma param_elem_limits st elem :
  both limits st → both limits (param_elem strip int_float int8 st elem).
Proof.
  intros Hst.
  destruct (param_elem_cases strip int_float int8 st elem)
    as [[_ ->]|[[_ ->]|(_ & o & t & v & f & cv & _ & _ & _ & Hm & Hcv & ->)]];
    [done|by apply checkpoint_both|].
  by apply checkpoint_both, (try_update_limits f t v).
Qed.

Lemma param_loop_counters evs st :
  processed (foldl (param_elem strip int_float int8) st evs)
  = (processed st + params_in evs)%Z ∧
  (updated st ≤ updated (foldl (param_elem strip int_float int8) st evs)
     ≤ updated st + params_in evs)%Z.
Proof.
  revert st. induction evs as [|e evs IH]; intros st; simpl.
  - unfold params_in. simpl. lia.
  - destruct (IH (param_elem strip int_float int8 st e)) as [Hp Hu].
    destruct (param_elem_counters st e) as [Hp1 Hu1]. cbv zeta in *.
    rewrite params_in_cons. lia.
Qed.

Lemma process_params_file_facts P st file :
  (∀ s e, both P s → both P (param_elem strip int_float int8 s e)) →
  both P st → both P (process_params_file strip int_float int8 st file).
Proof.
  intros Hstep Hst. unfold process_params_file.
  apply (foldl_invariant (both P)); [done|]. intros s x _. apply Hstep.
Qed.

Lemma process_params_file_counters st file :
  let st' := process_params_file strip int_float int8 st file in
  processed st' = params_in (file_events file) ∧
  (0 ≤ updated st' ≤ processed st')%Z.
Proof.
  cbv zeta. unfold process_params_file.
  destruct (param_loop_counters (file_events file)
              (ParamsState (store st) (committed st) (aborted st) 0 0))
    as [Hp Hu].
  simpl in *. lia.
Qed.

(** The loop over the files. *)
Definition files_loop (st : params_state) (total : Z) (files : list xmlfile)
  : params_state * Z :=
  foldl (λ '(st, total_updated) file,
           let st := process_params_file strip int_float int8 st file in
           (st, (total_updated + updated st)%Z))
        (st, total) files.

Lemma files_loop_facts P files st total :
  (∀ s e, both P s → both P (param_elem strip int_float int8 s e)) →
  both P st → both P (files_loop st total files).1.
Proof.
  intros Hstep. unfold files_loop. revert st total.
  induction files as [|f files IH]; intros st total Hst; cbn [foldl]; [done|].
  apply IH. by apply process_params_file_facts.
Qed.

Lemma files_loop_counters files st total :
  (total ≤ (files_loop st total files).2
     ≤ total + params_in (events_of files))%Z.
Proof.
  unfold files_loop. revert st total.
  induction files as [|f files IH]; intros st total; cbn [foldl].
  - unfold events_of, params_in. simpl. lia.
  - set (st1 := process_params_file strip int_float int8 st f).
    specialize (IH st1 (total + updated st1)%Z).
    destruct (process_params_file_counters st f) as [Hp Hu].
    cbv zeta in Hp, Hu. fold st1 in Hp, Hu.
    change (events_of (f :: files)) with (file_events f ++ events_of files).
    rewrite params_in_app. lia.
Qed.

Lemma process_house_params_loop files d :
  process_house_params strip int_float int8 files d
  = match files with
    | [] => (d, 0%Z)
    | _ => (store (commit (files_loop (ParamsState d d false 0 0) 0 files).1),
            (files_loop (ParamsState d d false 0 0) 0 files).2)
    end.
Proof.
  unfold process_house_params, files_loop. destruct files as [|f files]; [done|].
  by destruct (foldl _ _ _).
Qed.

Lemma process_house_params_facts P files d :
  (∀ s e, both P s → both P (param_elem strip int_float int8 s e)) →
  P d → P (process_house_params strip int_float int8 files d).1.
Proof.
  intros Hstep Hd. rewrite process_house_params_loop.
  destruct files as [|f files]; [done|]. simpl.
  apply (commit_both P), files_loop_facts; [done|]. by split.
Qed.

Lemma process_house_params_frame files d :
  frame d (process_house_params strip int_float int8 files d).1.
Proof.
  apply (process_house_params_facts (frame d)); [|apply frame_refl].
  intros s e. apply param_elem_frame.
Qed.

(** *** A rejected statement *)

(** A PARAM whose value passes the validation and whose OBJECTID the
    server does not read as a BIGINT. *)
Definition rejected_statement (elem : element) : Prop :=
  tag elem = "PARAM" ∧
  ∃ objectid typeid value field_name clean_value,
    attrib elem !! "OBJECTID" = Some objectid ∧ objectid ≠ "" ∧
    attrib elem !! "TYPEID" = Some typeid ∧
    attrib elem !! "VALUE" = Some value ∧ value ≠ "" ∧
    param_mapping !! typeid = Some field_name ∧
    validate_param_value strip int_float field_name value = Some clean_value ∧
    int8 objectid = None.

Lemma try_update_aborted field_name v objectid st :
  aborted st = true →
  try_update int8 field_name v objectid st = st.
Proof. intros Ha. unfold try_update. by rewrite Ha. Qed.

Lemma try_update_rejected field_name v objectid st :
  int8 objectid = None →
  aborted (try_update int8 field_name v objectid st) = true.
Proof.
  intros Hid. unfold try_update, update_house.
  destruct (aborted st) eqn:Ha; [done|]. by rewrite Hid.
Qed.

Lemma param_elem_valid st elem objectid typeid value field_name clean_value :
  tag elem = "PARAM" →
  attrib elem !! "OBJECTID" = Some objectid → objectid ≠ "" →
  attrib elem !! "TYPEID" = Some typeid →
  attrib elem !! "VALUE" = Some value → value ≠ "" →
  param_mapping !! typeid = Some field_name →
  validate_param_value strip int_float field_name value = Some clean_value →
  param_elem strip int_float int8 st elem
  = checkpoint (try_update int8 field_name clean_value objectid (counted st)).
Proof.
  intros Htag Ho Hone Hty Hv Hvne Hm Hcv.
  assert (field_name ≠ "" ∧ typeid ≠ "") as [Hf Ht].
  { by apply param_mapping_lookup in Hm as [[-> ->]|[[-> ->]|[-> ->]]]. }
  unfold param_elem. rewrite decide_True by done. cbv zeta.
  rewrite Ho, Hty, Hv. simpl. rewrite Hm.
  rewrite (proj2 (Py.truthy_Some objectid) Hone),
    (proj2 (Py.truthy_Some typeid) Ht), (proj2 (Py.truthy_Some value) Hvne),
    (proj2 (Py.truthy_Some field_name) Hf).
  simpl. by rewrite Hcv.
Qed.

(** An element that does not reach a commit keeps the last commit, keeps
    an aborted transaction aborted, and aborts it when its statement is
    rejected. *)
Lemma param_elem_no_commit st elem :
  (0 ≤ processed st)%Z → (processed st + 1 < 100000)%Z →
  let st' := param_elem strip int_float int8 st elem in
  committed st' = committed st ∧
  (aborted st = true → aborted st' = true) ∧
  (rejected_statement elem → aborted st' = true).
Proof.
  intros H0 Hlt. cbv zeta.
  assert (∀ s, processed s = (processed st + 1)%Z → checkpoint s = s) as Hcp.
  { intros s Hs. unfold checkpoint. rewrite decide_False; [done|].
    rewrite Hs, Z.mod_small by lia. lia. }
  assert (∀ f cv o,
            checkpoint (try_update int8 f cv o (counted st))
            = try_update int8 f cv o (counted st)) as Hcp'.
  { intros f cv o. apply Hcp.
    by rewrite (proj2 (try_update_committed int8 f cv o (counted st))). }
  split; [|split].
  - destruct (param_elem_cases strip int_float int8 st elem)
      as [[_ ->]|[[_ ->]|(_ & o & t & v & f & cv & _ & _ & _ & _ & _ & ->)]];
      [done|by rewrite Hcp|].
    by rewrite Hcp', (proj1 (try_update_committed int8 f cv o (counted st))).
  - intros Ha.
    destruct (param_elem_cases strip int_float int8 st elem)
      as [[_ ->]|[[_ ->]|(_ & o & t & v & f & cv & _ & _ & _ & _ & _ & ->)]];
      [done|by rewrite Hcp|].
    by rewrite Hcp', try_update_aborted.
  - intros (Htag & o & t & v & f & cv & Ho & Hone & Hty & Hv & Hvne & Hm & Hcv & Hid).
    rewrite (param_elem_valid st elem o t v f cv) by done.
    rewrite Hcp'. by apply try_update_rejected.
Qed.

Lemma param_loop_no_commit evs st :
  (0 ≤ processed st)%Z → (processed st + params_in evs < 100000)%Z →
  let st' := foldl (param_elem strip int_float int8) st evs in
  committed st' = committed st ∧
  (aborted st = true → aborted st' = true) ∧
  (∀ elem, elem ∈ evs → rejected_statement elem → aborted st' = true).
Proof.
  cbv zeta. revert st.
  induction evs as [|e evs IH]; intros st H0 Hlt; simpl.
  { split; [done|]. split; [done|]. by intros elem ?%elem_of_nil. }
  rewrite params_in_cons in Hlt. pose proof (params_in_nonneg evs) as Hn.
  destruct (param_elem_counters st e) as [Hp _]. cbv zeta in Hp.
  destruct (decide (tag e = "PARAM")) as [Htag|Htag].
  - destruct (param_elem_no_commit st e H0) as (Hc & Ha & Hr); [lia|].
    cbv zeta in Hc, Ha, Hr.
    destruct (IH (param_elem strip int_float int8 st e)) as (Hc' & Ha' & Hr');
      [lia..|].
    split; [congruence|]. split; [by intros ?; apply Ha', Ha|].
    intros elem [->|Hin]%elem_of_cons Hrej; [by apply Ha', Hr|by apply (Hr' elem)].
  - assert (param_elem strip int_float int8 st e = st) as ->.
    { unfold param_elem. by rewrite decide_False. }
    destruct (IH st) as (Hc' & Ha' & Hr'); [lia..|].
    split; [done|]. split; [done|].
    intros elem [->|Hin]%elem_of_cons Hrej; [|by apply (Hr' elem)].
    by destruct Hrej as [? _].
Qed.

Lemma files_loop_no_commit files st total :
  (∀ f, f ∈ files → (params_in (file_events f) < 100000)%Z) →
  let st' := (files_loop st total files).1 in
  committed st' = committed st ∧
  (aborted st = true → aborted st' = true) ∧
  (∀ elem, elem ∈ events_of files → rejected_statement elem →
           aborted st' = true).
Proof.
  cbv zeta. unfold files_loop. revert st total.
  induction files as [|f files IH]; intros st total Hsmall; cbn [foldl].
  { split; [done|]. split; [done|]. by intros elem ?%elem_of_nil. }
  set (st1 := process_params_file strip int_float int8 st f).
  destruct (param_loop_no_commit (file_events f)
              (ParamsState (store st) (committed st) (aborted st) 0 0))
    as (Hc & Ha & Hr); [simpl; lia| |].
  { simpl. specialize (Hsmall f (list_elem_of_here _ _)). lia. }
  cbv zeta in Hc, Ha, Hr. simpl in Hc, Ha.
  fold (process_params_file strip int_float int8 st f) in Hc, Ha, Hr.
  fold st1 in Hc, Ha, Hr.
  destruct (IH st1 (total + updated st1)%Z) as (Hc' & Ha' & Hr').
  { intros g Hg. apply Hsmall. by apply list_elem_of_further. }
  split; [congruence|]. split; [by intros ?; apply Ha', Ha|].
  change (events_of (f :: files)) with (file_events f ++ events_of files).
  intros elem [Hin|Hin]%elem_of_app Hrej;
    [by apply Ha', (Hr elem)|by apply (Hr' elem)].
Qed.

End params.

(** X19. The counters of the parameters pass. In each file [processed]
    ends as the number of PARAM elements of the file, and [updated] lies
    between 0 and [processed], whatever the state of the transaction at the
    start of the file; the total printed at the end lies between 0 and the
    number of PARAM elements of all the files. *)
Theorem counters_of_the_pass strip int_float int8 files d :
  (∀ st file,
     let st' := process_params_file strip int_float int8 st file in
     processed st' = params_in (file_events file) ∧
     (0 ≤ updated st' ≤ processed st')%Z) ∧
  (0 ≤ (process_house_params strip int_float int8 files d).2
     ≤ params_in (events_of files))%Z.
Proof.
  split.
  - intros st file. apply process_params_file_counters.
  - rewrite process_house_params_loop. destruct files as [|f files].
    + unfold events_of, params_in. simpl. lia.
    + cbn [snd].
      pose proof (files_loop_counters strip int_float int8 (f :: files)
                    (ParamsState d d false 0 0) 0) as Hc.
      lia.
Qed.

(** X20. The parameters pass touches three columns only, whether its
    transactions are committed or rolled back. It adds no house and
    removes none; of a house it may change cadastral_number, floors_count
    and residents_count and nothing else, so the links and the address
    parts are as before; the other four tables are as before. *)
Theorem params_touch_three_columns strip int_float int8 files d :
  let d' := (process_house_params strip int_float int8 files d).1 in
  municipalities d' = municipalities d ∧ settlements d' = settlements d ∧
  streets d' = streets d ∧ land_plots d' = land_plots d ∧
  dom (houses d') = dom (houses d) ∧
  ∀ k h', houses d' !! k = Some h' →
          ∃ h, houses d !! k = Some h ∧ same_but_params h h'.
Proof.
  cbv zeta.
  destruct (process_house_params_frame strip int_float int8 files d)
    as (Hm & Hs & Hst & Hlp & Hh).
  repeat (split; [done|]). split.
  - apply set_eq. intros k. rewrite !elem_of_dom. specialize (Hh k).
    destruct Hh as [h h' _|]; split; intros [? ?]; by eauto.
  - intros k h' Hk. specialize (Hh k). rewrite Hk in Hh.
    inversion Hh as [h h2 Hsame|]; subst. by exists h.
Qed.

(** X21. The limits are kept. If every house has its two counts between 0
    and 1000 and a cadastral number of at most 100 characters (or none),
    the same holds after the parameters pass. *)
Theorem limits_are_kept strip int_float int8 files d :
  map_Forall (λ _, within_limits) (houses d) →
  map_Forall (λ _, within_limits)
    (houses (process_house_params strip int_float int8 files d).1).
Proof.
  intros Hd.
  apply (process_house_params_facts strip int_float int8 limits); [|done].
  intros s e. apply param_elem_limits.
Qed.

Lemma limits_are_kept_witness :
  map_Forall (λ _, within_limits)
    (houses (process_house_params Py.strip_ascii Py.dec_int Py.dec_int
               [XmlFile "AS_HOUSES_PARAMS_1.XML"
                  [Scenario.param "400" "14" " 3 ";
                   Scenario.param "400" "15" "10000";
                   Scenario.param "400" "8" "66:41:0204016:10"]]
               house_400).1).
Proof.
  apply limits_are_kept. apply map_Forall_to_list. vm_compute.
  constructor; [|constructor]. split; [|split]; intros ? [=].
Defined.

(** X30. A rejected statement loses the pass. When no file has 100000
    PARAM elements (so that the only commit is the one that ends the pass)
    and one PARAM carries a value that passes the validation together with
    an OBJECTID that the server does not read as a BIGINT, the store after
    [process_house_params] is the store before it: the exception is
    swallowed, the transaction stays aborted, and the final commit rolls
    back every update of the pass. *)
Theorem a_rejected_statement_loses_the_pass strip int_float int8 files d elem :
  (∀ f, f ∈ files → (params_in (file_events f) < 100000)%Z) →
  elem ∈ events_of files →
  rejected_statement strip int_float int8 elem →
  (process_house_params strip int_float int8 files d).1 = d.
Proof.
  intros Hsmall Hin Hrej. rewrite process_house_params_loop.
  destruct files as [|f files]; [done|]. cbn [fst].
  destruct (files_loop_no_commit strip int_float int8 (f :: files)
              (ParamsState d d false 0 0) 0 Hsmall) as (Hc & _ & Hr).
  cbv zeta in Hc, Hr. unfold commit. rewrite (Hr elem Hin Hrej). simpl.
  by rewrite Hc.
Qed.

Lemma a_rejected_statement_loses_the_pass_witness :
  (process_house_params Py.strip_ascii Py.dec_int Py.dec_int
     [XmlFile "AS_HOUSES_PARAMS_1.XML"
        [Scenario.param "400" "14" "3"; Scenario.param "4x0" "15" "2";
         Scenario.param "400" "15" "2"]]
     house_400).1
  = house_400.
Proof.
  apply (a_rejected_statement_loses_the_pass _ _ _ _ _
           (Scenario.param "4x0" "15" "2")).
  - intros f Hf%list_elem_of_singleton. subst f. by vm_compute.
  - apply elem_of_events_of. eexists. split; [apply list_elem_of_here|].
    apply list_elem_of_further, list_elem_of_here.
  - split; [reflexivity|].
    exists "4x0", "15", "2", "floors_count", (PInt 2).
    split; [reflexivity|]. split; [discriminate|].
    split; [reflexivity|]. split; [reflexivity|]. split; [discriminate|].
    split; [reflexivity|]. split; reflexivity.
Defined.

End ParamsFacts.

(** ** The composer: trimmed addresses, one column, once is enough *)

Module ComposerFacts.

Import Store Composer.

Lemma ltrim_head s c t : ltrim s = String c t → c ≠ " "%char.
Proof.
  induction s as [|c0 s IH]; simpl; [done|].
  destruct (Ascii.eqb c0 " ") eqn:Hc0; [done|].
  intros [= <- _]. by apply Ascii.eqb_neq.
Qed.

Lemma rtrim_head s c t : rtrim s = String c t → ∃ t0, s = String c t0.
Proof.
  destruct s as [|c0 s]; simpl; [done|].
  destruct (rtrim s) as [|c1 u].
  - destruct (Ascii.eqb c0 " "); [done|]. intros [= <- _]. by exists s.
  - intros [= <- _]. by exists s.
Qed.

Lemma append_space_nonempty t : t +:+ " " ≠ "".
Proof. by destruct t. Qed.

Lemma rtrim_last s t : rtrim s ≠ t +:+ " ".
Proof.
  revert t. induction s as [|c s IH]; intros t; simpl.
  - intros H. by apply (append_space_nonempty t).
  - destruct (rtrim s) as [|c1 u] eqn:Hr.
    + destruct (Ascii.eqb c " ") eqn:Hc.
      * intros H. by apply (append_space_nonempty t).
      * destruct t as [|c2 t]; simpl.
        -- intros [= ->]. by rewrite Ascii.eqb_refl in Hc.
        -- intros [= _ H]. by apply (append_space_nonempty t).
    + destruct t as [|c2 t]; simpl; [done|].
      intros [= _ H]. by apply (IH t).
Qed.

Lemma sql_trim_ends s :
  (∀ t, sql_trim s ≠ String " " t) ∧ (∀ t, sql_trim s ≠ t +:+ " ").
Proof.
  unfold sql_trim. split; intros t.
  - intros (t0 & Ht0)%rtrim_head. by apply ltrim_head in Ht0.
  - apply rtrim_last.
Qed.

Lemma compose_address d h :
  compose d h = set_full_address (h_full_address (compose d h)) h.
Proof.
  unfold compose.
  destruct (h_municipality_id h) as [mi|]; [|by destruct h].
  destruct (h_settlement_id h) as [si|]; [|by destruct h].
  destruct (h_street_id h) as [sti|]; [|by destruct h].
  destruct (municipalities d !! mi); [|by destruct h].
  destruct (settlements d !! si); [|by destruct h].
  destruct (streets d !! sti); [|by destruct h].
  done.
Qed.

Lemma compose_trimmed d h a :
  h_full_address h = None → h_full_address (compose d h) = Some a →
  (∀ t, a ≠ String " " t) ∧ (∀ t, a ≠ t +:+ " ").
Proof.
  unfold compose. intros Hnull.
  destruct (h_municipality_id h) as [mi|]; [|by rewrite Hnull].
  destruct (h_settlement_id h) as [si|]; [|by rewrite Hnull].
  destruct (h_street_id h) as [sti|]; [|by rewrite Hnull].
  destruct (municipalities d !! mi) as [m|]; [|by rewrite Hnull].
  destruct (settlements d !! si) as [set|]; [|by rewrite Hnull].
  destruct (streets d !! sti) as [st|]; [|by rewrite Hnull].
  simpl. intros [= <-]. unfold full_address_of. apply sql_trim_ends.
Qed.

Lemma compose_twice d d' h :
  municipalities d' = municipalities d → settlements d' = settlements d →
  streets d' = streets d →
  compose d' (compose d h) = compose d h.
Proof.
  intros Hm Hs Hst. unfold compose. rewrite Hm, Hs, Hst.
  destruct (h_municipality_id h) as [mi|] eqn:Hmi; [|by rewrite Hmi].
  destruct (h_settlement_id h) as [si|] eqn:Hsi; [|by rewrite Hmi, Hsi].
  destruct (h_street_id h) as [sti|] eqn:Hsti; [|by rewrite Hmi, Hsi, Hsti].
  destruct (municipalities d !! mi) as [m|] eqn:Hm0;
    [|by rewrite Hmi, Hsi, Hsti, Hm0].
  destruct (settlements d !! si) as [set|] eqn:Hs0;
    [|by rewrite Hmi, Hsi, Hsti, Hm0, Hs0].
  destruct (streets d !! sti) as [st|] eqn:Hst0;
    [|by rewrite Hmi, Hsi, Hsti, Hm0, Hs0, Hst0].
  simpl. by rewrite Hmi, Hsi, Hsti, Hm0, Hs0, Hst0.
Qed.

(** X22. An address that [build_full_addresses] writes on a house that had
    none neither starts nor ends with a space. *)
Theorem written_address_is_trimmed d k h h' a :
  houses d !! k = Some h →
  h_full_address h = None →
  houses (build_full_addresses d) !! k = Some h' →
  h_full_address h' = Some a →
  (∀ t, a ≠ String " " t) ∧ (∀ t, a ≠ t +:+ " ").
Proof.
  intros Hh Hnull. unfold build_full_addresses. simpl.
  rewrite lookup_fmap, Hh. simpl. intros [= <-].
  by apply compose_trimmed.
Qed.

Lemma written_address_is_trimmed_witness :
  ∃ h' a,
    houses (build_full_addresses HousesFacts.scenario_linked_store) !! 400%Z
      = Some h' ∧
    h_full_address h' = Some a ∧
    (∀ t, a ≠ String " " t) ∧ (∀ t, a ≠ t +:+ " ").
Proof.
  destruct (houses HousesFacts.scenario_linked_store !! 400%Z) as [h|] eqn:Hh;
    [|by vm_compute in Hh].
  destruct (houses (build_full_addresses HousesFacts.scenario_linked_store)
              !! 400%Z) as [h'|] eqn:Hh'; [|by vm_compute in Hh'].
  pose proof Hh as Eh. vm_compute in Eh. injection Eh as Eh.
  pose proof Hh' as Eh'. vm_compute in Eh'. injection Eh' as Eh'.
  destruct (h_full_address h') as [a|] eqn:Ha; [|by rewrite <- Eh' in Ha].
  exists h', a. split; [done|]. split; [done|].
  apply (written_address_is_trimmed _ 400%Z h h' a Hh); [|done..].
  by rewrite <- Eh.
Defined.

(** X23. [build_full_addresses] writes one column, and once is enough: it
    adds and removes no house, changes nothing of a house but
    full_address, leaves the other tables as they are, and a second run
    gives the store of the first. *)
Theorem composer_writes_one_column d :
  (∀ k, houses (build_full_addresses d) !! k
        = (λ h, set_full_address (h_full_address (compose d h)) h)
          <$> houses d !! k) ∧
  municipalities (build_full_addresses d) = municipalities d ∧
  settlements (build_full_addresses d) = settlements d ∧
  streets (build_full_addresses d) = streets d ∧
  land_plots (build_full_addresses d) = land_plots d ∧
  build_full_addresses (build_full_addresses d) = build_full_addresses d.
Proof.
  split; [|repeat (split; [done|])].
  - intros k. unfold build_full_addresses. simpl. rewrite lookup_fmap.
    destruct (houses d !! k) as [h|]; [|done]. simpl.
    by rewrite <- compose_address.
  - unfold build_full_addresses, with_houses. simpl. f_equal.
    rewrite <- map_fmap_compose. apply map_fmap_ext. intros k h _. simpl.
    by apply compose_twice.
Qed.

End ComposerFacts.

(** ** The intake of the houses *)

Module IntakeFacts.

Import Index Store Houses.

Section intake.
Variable int8 : string → option Z.
(** The elements of the files being read, and the store before. *)
Variable evs : list element.
Variable d0 : db.

Definition active_house (elem : element) : Prop :=
  tag elem = "HOUSE" ∧
  attrib elem !! "ISACTUAL" = Some "1" ∧ attrib elem !! "ISACTIVE" = Some "1".

(** The row [h] of key [k] was built from an active HOUSE of the files. *)
Definition fresh_house (k : Z) (h : house) : Prop :=
  ∃ elem, elem ∈ evs ∧ active_house elem ∧
          bigint int8 (attrib elem !! "OBJECTID") = Returns k ∧
          house_row int8 (house_data_of (attrib elem)) = Returns h.

Definition staged (st : db * list house_data) : Prop :=
  municipalities st.1 = municipalities d0 ∧ settlements st.1 = settlements d0 ∧
  streets st.1 = streets d0 ∧ land_plots st.1 = land_plots d0 ∧
  (∀ k h, houses st.1 !! k = Some h →
          houses d0 !! k = Some h ∨ fresh_house k h) ∧
  (∀ t, t ∈ st.2 →
        ∃ elem, elem ∈ evs ∧ active_house elem ∧ t = house_data_of (attrib elem)).

Lemma insert_houses_staged d batch_data d' :
  staged (d, batch_data) →
  insert_houses_batch int8 d batch_data = Returns d' →
  staged (d', []).
Proof.
  intros (Hm & Hs & Hst & Hlp & Hh & Hb). unfold insert_houses_batch.
  destruct (insert_batch int8 hd_objectid (house_row int8) (houses d) batch_data)
    as [t| |] eqn:Hins; simpl; [|done..].
  intros [= <-]. repeat split; simpl in *; try done.
  - intros k h Hk.
    destruct (Stager.insert_batch_rows int8 _ _ _ _ _ Hins k h Hk)
      as [Hold|(tuple & Hin & Hkey & Hrow)]; [by apply Hh|].
    right. destruct (Hb tuple Hin) as (elem & Helem & Hact & ->).
    by exists elem.
  - by intros tuple ?%elem_of_nil.
Qed.

Lemma house_elem_staged st st' elem :
  staged st → elem ∈ evs →
  house_elem int8 st elem = Returns st' → staged st'.
Proof.
  destruct st as [d batch_data]. intros Hst Hin. unfold house_elem.
  case_decide as Htag; [|by intros [= <-]].
  set (batch := if decide (attrib elem !! "ISACTUAL" = Some "1" ∧
                           attrib elem !! "ISACTIVE" = Some "1")
                then batch_data ++ [house_data_of (attrib elem)]
                else batch_data).
  assert (staged (d, batch)) as Hst1.
  { destruct Hst as (Hm & Hs & Hstr & Hlp & Hh & Hb).
    repeat split; try done. simpl. unfold batch.
    case_decide as Hflags; [|done].
    intros t [Ht|Ht%list_elem_of_singleton]%elem_of_app; [by apply Hb|].
    subst t. exists elem. by repeat split; try apply Hflags. }
  destruct (reached batch_size batch); [|by intros [= <-]].
  destruct (insert_houses_batch int8 d batch) as [d1| |] eqn:Hins;
    simpl; [|done..].
  intros [= <-]. by apply (insert_houses_staged d batch).
Qed.

Lemma process_houses_file_staged d d' file :
  staged (d, []) → (∀ elem, elem ∈ file_events file → elem ∈ evs) →
  process_houses_file int8 d file = Returns d' → staged (d', []).
Proof.
  intros Hd Hsub. unfold process_houses_file.
  destruct (for_each (house_elem int8) (d, []) (file_events file))
    as [[d1 batch]| |] eqn:Hloop; simpl; [|done..].
  assert (staged (d1, batch)) as Hst.
  { eapply (for_each_invariant staged _ _ (d, [])); [done| |exact Hloop].
    intros s x s' Hx Hs. apply (house_elem_staged s s' x Hs). by apply Hsub. }
  destruct batch as [|t batch].
  - by intros [= <-].
  - by apply insert_houses_staged.
Qed.

End intake.

(** *** The rows that were there stay *)

Lemma insert_houses_keeps int8 d d' batch_data k h :
  insert_houses_batch int8 d batch_data = Returns d' →
  houses d !! k = Some h → houses d' !! k = Some h.
Proof.
  unfold insert_houses_batch.
  destruct (insert_batch int8 hd_objectid (house_row int8) (houses d) batch_data)
    as [t| |] eqn:Hins; simpl; [|done..].
  intros [= <-]. simpl.
  by apply (StoreFacts.insert_batch_keeps int8 _ _ _ _ _ _ _ Hins).
Qed.

Lemma house_elem_keeps int8 st st' elem k h :
  house_elem int8 st elem = Returns st' →
  houses st.1 !! k = Some h → houses st'.1 !! k = Some h.
Proof.
  destruct st as [d batch_data]. unfold house_elem.
  case_decide as Htag; [|by intros [= <-]].
  destruct (reached batch_size _); [|by intros [= <-]].
  destruct (insert_houses_batch int8 d _) as [d1| |] eqn:Hins; simpl; [|done..].
  intros [= <-]. simpl. by apply (insert_houses_keeps int8 d d1 _ k h Hins).
Qed.

Lemma process_houses_file_keeps int8 d d' file k h :
  process_houses_file int8 d file = Returns d' →
  houses d !! k = Some h → houses d' !! k = Some h.
Proof.
  unfold process_houses_file. intros Hrun Hk.
  destruct (for_each (house_elem int8) (d, []) (file_events file))
    as [[d1 batch]| |] eqn:Hloop; simpl in Hrun; [|done..].
  assert (houses d1 !! k = Some h) as Hk1.
  { eapply (for_each_invariant
              (λ st : db * list house_data, houses st.1 !! k = Some h)
              _ _ (d, []) (d1, batch)); [done| |exact Hloop].
    intros s x s' _ Hs Hx. by apply (house_elem_keeps int8 s s' x). }
  destruct batch as [|t batch]; [by injection Hrun as <-|].
  by apply (insert_houses_keeps int8 d1 d' _ k h Hrun).
Qed.

Lemma process_houses_keeps int8 upper files d d' k h :
  process_houses int8 upper files d = Returns d' →
  houses d !! k = Some h → houses d' !! k = Some h.
Proof.
  unfold process_houses. destruct files as [|f0 fs]; [by intros [= <-]|].
  destruct (filter _ (f0 :: fs)) as [|g0 gs]; [by intros [= <-]|].
  intros Hloop Hk.
  eapply (for_each_invariant (λ s, houses s !! k = Some h) _ _ d);
    [done| |exact Hloop].
  intros s f s' _ Hs Hf. by apply (process_houses_file_keeps int8 s s' f).
Qed.

Lemma staged_start int8 evs d : staged int8 evs d (d, []).
Proof.
  repeat split; simpl; [by left|]. by intros t ?%elem_of_nil.
Qed.

Lemma process_houses_staged int8 upper files d d' :
  process_houses int8 upper files d = Returns d' →
  staged int8
    (events_of
       (filter (λ f, Py.contains "PARAM" (upper (file_path f)) = false) files))
    d (d', []).
Proof.
  unfold process_houses. destruct files as [|f0 fs] eqn:Hfiles.
  { intros [= <-]. apply staged_start. }
  rewrite <- Hfiles. clear Hfiles f0 fs.
  set (kept := filter (λ f, Py.contains "PARAM" (upper (file_path f)) = false)
                 files).
  destruct kept as [|f0 fs] eqn:Hkept.
  { intros [= <-]. apply staged_start. }
  rewrite <- Hkept. clear Hkept f0 fs. intros Hloop.
  eapply (for_each_invariant (λ s, staged int8 (events_of kept) d (s, []))
            _ _ d); [apply staged_start| |exact Hloop].
  intros s f s' Hf Hs. apply (process_houses_file_staged _ _ _ s s' f Hs).
  intros elem Helem. apply elem_of_events_of. by exists f.
Qed.

(** X24. The intake of the houses. The rows that were in houses are kept
    as they were, and so are the other tables. Every other row of houses
    after [process_houses] is built from a HOUSE element with ISACTUAL = 1
    and ISACTIVE = 1 of a file whose upper-cased path does not contain
    PARAM; it carries the numbers of the element and no link, no parameter
    and no address. *)
Theorem houses_from_active_records int8 upper files d d' :
  process_houses int8 upper files d = Returns d' →
  municipalities d' = municipalities d ∧ settlements d' = settlements d ∧
  streets d' = streets d ∧ land_plots d' = land_plots d ∧
  (∀ k h, houses d !! k = Some h → houses d' !! k = Some h) ∧
  ∀ k h, houses d' !! k = Some h →
    houses d !! k = Some h ∨
    ∃ f elem id,
      f ∈ files ∧ Py.contains "PARAM" (upper (file_path f)) = false ∧
      elem ∈ file_events f ∧ active_house elem ∧
      bigint int8 (attrib elem !! "OBJECTID") = Returns k ∧
      bigint int8 (attrib elem !! "ID") = Returns id ∧
      h = House id (attrib elem !! "OBJECTGUID") (attrib elem !! "HOUSENUM")
                (attrib elem !! "ADDNUM1") (attrib elem !! "ADDNUM2")
                None None None None None None None 1 1
                (attrib elem !! "UPDATEDATE").
Proof.
  intros Hrun.
  pose proof (process_houses_staged _ _ _ _ _ Hrun)
    as (Hm & Hs & Hst & Hlp & Hh & _).
  repeat (split; [done|]).
  split; [intros k h; by apply (process_houses_keeps int8 upper files d d')|].
  intros k h Hk.
  destruct (Hh k h Hk) as [Hold|(elem & Hin & Hact & Hkey & Hrow)]; [by left|].
  right. apply elem_of_events_of in Hin as (f & Hf & Hin).
  apply list_elem_of_filter in Hf as [Hkeep Hf].
  unfold house_row in Hrow. simpl in Hrow.
  destruct (bigint int8 (attrib elem !! "ID")) as [id| |] eqn:Hid;
    simpl in Hrow; [|done..].
  injection Hrow as <-. by exists f, elem, id.
Qed.

Lemma houses_from_active_records_witness :
  ∃ d' h,
    process_houses Py.dec_int Py.upper_ascii
      [XmlFile "AS_HOUSES_1.XML"
         [Scenario.house "9" "400" "77"; Scenario.house "6" "600" "1";
          Scenario.elem "HOUSES" []]]
      Params.house_400 = Returns d' ∧
    houses Params.house_400 !! 400%Z = Some h ∧
    houses d' !! 400%Z = Some h ∧
    ∀ k h', houses d' !! k = Some h' → k ≠ 400%Z → h_street_id h' = None.
Proof.
  destruct (process_houses Py.dec_int Py.upper_ascii
              [XmlFile "AS_HOUSES_1.XML"
                 [Scenario.house "9" "400" "77"; Scenario.house "6" "600" "1";
                  Scenario.elem "HOUSES" []]]
              Params.house_400) as [d'| |] eqn:Hrun;
    [|vm_compute in Hrun; discriminate..].
  destruct (houses Params.house_400 !! 400%Z) as [h|] eqn:Hh;
    [|vm_compute in Hh; discriminate].
  exists d', h. split; [done|]. split; [done|].
  destruct (houses_from_active_records _ _ _ _ _ Hrun)
    as (_ & _ & _ & _ & Hkeep & Hnew).
  split; [by apply Hkeep|].
  intros k h' Hk Hne.
  destruct (Hnew k h' Hk) as [Hold|(f & elem & id & _ & _ & _ & _ & _ & _ & ->)];
    [|done].
  exfalso. unfold Params.house_400 in Hold. simpl in Hold.
  by rewrite lookup_insert_ne, lookup_empty in Hold.
Defined.

End IntakeFacts.

(** ** The land plots *)

Module PlotsFacts.

Import Index Store Resolver Plots.

Section plots.
Variable int : string → option Z.
Variable int8 : string → option Z.
Variable idx : index.

(** The row of plot [k] after its turn in the loop. *)
Definition plot_linked_row (k : Z) (lp : land_plot) : land_plot :=
  match find_parent_by_level int idx k ["5"; "6"],
        find_parent_by_level int idx k ["3"; "4"] with
  | Returns settlement_id, Returns mun_id =>
      if Py.truthy_int settlement_id || Py.truthy_int mun_id
      then set_plot_links settlement_id mun_id lp else lp
  | _, _ => lp
  end.

Lemma link_plot_alter d d' k :
  link_plot int idx d k = Returns d' →
  land_plots d' = alter (plot_linked_row k) k (land_plots d) ∧
  houses d' = houses d ∧ municipalities d' = municipalities d ∧
  settlements d' = settlements d ∧ streets d' = streets d.
Proof.
  unfold link_plot, plot_linked_row.
  destruct (find_parent_by_level int idx k ["5"; "6"]) as [s| |];
    simpl; [|done..].
  destruct (find_parent_by_level int idx k ["3"; "4"]) as [m| |];
    simpl; [|done..].
  destruct (Py.truthy_int s || Py.truthy_int m); intros [= <-]; simpl.
  - done.
  - by rewrite alter_id.
Qed.

Lemma link_land_plots_to_hierarchy_rows d d' :
  link_land_plots_to_hierarchy int idx d = Returns d' →
  (∀ k, land_plots d' !! k = plot_linked_row k <$> land_plots d !! k) ∧
  houses d' = houses d ∧ municipalities d' = municipalities d ∧
  settlements d' = settlements d ∧ streets d' = streets d.
Proof.
  unfold link_land_plots_to_hierarchy. intros Hloop. split.
  - intros k.
    rewrite (for_each_pointwise land_plots _ plot_linked_row _ _ _
               (λ s x s' H, proj1 (link_plot_alter s s' x H))
               (NoDup_fst_map_to_list _) Hloop k).
    case_decide as Hk; [done|].
    destruct (land_plots d !! k) as [lp|] eqn:Hlp; [|done].
    exfalso. apply Hk, elem_of_objectids. by exists lp.
  - eapply (for_each_invariant
              (λ s, houses s = houses d ∧ municipalities s = municipalities d ∧
                    settlements s = settlements d ∧ streets s = streets d)
              _ _ d); [done| |exact Hloop].
    intros s x s' _ (Hh & Hm & Hs & Hst) (_ & -> & -> & -> & ->)%link_plot_alter.
    done.
Qed.

Lemma insert_land_plots_frame d d' batch_data :
  insert_land_plots_batch int8 d batch_data = Returns d' →
  houses d' = houses d ∧ municipalities d' = municipalities d ∧
  settlements d' = settlements d ∧ streets d' = streets d.
Proof.
  unfold insert_land_plots_batch.
  destruct (insert_batch _ _ _ _ _) as [t| |]; simpl; [|done..].
  by intros [= <-].
Qed.

Lemma process_land_plots_frame files d d' :
  process_land_plots int8 files d = Returns d' →
  houses d' = houses d ∧ municipalities d' = municipalities d ∧
  settlements d' = settlements d ∧ streets d' = streets d.
Proof.
  unfold process_land_plots. destruct files as [|f0 fs] eqn:Hfiles.
  { by intros [= <-]. }
  rewrite <- Hfiles. clear Hfiles f0 fs. intros Hloop.
  set (same := λ s : db,
         houses s = houses d ∧ municipalities s = municipalities d ∧
         settlements s = settlements d ∧ streets s = streets d).
  eapply (for_each_invariant same _ _ d); [done| |exact Hloop].
  intros s f s' _ Hs. unfold process_steads_file.
  destruct (for_each (stead_elem int8) (s, []) (file_events f))
    as [[d1 batch]| |] eqn:Hfile; simpl; [|done..].
  assert (same d1) as Hd1.
  { eapply (for_each_invariant (λ st : db * list stead_data, same st.1)
              _ _ (s, []) (d1, batch)); [done| |exact Hfile].
    intros [d2 b2] x [d3 b3] _ Hd2. unfold stead_elem.
    case_decide; [|by intros [= <- <-]].
    destruct (Houses.reached _ _); [|by intros [= <- <-]].
    destruct (insert_land_plots_batch int8 d2 _) as [d4| |] eqn:Hins;
      simpl; [|done..].
    intros [= <- <-]. apply insert_land_plots_frame in Hins.
    unfold same in *. simpl in *. destruct Hins as (-> & -> & -> & ->). done. }
  destruct batch as [|t batch]; [by intros [= <-]|].
  intros Hins%insert_land_plots_frame. unfold same in *. simpl in *.
  destruct Hins as (-> & -> & -> & ->). done.
Qed.

End plots.

(** X25. [link_land_plots_to_hierarchy], row by row: a run that returns
    has found the settlement and the municipality of every plot without
    raising; when one of them is a non-zero id the plot receives both
    answers (a missing one as NULL), otherwise the row stays as it was. The
    houses are not touched. *)
Theorem plot_links int idx d d' k lp :
  link_land_plots_to_hierarchy int idx d = Returns d' →
  land_plots d !! k = Some lp →
  houses d' = houses d ∧
  ∃ settlement_id mun_id,
    find_parent_by_level int idx k ["5"; "6"] = Returns settlement_id ∧
    find_parent_by_level int idx k ["3"; "4"] = Returns mun_id ∧
    land_plots d' !! k
    = Some (if Py.truthy_int settlement_id || Py.truthy_int mun_id
            then set_plot_links settlement_id mun_id lp else lp).
Proof.
  intros Hrun Hlp.
  destruct (link_land_plots_to_hierarchy_rows int idx d d' Hrun)
    as (Hrows & Hh & _).
  split; [done|].
  destruct (for_each_returns _ _ _ _ k Hrun) as (s0 & s1 & Hbody);
    [apply elem_of_objectids; by exists lp|].
  unfold link_plot in Hbody. rewrite Hrows, Hlp. simpl. unfold plot_linked_row.
  destruct (find_parent_by_level int idx k ["5"; "6"]) as [s| |];
    simpl in Hbody; [|done..].
  destruct (find_parent_by_level int idx k ["3"; "4"]) as [m| |];
    simpl in Hbody; [|done..].
  by exists s, m.
Qed.

(** Plot 500, in settlement 200. *)
Definition steads : list xmlfile :=
  [XmlFile "AS_STEADS_1.XML"
     [Scenario.elem "STEAD"
        [("ID", "5"); ("OBJECTID", "500"); ("NUMBER", "12");
         ("ISACTUAL", "1"); ("ISACTIVE", "1")];
      Scenario.elem "STEADS" []]].

Definition steads_index : index :=
  load_hierarchy_and_levels Scenario.addr_obj
    [XmlFile "AS_MUN_HIERARCHY_1.XML"
       [Scenario.item "200" "100"; Scenario.item "500" "200"]] [].

Definition steads_store : db :=
  match process_land_plots Py.dec_int steads create_schema with
  | Returns d => d
  | _ => create_schema
  end.

Lemma plot_links_witness :
  ∃ d', link_land_plots_to_hierarchy Py.dec_int steads_index steads_store
        = Returns d' ∧
        (λ lp, (lp_settlement_id lp, lp_municipality_id lp))
          <$> land_plots d' !! 500%Z
        = Some (Some 200%Z, Some 100%Z).
Proof.
  destruct (link_land_plots_to_hierarchy Py.dec_int steads_index steads_store)
    as [d'| |] eqn:Hrun; [|vm_compute in Hrun; discriminate..].
  exists d'. split; [done|].
  destruct (land_plots steads_store !! 500%Z) as [lp|] eqn:Hlp;
    [|vm_compute in Hlp; discriminate].
  destruct (plot_links _ _ _ _ _ _ Hrun Hlp) as (_ & s & m & Hs & Hm & ->).
  vm_compute in Hs. injection Hs as <-.
  vm_compute in Hm. injection Hm as <-. reflexivity.
Defined.

End PlotsFacts.

(** ** The whole run *)

Module PipelineFacts.

Import Index Store Resolver Pipeline.

Section run.
Variable int : string → option Z.
Variable int8 : string → option Z.
Variable upper : string → string.
Variable strip : string → string.
Variable int_float : string → option Z.

Lemma process_addr_objects_houses files d d' :
  Stager.process_addr_objects int8 files d = Returns d' →
  houses d' = houses d.
Proof.
  intros Hrun.
  apply (StagerFacts.process_addr_objects_inv int8
           (λ _ st, houses (Stager.store st) = houses d)) with (d := d)
           (files := files); [| | |done|done].
  - intros seen st elem Hst _. by rewrite StagerFacts.store_route.
  - by intros seen st elem Hst _.
  - intros seen st st' i Hst. unfold StagerFacts.flush.
    destruct (StagerFacts.insert_into int8 i (Stager.store st)
                (StagerFacts.batch_of i st)) as [d1| |] eqn:Hins;
      simpl; [|done..].
    intros [= <-]. rewrite StagerFacts.store_emptied, <- Hst.
    destruct i; simpl in Hins;
      unfold Stager.insert_municipalities_batch,
        Stager.insert_settlements_batch, Stager.insert_streets_batch in Hins;
      (destruct (insert_batch _ _ _ _ _) as [t| |]; simpl in Hins; [|done..]);
      by injection Hins as <-.
Qed.

Lemma build_hierarchy_links_fixed_houses idx d d' :
  Links.build_hierarchy_links_fixed int idx d = Returns d' →
  houses d' = houses d.
Proof.
  unfold Links.build_hierarchy_links_fixed.
  destruct (for_each (Links.link_municipality int idx) d _)
    as [d1| |] eqn:H1; simpl; [|done..].
  destruct (for_each (Links.link_settlement int idx) d1 _)
    as [d2| |] eqn:H2; simpl; [|done..].
  destruct (for_each (Links.link_street int idx) d2 _)
    as [d3| |] eqn:H3; simpl; [|done..].
  intros [= <-]. simpl.
  transitivity (houses d2); [|transitivity (houses d1)].
  - eapply (for_each_invariant (λ s, houses s = houses d2) _ _ d2);
      [done| |exact H3].
    intros s x s' _ Hs. unfold Links.link_street.
    destruct (find_parent_by_level int idx x ["5"; "6"]) as [sid| |];
      simpl; [|done..].
    destruct (Py.truthy_int sid); by intros [= <-].
  - eapply (for_each_invariant (λ s, houses s = houses d1) _ _ d1);
      [done| |exact H2].
    intros s x s' _ Hs. unfold Links.link_settlement.
    destruct (find_mo_parent int idx x) as [m| |]; simpl; [|done..].
    destruct (Py.truthy_int m); by intros [= <-].
  - eapply (for_each_invariant (λ s, houses s = houses d) _ _ d);
      [done| |exact H1].
    intros s x s' _ Hs. unfold Links.link_municipality.
    destruct (find_mo_parent int idx x) as [p| |]; simpl; [|done..].
    destruct (_ && _); by intros [= <-].
Qed.

(** The houses of the final store, traced back through the stages to the
    store [d3] that [process_houses] returned and the store [d4] that
    [link_houses_to_hierarchy_fixed] returned. *)
Lemma main_stages xml d :
  main int int8 upper strip int_float xml = Returns d →
  let idx := load_hierarchy_and_levels
               (as_addr_obj xml) (as_mun_hierarchy xml) (as_adm_hierarchy xml) in
  ∃ d3 d4 d8,
    (∀ k h, houses d3 !! k = Some h →
            IntakeFacts.fresh_house int8
              (events_of
                 (filter (λ f, Py.contains "PARAM" (upper (file_path f)) = false)
                    (as_houses xml))) k h) ∧
    Houses.link_houses_to_hierarchy_fixed int idx d3 = Returns d4 ∧
    (∀ k, option_Forall2 ParamsFacts.same_but_params
            (houses (Houses.fix_municipality_links d4) !! k) (houses d8 !! k)) ∧
    d = Composer.build_full_addresses d8.
Proof.
  unfold main. cbv zeta.
  destruct (Stager.process_addr_objects int8 (as_addr_obj xml) create_schema)
    as [d1| |] eqn:H1; simpl; [|done..].
  destruct (Links.build_hierarchy_links_fixed int _ d1)
    as [d2| |] eqn:H2; simpl; [|done..].
  destruct (Houses.process_houses int8 upper (as_houses xml) d2)
    as [d3| |] eqn:H3; simpl; [|done..].
  destruct (Houses.link_houses_to_hierarchy_fixed int _ d3)
    as [d4| |] eqn:H4; simpl; [|done..].
  set (d5 := Houses.fix_municipality_links d4).
  set (d6 := (Params.process_house_params strip int_float int8
                (as_houses_params xml) d5).1).
  destruct (Plots.process_land_plots int8 (as_steads xml) d6)
    as [d7| |] eqn:H7; simpl; [|done..].
  destruct (Plots.link_land_plots_to_hierarchy int _ d7)
    as [d8| |] eqn:H8; simpl; [|done..].
  intros [= <-]. exists d3, d4, d8.
  assert (houses d2 = ∅) as Hempty.
  { rewrite (build_hierarchy_links_fixed_houses _ _ _ H2).
    by rewrite (process_addr_objects_houses _ _ _ H1). }
  pose proof (IntakeFacts.process_houses_staged int8 upper _ _ _ H3)
    as (Hm & Hs & Hst & Hlp & Hh & _).
  split; [|split; [done|split; [|done]]].
  - intros k h Hk. destruct (Hh k h Hk) as [Hold|Hfresh]; [|done].
    by rewrite Hempty, lookup_empty in Hold.
  - destruct (ParamsFacts.process_house_params_frame strip int_float int8
                (as_houses_params xml) d5) as (_ & _ & _ & _ & Hframe).
    fold d6 in Hframe.
    destruct (PlotsFacts.process_land_plots_frame int8 _ _ _ H7) as (Hh7 & _).
    destruct (PlotsFacts.link_land_plots_to_hierarchy_rows int _ _ _ H8)
      as (_ & Hh8 & _).
    intros k. rewrite Hh8, Hh7. apply Hframe.
Qed.

Lemma house_via_settlement_links settlements h :
  let h' := Houses.house_via_settlement settlements h in
  h_street_id h' = h_street_id h ∧ h_settlement_id h' = h_settlement_id h ∧
  h_full_address h' = h_full_address h ∧
  (h_municipality_id h ≠ None → h_municipality_id h' = h_municipality_id h) ∧
  (h_settlement_id h = None → h_municipality_id h' = h_municipality_id h).
Proof.
  cbv zeta. unfold Houses.house_via_settlement.
  destruct (h_municipality_id h) as [m|] eqn:Hm; [by rewrite Hm|].
  destruct (h_settlement_id h) as [sid|] eqn:Hsid; [|by rewrite Hm, Hsid].
  destruct (settlements !! sid) as [s|]; [|by rewrite Hm, Hsid].
  destruct (s_municipality_id s) as [mo|]; [|by rewrite Hm, Hsid].
  by simpl.
Qed.

End run.

(** X26. A run that returns has houses. When [main] returns a store, the
    houses table of that store is not empty: on an input that stages no
    house, the diagnostics of [link_houses_to_hierarchy_fixed] divide by
    zero and the run ends there. *)
Theorem a_returned_store_has_houses int int8 upper strip int_float xml d :
  main int int8 upper strip int_float xml = Returns d →
  houses d ≠ ∅.
Proof.
  intros Hrun.
  destruct (main_stages int int8 upper strip int_float xml d Hrun)
    as (d3 & d4 & d8 & _ & Hlink & Hkept & ->).
  destruct (HousesFacts.link_houses_to_hierarchy_fixed_rows _ _ _ _ Hlink)
    as [Hne Hrows].
  apply map_choose in Hne as (k & h3 & Hk).
  intros Hempty.
  assert (houses (Composer.build_full_addresses d8) !! k = None) as Hnone
    by (by rewrite Hempty, lookup_empty).
  unfold Composer.build_full_addresses in Hnone. simpl in Hnone.
  rewrite lookup_fmap in Hnone.
  specialize (Hkept k). unfold Houses.fix_municipality_links in Hkept.
  simpl in Hkept. rewrite lookup_fmap, Hrows, Hk in Hkept. simpl in Hkept.
  destruct (houses d8 !! k) as [h8|]; [done|]. inversion Hkept.
Qed.

Lemma a_returned_store_has_houses_witness :
  ∃ d, run scenario_1 = Returns d ∧ houses d ≠ ∅.
Proof.
  destruct (run scenario_1) as [d| |] eqn:Hrun;
    [|vm_compute in Hrun; discriminate..].
  exists d. split; [done|].
  by apply (a_returned_store_has_houses _ _ _ _ _ _ _ Hrun).
Defined.

(** X27. The links of a house at the end of the run. In the store that
    [main] returns, every house was searched without an exception; if one
    of the three answers is a non-zero id, the house has the street and the
    settlement of the answers, and the municipality of the answer when
    there is one; if none is, the house has no street, no settlement, no
    municipality and no address. *)
Theorem links_at_the_end int int8 upper strip int_float xml d k h :
  main int int8 upper strip int_float xml = Returns d →
  houses d !! k = Some h →
  let idx := load_hierarchy_and_levels
               (as_addr_obj xml) (as_mun_hierarchy xml) (as_adm_hierarchy xml) in
  ∃ street_id settlement_id mo_id,
    find_parent_by_level int idx k ["7"; "8"] = Returns street_id ∧
    find_parent_by_level int idx k ["5"; "6"] = Returns settlement_id ∧
    find_mo_parent int idx k = Returns mo_id ∧
    if Py.truthy_int street_id || Py.truthy_int settlement_id
       || Py.truthy_int mo_id
    then h_street_id h = street_id ∧ h_settlement_id h = settlement_id ∧
         (mo_id ≠ None → h_municipality_id h = mo_id)
    else h_street_id h = None ∧ h_settlement_id h = None ∧
         h_municipality_id h = None ∧ h_full_address h = None.
Proof.
  intros Hrun Hh idx.
  destruct (main_stages int int8 upper strip int_float xml d Hrun)
    as (d3 & d4 & d8 & Hfresh & Hlink & Hkept & ->).
  fold idx in Hlink.
  destruct (HousesFacts.link_houses_to_hierarchy_fixed_rows _ _ _ _ Hlink)
    as [_ Hrows].
  unfold Composer.build_full_addresses in Hh. simpl in Hh.
  rewrite lookup_fmap in Hh.
  destruct (houses d8 !! k) as [h8|] eqn:Hk8; [|done].
  simpl in Hh. injection Hh as <-.
  specialize (Hkept k). rewrite Hk8 in Hkept.
  unfold Houses.fix_municipality_links in Hkept. simpl in Hkept.
  rewrite lookup_fmap, Hrows in Hkept.
  destruct (houses d3 !! k) as [h3|] eqn:Hk3; [|inversion Hkept].
  simpl in Hkept. inversion Hkept as [h5 h8' Hsame Heq5 Heq8|]. subst h8'.
  clear Hkept.
  destruct (Hfresh k h3 Hk3) as (elem & _ & _ & _ & Hrow).
  assert (h_street_id h3 = None ∧ h_settlement_id h3 = None ∧
          h_municipality_id h3 = None ∧ h_full_address h3 = None)
    as (Hst3 & Hs3 & Hm3 & Ha3).
  { unfold Houses.house_row in Hrow.
    destruct (bigint int8 _) as [id| |]; simpl in Hrow; [|done..].
    by injection Hrow as <-. }
  unfold Houses.link_houses_to_hierarchy_fixed in Hlink.
  destruct (for_each (Houses.link_house int idx) (d3, []) (objectids (houses d3)))
    as [st| |] eqn:Hloop; simpl in Hlink; [|done..].
  destruct (for_each_returns _ _ _ _ k Hloop) as (s0 & s1 & Hbody);
    [apply elem_of_objectids; by exists h3|].
  apply HousesFacts.link_house_returns in Hbody as (s & t & m & Hs & Ht & Hm).
  exists s, t, m. repeat (split; [done|]).
  destruct Hsame as (_ & _ & _ & _ & _ & Hst8 & Hs8 & Hm8 & Ha8 & _).
  rewrite ComposerFacts.compose_address.
  destruct (house_via_settlement_links (settlements d4)
              (HousesFacts.linked_row int idx k h3))
    as (Hst5 & Hs5 & Ha5 & Hm5 & Hm5').
  unfold HousesFacts.linked_row in *. rewrite Hs, Ht, Hm in *.
  destruct (Py.truthy_int s || Py.truthy_int t || Py.truthy_int m) eqn:Hany.
  - simpl in *. split; [congruence|]. split; [congruence|].
    intros Hsome. rewrite Hm8. by apply Hm5.
  - simpl. split; [congruence|]. split; [congruence|].
    assert (h_municipality_id h8 = None) as Hnull
      by (rewrite Hm8, Hm5' by done; done).
    split; [done|].
    unfold Composer.compose. rewrite Hnull. congruence.
Qed.

Lemma links_at_the_end_witness :
  ∃ d h, run scenario_1 = Returns d ∧ houses d !! 400%Z = Some h ∧
         h_street_id h = Some 300%Z ∧ h_settlement_id h = Some 200%Z ∧
         h_municipality_id h = Some 100%Z.
Proof.
  destruct (run scenario_1) as [d| |] eqn:Hrun;
    [|vm_compute in Hrun; discriminate..].
  destruct (houses d !! 400%Z) as [h|] eqn:Hh;
    [|vm_compute in Hrun; injection Hrun as <-; vm_compute in Hh; discriminate].
  exists d, h. split; [done|]. split; [done|].
  destruct (links_at_the_end _ _ _ _ _ _ _ _ _ Hrun Hh)
    as (s & t & m & Hs & Ht & Hm & Hlinks).
  vm_compute in Hs. injection Hs as <-.
  vm_compute in Ht. injection Ht as <-.
  vm_compute in Hm. injection Hm as <-.
  simpl in Hlinks. destruct Hlinks as (H1 & H2 & H3).
  split; [exact H1|]. split; [exact H2|]. apply H3. discriminate.
Defined.

End PipelineFacts.

(** ** What an answer of the search is *)

Module Answers.

Import Index Resolver.

(** X28. An answer is on the walk. When [find_parent_by_level] returns an
    id, the id asked was not 0 and the answer is [int] of the first object
    of the upward walk (the object itself included) whose level is among
    the targets. *)
Theorem answer_is_on_the_walk int idx objectid levels z :
  find_parent_by_level int idx objectid levels = Returns (Some z) →
  objectid ≠ 0%Z ∧
  ∃ n a, first_at_level idx levels (Py.str objectid) n a ∧ int a = Some z.
Proof.
  intros Hr. split.
  - intros ->. unfold find_parent_by_level in Hr.
    by rewrite decide_True in Hr.
  - destruct (ResolverFacts.find_outcome int idx objectid levels)
      as [Hnone|(n & a & Hfst & Ha)]; [by rewrite Hnone in Hr|].
    exists n, a. split; [done|].
    rewrite Ha in Hr. unfold to_int in Hr.
    destruct (int a) as [z'|]; [|done]. by injection Hr as ->.
Qed.

Lemma answer_is_on_the_walk_witness :
  400%Z ≠ 0%Z ∧
  ∃ n a, first_at_level scenario_index ["5"; "6"] (Py.str 400) n a ∧
         Py.dec_int a = Some 200%Z.
Proof.
  apply (answer_is_on_the_walk Py.dec_int scenario_index 400 ["5"; "6"] 200).
  vm_compute. reflexivity.
Defined.

End Answers.

(** ** The intake of the land plots *)

Module PlotsIntake.

Import Index Store Plots.

Section intake.
Variable int8 : string → option Z.
(** The elements of the files being read, and the store before. *)
Variable evs : list element.
Variable d0 : db.

Definition active_stead (elem : element) : Prop :=
  tag elem = "STEAD" ∧
  attrib elem !! "ISACTUAL" = Some "1" ∧ attrib elem !! "ISACTIVE" = Some "1".

(** The row [lp] of key [k] was built from an active STEAD of the files. *)
Definition fresh_plot (k : Z) (lp : land_plot) : Prop :=
  ∃ elem, elem ∈ evs ∧ active_stead elem ∧
          bigint int8 (attrib elem !! "OBJECTID") = Returns k ∧
          plot_row int8 (stead_data_of (attrib elem)) = Returns lp.

Definition staged_plots (st : db * list stead_data) : Prop :=
  (∀ k lp, land_plots st.1 !! k = Some lp →
           land_plots d0 !! k = Some lp ∨ fresh_plot k lp) ∧
  (∀ t, t ∈ st.2 →
        ∃ elem, elem ∈ evs ∧ active_stead elem ∧ t = stead_data_of (attrib elem)).

Lemma insert_land_plots_staged d batch_data d' :
  staged_plots (d, batch_data) →
  insert_land_plots_batch int8 d batch_data = Returns d' →
  staged_plots (d', []).
Proof.
  intros (Hlp & Hb). unfold insert_land_plots_batch.
  destruct (insert_batch int8 sd_objectid (plot_row int8) (land_plots d)
              batch_data) as [t| |] eqn:Hins; simpl; [|done..].
  intros [= <-]. split; simpl in *.
  - intros k lp Hk.
    destruct (Stager.insert_batch_rows int8 _ _ _ _ _ Hins k lp Hk)
      as [Hold|(tuple & Hin & Hkey & Hrow)]; [by apply Hlp|].
    right. destruct (Hb tuple Hin) as (elem & Helem & Hact & ->).
    by exists elem.
  - by intros tuple ?%elem_of_nil.
Qed.

Lemma stead_elem_staged st st' elem :
  staged_plots st → elem ∈ evs →
  stead_elem int8 st elem = Returns st' → staged_plots st'.
Proof.
  destruct st as [d batch_data]. intros Hst Hin. unfold stead_elem.
  case_decide as Htag; [|by intros [= <-]].
  set (batch := if decide (attrib elem !! "ISACTUAL" = Some "1" ∧
                           attrib elem !! "ISACTIVE" = Some "1")
                then batch_data ++ [stead_data_of (attrib elem)]
                else batch_data).
  assert (staged_plots (d, batch)) as Hst1.
  { destruct Hst as (Hlp & Hb). split; [done|]. simpl. unfold batch.
    case_decide as Hflags; [|done].
    intros t [Ht|Ht%list_elem_of_singleton]%elem_of_app; [by apply Hb|].
    subst t. exists elem. by repeat split; try apply Hflags. }
  destruct (Houses.reached Houses.batch_size batch); [|by intros [= <-]].
  destruct (insert_land_plots_batch int8 d batch) as [d1| |] eqn:Hins;
    simpl; [|done..].
  intros [= <-]. by apply (insert_land_plots_staged d batch).
Qed.

Lemma process_steads_file_staged d d' file :
  staged_plots (d, []) → (∀ elem, elem ∈ file_events file → elem ∈ evs) →
  process_steads_file int8 d file = Returns d' → staged_plots (d', []).
Proof.
  intros Hd Hsub. unfold process_steads_file.
  destruct (for_each (stead_elem int8) (d, []) (file_events file))
    as [[d1 batch]| |] eqn:Hloop; simpl; [|done..].
  assert (staged_plots (d1, batch)) as Hst.
  { eapply (for_each_invariant staged_plots _ _ (d, []) (d1, batch));
      [done| |exact Hloop].
    intros s x s' Hx Hs. apply (stead_elem_staged s s' x Hs). by apply Hsub. }
  destruct batch as [|t batch].
  - by intros [= <-].
  - by apply insert_land_plots_staged.
Qed.

End intake.

(** *** The rows that were there stay *)

Lemma insert_land_plots_keeps int8 d d' batch_data k lp :
  insert_land_plots_batch int8 d batch_data = Returns d' →
  land_plots d !! k = Some lp → land_plots d' !! k = Some lp.
Proof.
  unfold insert_land_plots_batch.
  destruct (insert_batch int8 sd_objectid (plot_row int8) (land_plots d)
              batch_data) as [t| |] eqn:Hins; simpl; [|done..].
  intros [= <-]. simpl.
  by apply (StoreFacts.insert_batch_keeps int8 _ _ _ _ _ _ _ Hins).
Qed.

Lemma stead_elem_keeps int8 st st' elem k lp :
  stead_elem int8 st elem = Returns st' →
  land_plots st.1 !! k = Some lp → land_plots st'.1 !! k = Some lp.
Proof.
  destruct st as [d batch_data]. unfold stead_elem.
  case_decide as Htag; [|by intros [= <-]].
  destruct (Houses.reached Houses.batch_size _); [|by intros [= <-]].
  destruct (insert_land_plots_batch int8 d _) as [d1| |] eqn:Hins;
    simpl; [|done..].
  intros [= <-]. simpl. by apply (insert_land_plots_keeps int8 d d1 _ k lp Hins).
Qed.

Lemma process_steads_file_keeps int8 d d' file k lp :
  process_steads_file int8 d file = Returns d' →
  land_plots d !! k = Some lp → land_plots d' !! k = Some lp.
Proof.
  unfold process_steads_file. intros Hrun Hk.
  destruct (for_each (stead_elem int8) (d, []) (file_events file))
    as [[d1 batch]| |] eqn:Hloop; simpl in Hrun; [|done..].
  assert (land_plots d1 !! k = Some lp) as Hk1.
  { eapply (for_each_invariant
              (λ st : db * list stead_data, land_plots st.1 !! k = Some lp)
              _ _ (d, []) (d1, batch)); [done| |exact Hloop].
    intros s x s' _ Hs Hx. by apply (stead_elem_keeps int8 s s' x). }
  destruct batch as [|t batch]; [by injection Hrun as <-|].
  by apply (insert_land_plots_keeps int8 d1 d' _ k lp Hrun).
Qed.

Lemma process_land_plots_keeps int8 files d d' k lp :
  process_land_plots int8 files d = Returns d' →
  land_plots d !! k = Some lp → land_plots d' !! k = Some lp.
Proof.
  unfold process_land_plots. destruct files as [|f0 fs]; [by intros [= <-]|].
  intros Hloop Hk.
  eapply (for_each_invariant (λ s, land_plots s !! k = Some lp) _ _ d);
    [done| |exact Hloop].
  intros s f s' _ Hs Hf. by apply (process_steads_file_keeps int8 s s' f).
Qed.

Lemma staged_plots_start int8 evs d : staged_plots int8 evs d (d, []).
Proof. split; simpl; [by left|]. by intros t ?%elem_of_nil. Qed.

Lemma process_land_plots_staged int8 files d d' :
  process_land_plots int8 files d = Returns d' →
  staged_plots int8 (events_of files) d (d', []).
Proof.
  unfold process_land_plots. destruct files as [|f0 fs] eqn:Hfiles.
  { intros [= <-]. apply staged_plots_start. }
  rewrite <- Hfiles. clear Hfiles f0 fs. intros Hloop.
  eapply (for_each_invariant (λ s, staged_plots int8 (events_of files) d (s, []))
            _ _ d); [apply staged_plots_start| |exact Hloop].
  intros s f s' Hf Hs. apply (process_steads_file_staged _ _ _ s s' f Hs).
  intros elem Helem. apply elem_of_events_of. by exists f.
Qed.

(** X29. The intake of the land plots. The rows that were in land_plots
    are kept as they were, and so are the other tables. Every other row of
    land_plots after [process_land_plots] is built from a STEAD element
    with ISACTUAL = 1 and ISACTIVE = 1; it carries the number of the
    element and no settlement and no municipality. *)
Theorem plots_from_active_records int8 files d d' :
  process_land_plots int8 files d = Returns d' →
  houses d' = houses d ∧ municipalities d' = municipalities d ∧
  settlements d' = settlements d ∧ streets d' = streets d ∧
  (∀ k lp, land_plots d !! k = Some lp → land_plots d' !! k = Some lp) ∧
  ∀ k lp, land_plots d' !! k = Some lp →
    land_plots d !! k = Some lp ∨
    ∃ elem id,
      elem ∈ events_of files ∧ active_stead elem ∧
      bigint int8 (attrib elem !! "OBJECTID") = Returns k ∧
      bigint int8 (attrib elem !! "ID") = Returns id ∧
      lp = LandPlot id (attrib elem !! "OBJECTGUID") (attrib elem !! "NUMBER")
                    None None 1 1 (attrib elem !! "UPDATEDATE").
Proof.
  intros Hrun.
  destruct (PlotsFacts.process_land_plots_frame int8 files d d' Hrun)
    as (Hh & Hm & Hs & Hst).
  repeat (split; [done|]).
  split; [intros k lp; by apply (process_land_plots_keeps int8 files d d')|].
  intros k lp Hk.
  apply process_land_plots_staged in Hrun as [Hlp _].
  destruct (Hlp k lp Hk) as [Hold|(elem & Hin & Hact & Hkey & Hrow)];
    [by left|].
  right. unfold plot_row in Hrow. simpl in Hrow.
  destruct (bigint int8 (attrib elem !! "ID")) as [id| |] eqn:Hid;
    simpl in Hrow; [|done..].
  injection Hrow as <-. by exists elem, id.
Qed.

Lemma plots_from_active_records_witness :
  ∃ d' lp,
    process_land_plots Py.dec_int PlotsFacts.steads PlotsFacts.steads_store
      = Returns d' ∧
    land_plots PlotsFacts.steads_store !! 500%Z = Some lp ∧
    land_plots d' !! 500%Z = Some lp.
Proof.
  destruct (process_land_plots Py.dec_int PlotsFacts.steads
              PlotsFacts.steads_store) as [d'| |] eqn:Hrun;
    [|vm_compute in Hrun; discriminate..].
  destruct (land_plots PlotsFacts.steads_store !! 500%Z) as [lp|] eqn:Hlp;
    [|vm_compute in Hlp; discriminate].
  exists d', lp. split; [done|]. split; [done|].
  destruct (plots_from_active_records _ _ _ _ Hrun)
    as (_ & _ & _ & _ & Hkeep & _).
  by apply Hkeep.
Defined.

End PlotsIntake.
